(** * local-sent: the receiver engine, pairing state, framing and TLS trust

    A shallow embedding of [src/utils.ts], [src/transfer.ts],
    [src/tlsTrust.ts], [src/protocol.ts] and [src/constants.ts].

    Conventions.
    - JavaScript strings are [string]s (sequences of 8-bit code units), socket
      and file data are [list byte], numbers that hold sizes, offsets and
      times are [Z].
    - [x: string | null] and optional fields are [option string]; the
      truthiness test [!x] of the source is [falsy].
    - A function that can throw returns [Res]; the thrown message is kept.
    - What the source takes from Node (hashing, JSON, the platform's path
      module, the collation behind [localeCompare]) is an interface: a type
      class whose operations the definitions use and the theorems quantify
      over. *)

From Stdlib Require Import ZArith String Ascii List Bool Lia Sorted Permutation.
From Stdlib.Strings Require Import Byte.
From stdpp Require Import base tactics option list strings gmap pretty.

Local Open Scope string_scope.
Local Open Scope Z_scope.
Local Open Scope list_scope.

(** ** Results of fallible code *)

Inductive Res (A : Type) : Type :=
  | Ok (a : A)
  | Throw (message : string).
Arguments Ok {A} a.
Arguments Throw {A} message.

Global Instance Res_ret : MRet Res := λ A a, Ok a.
Global Instance Res_bind : MBind Res := λ A B k r,
  match r with
  | Ok a => k a
  | Throw m => Throw m
  end.

(** ** Strings as the source uses them *)

Module Str.

(** [s.replace(/\\/g, "/")] *)
Fixpoint replaceBackslashes (s : string) : string :=
  match s with
  | "" => ""
  | String a s' =>
      String (if Ascii.eqb a "\" then "/"%char else a) (replaceBackslashes s')
  end.

Fixpoint trimStart (s : string) : string :=
  match s with
  | String a s' => if Ascii.is_space a then trimStart s' else s
  | "" => ""
  end.

(** [s.trim()], on the white space of the ASCII range. *)
Definition trim (s : string) : string :=
  String.rev (trimStart (String.rev (trimStart s))).

(** [s.replace(/^\/+/, "")] *)
Fixpoint stripLeadingSlashes (s : string) : string :=
  match s with
  | String a s' => if Ascii.eqb a "/" then stripLeadingSlashes s' else s
  | "" => ""
  end.

(** [s.startsWith(p)] *)
Definition startsWith (p s : string) : bool := String.prefix p s.

(** [s.includes(p)] *)
Fixpoint includes (p s : string) : bool :=
  String.prefix p s ||
  match s with
  | String _ s' => includes p s'
  | "" => false
  end.

Definition endsWithSlash (s : string) : bool :=
  match String.rev s with
  | String a _ => Ascii.eqb a "/"
  | "" => false
  end.

(** [s.split("/")] *)
Fixpoint split (s : string) : list string :=
  match s with
  | "" => [""]
  | String a s' =>
      if Ascii.eqb a "/" then "" :: split s'
      else match split s' with
           | x :: xs => String a x :: xs
           | [] => [String a ""]
           end
  end.

(** [segments.join("/")] *)
Definition join (l : list string) : string := String.concat "/" l.

(** [s.toLowerCase()], on the letters of the ASCII range. *)
Definition lowerChar (a : ascii) : ascii :=
  let n := N_of_ascii a in
  if ((65 <=? n) && (n <=? 90))%N then ascii_of_N (n + 32) else a.

Fixpoint toLowerCase (s : string) : string :=
  match s with
  | "" => ""
  | String a s' => String (lowerChar a) (toLowerCase s')
  end.

(** [s.replace(/:/g, "")] *)
Fixpoint removeColons (s : string) : string :=
  match s with
  | "" => ""
  | String a s' =>
      if Ascii.eqb a ":" then removeColons s' else String a (removeColons s')
  end.

Definition falsy (s : string) : bool := bool_decide (s = "").

End Str.

(** [!x] for [x: string | null | undefined]: null, undefined and the empty
    string are falsy. *)
Definition falsy (x : option string) : bool :=
  match x with
  | None => true
  | Some s => Str.falsy s
  end.

Definition truthy (x : option string) : bool := negb (falsy x).

(** ** Node's [path.posix.normalize]

    The function is Node's, not the repository's.  Its loop
    ([normalizeString]) walks the path one segment at a time: an empty segment
    and [.] are dropped, [..] removes the segment before it, and where there
    is nothing to remove a relative path keeps the [..] while an absolute one
    drops it. *)

Module Posix.

(** One segment; [res] is the result so far, last segment first. *)
Definition normalizeSegment (allowAboveRoot : bool)
    (res : list string) (seg : string) : list string :=
  if bool_decide (seg = "") || bool_decide (seg = ".") then res
  else if bool_decide (seg = "..") then
    match res with
    | top :: rest =>
        if bool_decide (top = "..")
        then (if allowAboveRoot then ".." :: res else res)
        else rest
    | [] => if allowAboveRoot then [".."] else []
    end
  else seg :: res.

Definition normalizeString (path : string) (allowAboveRoot : bool) : string :=
  Str.join (rev (fold_left (normalizeSegment allowAboveRoot) (Str.split path) [])).

Definition normalize (path : string) : string :=
  if bool_decide (path = "") then "."
  else
    let isAbsolute := Str.startsWith "/" path in
    let trailingSeparator := Str.endsWithSlash path in
    let body := normalizeString path (negb isAbsolute) in
    if bool_decide (body = "") then
      if isAbsolute then "/" else if trailingSeparator then "./" else "."
    else
      let body := if trailingSeparator then body +:+ "/" else body in
      if isAbsolute then "/" +:+ body else body.

End Posix.

(** ** utils.ts: path safety *)

Definition invalidNormalized (normalized : string) : bool :=
  Str.falsy normalized
  || bool_decide (normalized = ".")
  || bool_decide (normalized = "..")
  || Str.startsWith "../" normalized
  || Str.includes "/../" normalized.

Definition normalizedForm (input : string) : string :=
  let unixPath := Str.trim (Str.replaceBackslashes input) in
  Str.stripLeadingSlashes (Posix.normalize unixPath).

Definition normalizeTransferPath (input : string) : Res string :=
  let unixPath := Str.trim (Str.replaceBackslashes input) in
  let normalized := Str.stripLeadingSlashes (Posix.normalize unixPath) in
  if invalidNormalized normalized then Throw "invalid relative path"
  else Ok normalized.

(** ** Interfaces to Node *)

(** [createHash("sha256")]: the hex digest of a byte sequence. A streaming
    hasher is the sequence of bytes it has absorbed; [digest("hex")] hashes
    that sequence. *)
Class Sha256 := sha256Hex : list byte → string.

Abbreviation Hasher := (list byte) (only parsing).

Definition hasherUpdate (h : Hasher) (chunk : list byte) : Hasher := h ++ chunk.
Definition hasherDigest `{Sha256} (h : Hasher) : string := sha256Hex h.

(** [decodeJsonLine<T>]: [JSON.parse] of one line, which returns a value or
    throws a message. *)
Class JsonCodec (T : Type) := decodeJsonLine : string → Res T.

(** The platform's [path] module ([resolve], [relative], [normalize],
    [dirname], [basename], [extname], [sep]). *)
Class PathOps := {
  sep : string;
  pathResolve : string → string;
  pathResolve2 : string → string → string;
  pathRelative : string → string → string;
  pathNormalize : string → string;
  pathDirname : string → string;
  pathBasename : string → string;
  pathExtname : string → string;
}.

(** [String.prototype.localeCompare], as the sign of its result. *)
Class Collation := localeCompare : string → string → comparison.

(** ** constants.ts and protocol.ts *)

Definition HEADER_MAX_BYTES : Z := 64 * 1024.

Record TransferHeader := {
  h_type : string;
  h_version : Z;
  h_relativePath : string;
  h_fileSize : Z;
  h_sha256 : string;
  h_pairCode : option string;
}.

Record ReadyMessage := {
  ready_ok : bool;
  ready_offset : Z;
  ready_message : option string;
  ready_savedPath : option string;
}.

Record AckMessage := {
  ack_ok : bool;
  ack_message : option string;
  ack_sha256 : option string;
  ack_receivedBytes : option Z;
  ack_savedPath : option string;
  ack_resumedFrom : option Z;
  ack_nextPairCode : option string;
}.

(** A control record handed to [socket.write] or [socket.end]. *)
Inductive Message :=
  | MReady (m : ReadyMessage)
  | MAck (m : AckMessage).

Definition readyFailure (message : string) : Message :=
  MReady {| ready_ok := false; ready_offset := 0;
            ready_message := Some message; ready_savedPath := None |}.

Definition ackFailure (message : string) : Message :=
  MAck {| ack_ok := false; ack_message := Some message; ack_sha256 := None;
          ack_receivedBytes := None; ack_savedPath := None;
          ack_resumedFrom := None; ack_nextPairCode := None |}.

Definition isAckOk (m : Message) : bool :=
  match m with
  | MAck a => ack_ok a
  | MReady _ => false
  end.

Definition isAckFailure (m : Message) : bool :=
  match m with
  | MAck a => negb (ack_ok a)
  | MReady _ => false
  end.

(** ** transfer.ts: pairing state *)

Record PairingState := {
  currentCode : option string;
  previousCode : option string;
  previousCodeValidUntilMs : Z;
  activeTransfers : Z;
}.

(** The [reason] argument: ["once"] or ["ttl"]. *)
Inductive RotateReason := ReasonOnce | ReasonTtl.

(** [generatePairCode: () => string] is an injected generator; the n-th call
    returns [gen n]. The number of calls made so far is part of the state. *)
Abbreviation Generator := (nat → string) (only parsing).

Record TransferConfirmRequest := {
  from : string;
  req_relativePath : string;
  req_fileSize : Z;
}.

(** What [confirmTransfer] answers: a boolean, or a decision object. *)
Inductive ConfirmAnswer :=
  | AnswerBool (accept : bool)
  | AnswerDecision (accept : bool) (message : option string).

Record ListenOptions := {
  outputDir : string;
  pairCode : option string;
  rotatePairCodePerTransfer : bool;
  pairCodeTtlSeconds : option Z;
  generatePairCode : option (nat → string);
  confirmTransfer : option (TransferConfirmRequest → ConfirmAnswer);
}.

(** What [startReceiver] shares between the sessions and the TTL timer. *)
Record Pairing := {
  state : PairingState;
  genCalls : nat;
  notifications : list (string * RotateReason);
}.

Definition isPairCodeAccepted (pairingState : PairingState)
    (incomingCode : option string) (now : Z) : bool :=
  if falsy (currentCode pairingState) then true
  else if bool_decide (incomingCode = currentCode pairingState) then true
  else if truthy (previousCode pairingState)
          && bool_decide (incomingCode = previousCode pairingState)
          && (now <=? previousCodeValidUntilMs pairingState)
  then true
  else false.

(** [for (let i = 0; i < 5 && nextCode === oldCode; i += 1) nextCode = gen()];
    [budget] is the number of iterations left. *)
Fixpoint regenerate (gen : Generator) (oldCode : option string)
    (budget : nat) (nextCode : string) (calls : nat) : string * nat :=
  match budget with
  | O => (nextCode, calls)
  | S budget' =>
      if bool_decide (Some nextCode = oldCode)
      then regenerate gen oldCode budget' (gen calls) (S calls)
      else (nextCode, calls)
  end.

Definition generateNext (gen : Generator) (oldCode : option string)
    (calls : nat) : string * nat :=
  regenerate gen oldCode 5 (gen calls) (S calls).

(** [rotatePairCodeOnce], with the generator's call count threaded. *)
Definition rotatePairCodeOnce (pairingState : PairingState) (gen : Generator)
    (calls : nat) : string * PairingState * nat :=
  let oldCode := currentCode pairingState in
  let '(nextCode, calls') := generateNext gen oldCode calls in
  (nextCode,
   {| currentCode := Some nextCode;
      previousCode := None;
      previousCodeValidUntilMs := 0;
      activeTransfers := activeTransfers pairingState |},
   calls').

(** [ttlMs] of [startReceiver]; [None] is the source's [null], and a zero is
    falsy wherever it is tested. *)
Definition ttlMs (options : ListenOptions) : option Z :=
  match pairCodeTtlSeconds options with
  | Some seconds => if seconds =? 0 then None else Some (seconds * 1000)
  | None => None
  end.

Definition ttlMsTruthy (options : ListenOptions) : option Z :=
  match ttlMs options with
  | Some ms => if ms =? 0 then None else Some ms
  | None => None
  end.

(** The closure [rotatePairCode] of [startReceiver]. *)
Definition rotatePairCode (options : ListenOptions) (reason : RotateReason)
    (now : Z) (p : Pairing) : option string * Pairing :=
  match generatePairCode options with
  | None => (None, p)
  | Some gen =>
      if falsy (currentCode (state p)) then (None, p)
      else
        let oldCode := currentCode (state p) in
        let '(nextCode, calls') := generateNext gen oldCode (genCalls p) in
        let st :=
          match reason, ttlMsTruthy options with
          | ReasonTtl, Some ms =>
              {| currentCode := Some nextCode;
                 previousCode := oldCode;
                 previousCodeValidUntilMs := now + ms;
                 activeTransfers := activeTransfers (state p) |}
          | _, _ =>
              {| currentCode := Some nextCode;
                 previousCode := None;
                 previousCodeValidUntilMs := 0;
                 activeTransfers := activeTransfers (state p) |}
          end in
        (Some nextCode,
         {| state := st; genCalls := calls';
            notifications := notifications p ++ [(nextCode, reason)] |})
  end.

(** The callback of the [setInterval] timer. *)
Definition ttlTick (options : ListenOptions) (now : Z) (p : Pairing) : Pairing :=
  if 0 <? activeTransfers (state p) then p
  else snd (rotatePairCode options ReasonTtl now p).

(** The part of [startReceiver] that sets up pairing: the initial state, and
    whether the TTL timer is created. *)
Definition startPairing (options : ListenOptions) : Res (Pairing * bool) :=
  let needsGenerator :=
    rotatePairCodePerTransfer options
    || match pairCodeTtlSeconds options with
       | Some s => negb (s =? 0) | None => false end in
  if needsGenerator && negb (bool_decide (is_Some (generatePairCode options)))
  then Throw "generatePairCode is required when pair code rotation is enabled"
  else
    match pairCodeTtlSeconds options with
    | Some s =>
        if negb (s =? 0) && (s <=? 0)
        then Throw "pairCodeTtlSeconds must be positive" else Ok tt
    | None => Ok tt
    end
    ≫= λ _,
    let initial := pairCode options in
    let '(code, calls) :=
      match generatePairCode options with
      | Some gen =>
          if needsGenerator && falsy initial then (Some (gen O), 1%nat)
          else (initial, O)
      | None => (initial, O)
      end in
    let timer :=
      match ttlMsTruthy options with
      | Some _ => truthy code
      | None => false
      end in
    Ok ({| state := {| currentCode := code; previousCode := None;
                       previousCodeValidUntilMs := 0; activeTransfers := 0 |};
           genCalls := calls; notifications := [] |}, timer).

(** ** transfer.ts: [SocketReader] *)

(** What the socket emits: [data], [end], [close] and [error]. *)
Inductive SocketEvent :=
  | Data (chunk : list byte)
  | End
  | Close
  | Error (message : string).

Record SocketReader := {
  buffer : list byte;
  ended : bool;
  error : option string;
}.

Definition newSocketReader : SocketReader :=
  {| buffer := []; ended := false; error := None |}.

(** The handlers [onData], [onEnd], [onClose] and [onError]. *)
Definition deliver (ev : SocketEvent) (r : SocketReader) : SocketReader :=
  match ev with
  | Data chunk =>
      {| buffer := (if bool_decide (buffer r = []) then chunk else buffer r ++ chunk);
         ended := ended r; error := error r |}
  | End | Close => {| buffer := buffer r; ended := true; error := error r |}
  | Error m => {| buffer := buffer r; ended := ended r; error := Some m |}
  end.

(** An [await] on the socket: the value, a thrown message, or a wait that is
    never woken because the socket emits nothing more. *)
Inductive Await (A : Type) : Type :=
  | Got (a : A)
  | Failed (message : string)
  | Waiting.
Arguments Got {A} a.
Arguments Failed {A} message.
Arguments Waiting {A}.

Definition newline : byte := x0a.

(** [buffer.indexOf(0x0a)]: the bytes before the first newline and the bytes
    after it, when there is one. *)
Fixpoint splitAtNewline (b : list byte) : option (list byte * list byte) :=
  match b with
  | [] => None
  | x :: rest =>
      if Byte.eqb x newline then Some ([], rest)
      else match splitAtNewline rest with
           | Some (line, after) => Some (x :: line, after)
           | None => None
           end
  end.

Definition bufferLength (b : list byte) : Z := Z.of_nat (length b).

(** One pass of the loop of [readLineMessage], up to [waitForUpdate]. *)
Definition readLineOnce {T} `{JsonCodec T} (label : string) (r : SocketReader)
    : option (Await T * SocketReader) :=
  match error r with
  | Some m => Some (Failed m, r)
  | None =>
      match splitAtNewline (buffer r) with
      | Some (line, after) =>
          let r' := {| buffer := after; ended := ended r; error := error r |} in
          match decodeJsonLine (Str.trim (string_of_list_byte line)) with
          | Ok v => Some (Got v, r')
          | Throw m => Some (Failed ("invalid " +:+ label +:+ ": " +:+ m), r')
          end
      | None =>
          if HEADER_MAX_BYTES <? bufferLength (buffer r)
          then Some (Failed (label +:+ " too large"), r)
          else if ended r
          then Some (Failed ("connection closed before " +:+ label), r)
          else None
      end
  end.

(** [readLineMessage]: each [waitForUpdate] is woken by the next event of
    [inbox]. *)
Fixpoint readLineMessage {T} `{JsonCodec T} (label : string)
    (inbox : list SocketEvent) (r : SocketReader)
    : Await T * SocketReader * list SocketEvent :=
  match readLineOnce label r with
  | Some (a, r') => (a, r', inbox)
  | None =>
      match inbox with
      | [] => (Waiting, r, [])
      | ev :: inbox' => readLineMessage label inbox' (deliver ev r)
      end
  end.

(** [readChunk]; [Got None] is the source's [null]. *)
Fixpoint readChunk (inbox : list SocketEvent) (r : SocketReader)
    : Await (option (list byte)) * SocketReader * list SocketEvent :=
  match error r with
  | Some m => (Failed m, r, inbox)
  | None =>
      if 0 <? bufferLength (buffer r)
      then (Got (Some (buffer r)),
            {| buffer := []; ended := ended r; error := error r |}, inbox)
      else if ended r then (Got None, r, inbox)
      else match inbox with
           | [] => (Waiting, r, [])
           | ev :: inbox' => readChunk inbox' (deliver ev r)
           end
  end.

(** ** The receiver's files *)

Inductive Node :=
  | File (content : list byte)
  | Directory.

Abbreviation FS := (gmap string Node) (only parsing).

(** [pathExists]: [stat] succeeds. *)
Definition pathExists (fs : FS) (filePath : string) : bool :=
  bool_decide (is_Some (fs !! filePath)).

(** [fsPromises.rm(path, { force: true })] *)
Definition rmForce (fs : FS) (filePath : string) : FS := delete filePath fs.

(** utils.ts [sha256File] *)
Definition sha256File `{Sha256} (content : list byte) : string :=
  sha256Hex content.

(** utils.ts [updateHashFromFilePrefix] *)
Definition updateHashFromFilePrefix (hasher : Hasher) (content : list byte)
    (byteLength : Z) : Hasher :=
  if byteLength <=? 0 then hasher
  else hasherUpdate hasher (take (Z.to_nat byteLength) content).

(** [decideResumeOffset]: the offset and the hasher it leaves. *)
Definition decideResumeOffset `{Sha256} (fs : FS) (targetPath : string)
    (expectedSize : Z) (expectedSha256 : string) (hasher : Hasher)
    : Res (Z * Hasher) :=
  match fs !! targetPath with
  | None => Ok (0, hasher)
  | Some Directory => Throw "target path is not a regular file"
  | Some (File content) =>
      let size := bufferLength content in
      if size <=? 0 then Ok (0, hasher)
      else if expectedSize <? size then Ok (0, hasher)
      else if size =? expectedSize then
        let existingDigest := sha256File content in
        if negb (bool_decide (existingDigest = expectedSha256)) then Ok (0, hasher)
        else Ok (size, updateHashFromFilePrefix hasher content size)
      else Ok (size, updateHashFromFilePrefix hasher content size)
  end.

(** ** Choosing and promoting the target *)

Definition TEMP_SUFFIX : string := ".local-sent.part".
Definition MAX_DUPLICATE_SUFFIX_ATTEMPTS : nat := Z.to_nat 10000.

(** [s.slice(0, -n)] for [n] > 0 *)
Definition dropEnd (n : nat) (s : string) : string :=
  String.substring 0 (String.length s - n) s.

Definition duplicatePathWithIndex `{PathOps} (basePath : string) (index : nat)
    : string :=
  match index with
  | O => basePath
  | _ =>
      let dir := pathDirname basePath in
      let fileName := pathBasename basePath in
      let extension := pathExtname fileName in
      let stem :=
        if Str.falsy extension then fileName
        else dropEnd (String.length extension) fileName in
      pathResolve2 dir (stem +:+ "(" +:+ pretty index +:+ ")" +:+ extension)
  end.

Definition buildReceiveTempPath (finalPath expectedSha256 : string) : string :=
  let tag := Str.toLowerCase (String.substring 0 16 expectedSha256) in
  finalPath +:+ "." +:+ tag +:+ TEMP_SUFFIX.

(** utils.ts [resolveOutputPath] *)
Definition resolveOutputPath `{PathOps} (outputDir relativePath : string)
    : Res string :=
  normalized ← normalizeTransferPath relativePath;
  let localRelative := String.concat sep (Str.split normalized) in
  let absoluteRoot := pathResolve outputDir in
  let absoluteTarget := pathResolve2 absoluteRoot localRelative in
  let rel := pathRelative absoluteRoot absoluteTarget in
  if bool_decide (rel = "") || bool_decide (rel = ".")
     || (negb (Str.startsWith ".." rel)
         && negb (Str.startsWith (".." +:+ sep) (pathNormalize rel)))
  then Ok absoluteTarget
  else Throw "path escapes output directory".

Record ReceivePathSelection := {
  sel_finalPath : string;
  sel_tempPath : string;
}.

(** The loop of [selectReceivePaths] from [index] on, [attempts] indices left. *)
Fixpoint selectFrom `{PathOps} (fs : FS) (basePath expectedSha256 : string)
    (attempts index : nat) : Res ReceivePathSelection :=
  match attempts with
  | O => Throw "failed to allocate receive target path"
  | S attempts' =>
      let candidateFinalPath := duplicatePathWithIndex basePath index in
      let candidateTempPath := buildReceiveTempPath candidateFinalPath expectedSha256 in
      if pathExists fs candidateTempPath
      then Ok {| sel_finalPath := candidateFinalPath; sel_tempPath := candidateTempPath |}
      else if negb (pathExists fs candidateFinalPath)
      then Ok {| sel_finalPath := candidateFinalPath; sel_tempPath := candidateTempPath |}
      else selectFrom fs basePath expectedSha256 attempts' (S index)
  end.

Definition selectReceivePaths `{PathOps} (fs : FS)
    (outputDir relativePath expectedSha256 : string) : Res ReceivePathSelection :=
  basePath ← resolveOutputPath outputDir relativePath;
  selectFrom fs basePath expectedSha256 MAX_DUPLICATE_SUFFIX_ATTEMPTS O.

(** [fsPromises.rename(from, to)]: [ENOENT] when [from] is missing; otherwise
    the platform may refuse the move with the code [fault to] names. *)
Definition rename (fault : string → option string) (fs : FS) (from to : string)
    : FS + string :=
  match fs !! from with
  | None => inr "ENOENT"
  | Some node =>
      match fault to with
      | Some code => inr code
      | None => inl (<[to := node]> (delete from fs))
      end
  end.

(** [copyFile(from, to)] followed by [rm(from, { force: true })] *)
Definition copyThenRemove (fs : FS) (from to : string) : FS :=
  match fs !! from with
  | Some node => delete from (<[to := node]> fs)
  | None => fs
  end.

(** The loop of [promoteReceivedFile] from [index] on. *)
Fixpoint promoteFrom `{PathOps} (fault : string → option string) (fs : FS)
    (tempPath preferredFinalPath : string) (attempts index : nat)
    : Res (string * FS) :=
  match attempts with
  | O => Throw "failed to choose final receive file path"
  | S attempts' =>
      let candidateFinalPath := duplicatePathWithIndex preferredFinalPath index in
      match rename fault fs tempPath candidateFinalPath with
      | inl fs' => Ok (candidateFinalPath, fs')
      | inr code =>
          if bool_decide (code = "ENOENT")
          then Throw "temporary receive file is missing"
          else if bool_decide (code = "EXDEV")
          then Ok (candidateFinalPath, copyThenRemove fs tempPath candidateFinalPath)
          else if bool_decide (code = "EEXIST") || bool_decide (code = "ENOTEMPTY")
          then promoteFrom fault fs tempPath preferredFinalPath attempts' (S index)
          else Throw code
      end
  end.

Definition promoteReceivedFile `{PathOps} (fault : string → option string)
    (fs : FS) (tempPath preferredFinalPath : string) : Res (string * FS) :=
  promoteFrom fault fs tempPath preferredFinalPath MAX_DUPLICATE_SUFFIX_ATTEMPTS O.

(** ** transfer.ts: one receive session *)

Inductive ReceiverPhase := PhaseBeforeReady | PhaseReceiving | PhaseDone.

(** A [WriteStream] on [ws_path] whose next write lands at [ws_pos]. *)
Record WriteStream := {
  ws_path : string;
  ws_pos : Z;
  ws_destroyed : bool;
}.

(** What the session meets from outside while it runs. [socketWritable] is
    [socket.writable] at the moment [fail] reads it: it is false once the
    peer has reset or closed the connection, which can happen at any [await]
    of the handler, also one on the file system. *)
Record SessionEnv := {
  now : Z;                              (* [Date.now()] at admission *)
  socketWritable : bool;
  remoteAddress : option string;        (* [socket.remoteAddress] *)
  renameFault : string → option string; (* the code [rename] fails with, by target *)
}.

Record Session := {
  (** shared with the other sessions and the timer *)
  pairing : Pairing;
  files : FS;
  (** the socket *)
  reader : SocketReader;
  inbox : list SocketEvent;
  outbox : list Message;
  socketEnded : bool;
  socketDestroyed : bool;
  (** the variables of [handleIncomingSocket] *)
  header : option TransferHeader;
  targetPath : string;
  tempPath : string;
  fileStream : option WriteStream;
  phase : ReceiverPhase;
  failed : bool;
  resumedFrom : Z;
  received : Z;
  requiredPairCodeForThisTransfer : option string;
  hasher : Hasher;
  (** the value of [hasher.digest], once it has been taken *)
  digest : option string;
}.

(** Assignment to one variable of the session. *)
Definition set_pairing (v : Pairing) (s : Session) : Session :=
  {| pairing := v; files := files s; reader := reader s; inbox := inbox s;
     outbox := outbox s; socketEnded := socketEnded s;
     socketDestroyed := socketDestroyed s; header := header s;
     targetPath := targetPath s; tempPath := tempPath s;
     fileStream := fileStream s; phase := phase s; failed := failed s;
     resumedFrom := resumedFrom s; received := received s;
     requiredPairCodeForThisTransfer := requiredPairCodeForThisTransfer s;
     hasher := hasher s; digest := digest s |}.
Definition set_files (v : FS) (s : Session) : Session :=
  {| pairing := pairing s; files := v; reader := reader s; inbox := inbox s;
     outbox := outbox s; socketEnded := socketEnded s;
     socketDestroyed := socketDestroyed s; header := header s;
     targetPath := targetPath s; tempPath := tempPath s;
     fileStream := fileStream s; phase := phase s; failed := failed s;
     resumedFrom := resumedFrom s; received := received s;
     requiredPairCodeForThisTransfer := requiredPairCodeForThisTransfer s;
     hasher := hasher s; digest := digest s |}.
Definition set_reader (v : SocketReader) (s : Session) : Session :=
  {| pairing := pairing s; files := files s; reader := v; inbox := inbox s;
     outbox := outbox s; socketEnded := socketEnded s;
     socketDestroyed := socketDestroyed s; header := header s;
     targetPath := targetPath s; tempPath := tempPath s;
     fileStream := fileStream s; phase := phase s; failed := failed s;
     resumedFrom := resumedFrom s; received := received s;
     requiredPairCodeForThisTransfer := requiredPairCodeForThisTransfer s;
     hasher := hasher s; digest := digest s |}.
Definition set_inbox (v : list SocketEvent) (s : Session) : Session :=
  {| pairing := pairing s; files := files s; reader := reader s; inbox := v;
     outbox := outbox s; socketEnded := socketEnded s;
     socketDestroyed := socketDestroyed s; header := header s;
     targetPath := targetPath s; tempPath := tempPath s;
     fileStream := fileStream s; phase := phase s; failed := failed s;
     resumedFrom := resumedFrom s; received := received s;
     requiredPairCodeForThisTransfer := requiredPairCodeForThisTransfer s;
     hasher := hasher s; digest := digest s |}.
Definition set_outbox (v : list Message) (s : Session) : Session :=
  {| pairing := pairing s; files := files s; reader := reader s;
     inbox := inbox s; outbox := v; socketEnded := socketEnded s;
     socketDestroyed := socketDestroyed s; header := header s;
     targetPath := targetPath s; tempPath := tempPath s;
     fileStream := fileStream s; phase := phase s; failed := failed s;
     resumedFrom := resumedFrom s; received := received s;
     requiredPairCodeForThisTransfer := requiredPairCodeForThisTransfer s;
     hasher := hasher s; digest := digest s |}.
Definition set_socketEnded (v : bool) (s : Session) : Session :=
  {| pairing := pairing s; files := files s; reader := reader s;
     inbox := inbox s; outbox := outbox s; socketEnded := v;
     socketDestroyed := socketDestroyed s; header := header s;
     targetPath := targetPath s; tempPath := tempPath s;
     fileStream := fileStream s; phase := phase s; failed := failed s;
     resumedFrom := resumedFrom s; received := received s;
     requiredPairCodeForThisTransfer := requiredPairCodeForThisTransfer s;
     hasher := hasher s; digest := digest s |}.
Definition set_socketDestroyed (v : bool) (s : Session) : Session :=
  {| pairing := pairing s; files := files s; reader := reader s;
     inbox := inbox s; outbox := outbox s; socketEnded := socketEnded s;
     socketDestroyed := v; header := header s; targetPath := targetPath s;
     tempPath := tempPath s; fileStream := fileStream s; phase := phase s;
     failed := failed s; resumedFrom := resumedFrom s;
     received := received s;
     requiredPairCodeForThisTransfer := requiredPairCodeForThisTransfer s;
     hasher := hasher s; digest := digest s |}.
Definition set_header (v : option TransferHeader) (s : Session) : Session :=
  {| pairing := pairing s; files := files s; reader := reader s;
     inbox := inbox s; outbox := outbox s; socketEnded := socketEnded s;
     socketDestroyed := socketDestroyed s; header := v;
     targetPath := targetPath s; tempPath := tempPath s;
     fileStream := fileStream s; phase := phase s; failed := failed s;
     resumedFrom := resumedFrom s; received := received s;
     requiredPairCodeForThisTransfer := requiredPairCodeForThisTransfer s;
     hasher := hasher s; digest := digest s |}.
Definition set_targetPath (v : string) (s : Session) : Session :=
  {| pairing := pairing s; files := files s; reader := reader s;
     inbox := inbox s; outbox := outbox s; socketEnded := socketEnded s;
     socketDestroyed := socketDestroyed s; header := header s;
     targetPath := v; tempPath := tempPath s; fileStream := fileStream s;
     phase := phase s; failed := failed s; resumedFrom := resumedFrom s;
     received := received s;
     requiredPairCodeForThisTransfer := requiredPairCodeForThisTransfer s;
     hasher := hasher s; digest := digest s |}.
Definition set_tempPath (v : string) (s : Session) : Session :=
  {| pairing := pairing s; files := files s; reader := reader s;
     inbox := inbox s; outbox := outbox s; socketEnded := socketEnded s;
     socketDestroyed := socketDestroyed s; header := header s;
     targetPath := targetPath s; tempPath := v; fileStream := fileStream s;
     phase := phase s; failed := failed s; resumedFrom := resumedFrom s;
     received := received s;
     requiredPairCodeForThisTransfer := requiredPairCodeForThisTransfer s;
     hasher := hasher s; digest := digest s |}.
Definition set_fileStream (v : option WriteStream) (s : Session) : Session :=
  {| pairing := pairing s; files := files s; reader := reader s;
     inbox := inbox s; outbox := outbox s; socketEnded := socketEnded s;
     socketDestroyed := socketDestroyed s; header := header s;
     targetPath := targetPath s; tempPath := tempPath s; fileStream := v;
     phase := phase s; failed := failed s; resumedFrom := resumedFrom s;
     received := received s;
     requiredPairCodeForThisTransfer := requiredPairCodeForThisTransfer s;
     hasher := hasher s; digest := digest s |}.
Definition set_phase (v : ReceiverPhase) (s : Session) : Session :=
  {| pairing := pairing s; files := files s; reader := reader s;
     inbox := inbox s; outbox := outbox s; socketEnded := socketEnded s;
     socketDestroyed := socketDestroyed s; header := header s;
     targetPath := targetPath s; tempPath := tempPath s;
     fileStream := fileStream s; phase := v; failed := failed s;
     resumedFrom := resumedFrom s; received := received s;
     requiredPairCodeForThisTransfer := requiredPairCodeForThisTransfer s;
     hasher := hasher s; digest := digest s |}.
Definition set_failed (v : bool) (s : Session) : Session :=
  {| pairing := pairing s; files := files s; reader := reader s;
     inbox := inbox s; outbox := outbox s; socketEnded := socketEnded s;
     socketDestroyed := socketDestroyed s; header := header s;
     targetPath := targetPath s; tempPath := tempPath s;
     fileStream := fileStream s; phase := phase s; failed := v;
     resumedFrom := resumedFrom s; received := received s;
     requiredPairCodeForThisTransfer := requiredPairCodeForThisTransfer s;
     hasher := hasher s; digest := digest s |}.
Definition set_resumedFrom (v : Z) (s : Session) : Session :=
  {| pairing := pairing s; files := files s; reader := reader s;
     inbox := inbox s; outbox := outbox s; socketEnded := socketEnded s;
     socketDestroyed := socketDestroyed s; header := header s;
     targetPath := targetPath s; tempPath := tempPath s;
     fileStream := fileStream s; phase := phase s; failed := failed s;
     resumedFrom := v; received := received s;
     requiredPairCodeForThisTransfer := requiredPairCodeForThisTransfer s;
     hasher := hasher s; digest := digest s |}.
Definition set_received (v : Z) (s : Session) : Session :=
  {| pairing := pairing s; files := files s; reader := reader s;
     inbox := inbox s; outbox := outbox s; socketEnded := socketEnded s;
     socketDestroyed := socketDestroyed s; header := header s;
     targetPath := targetPath s; tempPath := tempPath s;
     fileStream := fileStream s; phase := phase s; failed := failed s;
     resumedFrom := resumedFrom s; received := v;
     requiredPairCodeForThisTransfer := requiredPairCodeForThisTransfer s;
     hasher := hasher s; digest := digest s |}.
Definition set_requiredPairCodeForThisTransfer (v : option string) (s : Session) : Session :=
  {| pairing := pairing s; files := files s; reader := reader s;
     inbox := inbox s; outbox := outbox s; socketEnded := socketEnded s;
     socketDestroyed := socketDestroyed s; header := header s;
     targetPath := targetPath s; tempPath := tempPath s;
     fileStream := fileStream s; phase := phase s; failed := failed s;
     resumedFrom := resumedFrom s; received := received s;
     requiredPairCodeForThisTransfer := v; hasher := hasher s;
     digest := digest s |}.
Definition set_hasher (v : Hasher) (s : Session) : Session :=
  {| pairing := pairing s; files := files s; reader := reader s;
     inbox := inbox s; outbox := outbox s; socketEnded := socketEnded s;
     socketDestroyed := socketDestroyed s; header := header s;
     targetPath := targetPath s; tempPath := tempPath s;
     fileStream := fileStream s; phase := phase s; failed := failed s;
     resumedFrom := resumedFrom s; received := received s;
     requiredPairCodeForThisTransfer := requiredPairCodeForThisTransfer s;
     hasher := v; digest := digest s |}.
Definition set_digest (v : option string) (s : Session) : Session :=
  {| pairing := pairing s; files := files s; reader := reader s;
     inbox := inbox s; outbox := outbox s; socketEnded := socketEnded s;
     socketDestroyed := socketDestroyed s; header := header s;
     targetPath := targetPath s; tempPath := tempPath s;
     fileStream := fileStream s; phase := phase s; failed := failed s;
     resumedFrom := resumedFrom s; received := received s;
     requiredPairCodeForThisTransfer := requiredPairCodeForThisTransfer s;
     hasher := hasher s; digest := v |}.

(** The code of a session runs in a small monad over [Session]: a step falls
    through with a value, leaves the handler ([return;]), throws, or stops at
    an [await] on the socket that is never woken. [OutOfFuel] marks a payload
    loop cut off by its bound; [receiveLoop_fuel] shows the bound is never
    met. *)
Inductive Outcome (A : Type) : Type :=
  | Next (a : A)
  | Return
  | Raise (message : string)
  | Suspended
  | OutOfFuel.
Arguments Next {A} a.
Arguments Return {A}.
Arguments Raise {A} message.
Arguments Suspended {A}.
Arguments OutOfFuel {A}.

Definition Step (A : Type) : Type := Session → Outcome A * Session.

Global Instance Step_ret : MRet Step := λ A a s, (Next a, s).
Global Instance Step_bind : MBind Step := λ A B k m s,
  match m s with
  | (Next a, s') => k a s'
  | (Return, s') => (Return, s')
  | (Raise msg, s') => (Raise msg, s')
  | (Suspended, s') => (Suspended, s')
  | (OutOfFuel, s') => (OutOfFuel, s')
  end.

Definition gets {A} (f : Session → A) : Step A := λ s, (Next (f s), s).
Definition modify (f : Session → Session) : Step unit := λ s, (Next tt, f s).
Definition raise {A} (message : string) : Step A := λ s, (Raise message, s).
Definition returnNow {A} : Step A := λ s, (Return, s).
Definition outOfFuel {A} : Step A := λ s, (OutOfFuel, s).

Definition liftRes {A} (r : Res A) : Step A := λ s,
  match r with
  | Ok a => (Next a, s)
  | Throw m => (Raise m, s)
  end.

(** An [await] on one of the reader's methods. *)
Definition awaitSocket {A}
    (method : list SocketEvent → SocketReader
              → Await A * SocketReader * list SocketEvent) : Step A := λ s,
  match method (inbox s) (reader s) with
  | (Got a, r, rest) => (Next a, set_inbox rest (set_reader r s))
  | (Failed m, r, rest) => (Raise m, set_inbox rest (set_reader r s))
  | (Waiting, r, rest) => (Suspended, set_inbox rest (set_reader r s))
  end.

Definition normalizeRemoteAddress (raw : option string) : string :=
  let value := Str.trim (default "" raw) in
  if Str.falsy value then "unknown"
  else if Str.startsWith "::ffff:" value
  then String.substring 7 (String.length value - 7) value
  else value.

(** The closure [fail] of [handleIncomingSocket]. *)
Definition fail (env : SessionEnv) (message : string) (cleanup : bool)
    (s : Session) : Session :=
  if failed s then s
  else
    let s := set_failed true s in
    let s :=
      match fileStream s with
      | Some ws =>
          set_fileStream
            (Some {| ws_path := ws_path ws; ws_pos := ws_pos ws;
                     ws_destroyed := true |}) s
      | None => s
      end in
    let s :=
      if cleanup && negb (Str.falsy (tempPath s))
      then set_files (rmForce (files s) (tempPath s)) s
      else s in
    let messageBody :=
      match phase s with
      | PhaseBeforeReady => readyFailure message
      | _ => ackFailure message
      end in
    if socketWritable env
    then set_socketDestroyed true
           (set_socketEnded true (set_outbox (outbox s ++ [messageBody]) s))
    else set_socketDestroyed true s.

(** [fsPromises.mkdir(dir, { recursive: true })] *)
Definition mkdirRecursive (fs : FS) (dir : string) : Res FS :=
  match fs !! dir with
  | None => Ok (<[dir := Directory]> fs)
  | Some Directory => Ok fs
  | Some (File _) => Throw "EEXIST"
  end.

(** [createWriteStream(path, { flags: "w" })] creates or empties the file;
    [{ flags: "r+", start }] opens it as it is. *)
Definition createWriteStream (fs : FS) (path : string) (start : Z)
    : FS * WriteStream :=
  (if 0 <? start then fs else <[path := File []]> fs,
   {| ws_path := path; ws_pos := start; ws_destroyed := false |}).

(** [stream.write(payload)]: the bytes land at the stream's position. *)
Definition streamWrite (fs : FS) (ws : WriteStream) (payload : list byte)
    : FS * WriteStream :=
  match fs !! ws_path ws with
  | Some (File content) =>
      let pos := Z.to_nat (ws_pos ws) in
      (<[ws_path ws :=
           File (take pos content ++ payload
                 ++ drop (pos + length payload) content)]> fs,
       {| ws_path := ws_path ws; ws_pos := ws_pos ws + bufferLength payload;
          ws_destroyed := ws_destroyed ws |})
  | _ => (fs, ws)
  end.

(** [pairingState.activeTransfers += 1] *)
Definition countTransfer (p : Pairing) : Pairing :=
  {| state :=
       {| currentCode := currentCode (state p);
          previousCode := previousCode (state p);
          previousCodeValidUntilMs := previousCodeValidUntilMs (state p);
          activeTransfers := activeTransfers (state p) + 1 |};
     genCalls := genCalls p; notifications := notifications p |}.

(** [pairingState.activeTransfers = Math.max(0, pairingState.activeTransfers - 1)] *)
Definition uncountTransfer (p : Pairing) : Pairing :=
  {| state :=
       {| currentCode := currentCode (state p);
          previousCode := previousCode (state p);
          previousCodeValidUntilMs := previousCodeValidUntilMs (state p);
          activeTransfers := Z.max 0 (activeTransfers (state p) - 1) |};
     genCalls := genCalls p; notifications := notifications p |}.

(** The variables of [handleIncomingSocket] as it declares them. *)
Definition newSession (p : Pairing) (fs : FS) (events : list SocketEvent)
    : Session :=
  {| pairing := p; files := fs;
     reader := newSocketReader; inbox := events; outbox := [];
     socketEnded := false; socketDestroyed := false;
     header := None; targetPath := ""; tempPath := ""; fileStream := None;
     phase := PhaseBeforeReady; failed := false; resumedFrom := 0;
     received := 0; requiredPairCodeForThisTransfer := None;
     hasher := []; digest := None |}.

Section Receiver.
Context `{Sha256, PathOps, JsonCodec TransferHeader}.
Variable listenOptions : ListenOptions.
Variable env : SessionEnv.

(** Lines 529-544: the header is read, checked and admitted. *)
Definition admitHeader : Step TransferHeader :=
  h ← awaitSocket (readLineMessage "header");
  modify (set_header (Some h));;
  if negb (bool_decide (h_type h = "header")) then
    modify (fail env "protocol error: expected header" false);; returnNow
  else if negb (h_version h =? 1) || (h_fileSize h <? 0) || Str.falsy (h_sha256 h)
  then modify (fail env "invalid header fields" false);; returnNow
  else
    p ← gets pairing;
    modify (set_requiredPairCodeForThisTransfer (currentCode (state p)));;
    if negb (isPairCodeAccepted (state p) (h_pairCode h) (now env)) then
      modify (fail env "pair code mismatch" false);; returnNow
    else mret h.

(** Lines 555-570: the optional confirmation hook. *)
Definition confirm (h : TransferHeader) : Step unit :=
  match confirmTransfer listenOptions with
  | None => mret tt
  | Some hook =>
      let decision :=
        hook {| from := normalizeRemoteAddress (remoteAddress env);
                req_relativePath := h_relativePath h;
                req_fileSize := h_fileSize h |} in
      match decision with
      | AnswerBool true | AnswerDecision true _ => mret tt
      | AnswerBool false =>
          modify (fail env "receiver rejected transfer" false);; returnNow
      | AnswerDecision false message =>
          let trimmed := Str.trim (default "" message) in
          modify (fail env (if Str.falsy trimmed
                            then "receiver rejected transfer" else trimmed)
                    false);;
          returnNow
      end
  end.

(** Lines 546-596: the target is chosen, the offset decided, the temp file
    opened and [ready] sent. *)
Definition prepare (h : TransferHeader) : Step unit :=
  fs ← gets files;
  sel ← liftRes (selectReceivePaths fs (outputDir listenOptions)
                   (h_relativePath h) (h_sha256 h));
  modify (set_targetPath (sel_finalPath sel));;
  modify (set_tempPath (sel_tempPath sel));;
  fs' ← liftRes (mkdirRecursive fs (pathDirname (sel_finalPath sel)));
  modify (set_files fs');;
  confirm h;;
  fs ← gets files;
  hs ← gets hasher;
  decided ← liftRes (decideResumeOffset fs (sel_tempPath sel) (h_fileSize h)
                       (h_sha256 h) hs);
  modify (set_hasher decided.2);;
  modify (set_resumedFrom decided.1);;
  modify (set_received decided.1);;
  (if decided.1 <? h_fileSize h then
     let opened := createWriteStream fs (sel_tempPath sel) decided.1 in
     modify (set_files opened.1);;
     modify (set_fileStream (Some opened.2))
   else mret tt);;
  modify (λ s, set_outbox
    (outbox s ++ [MReady {| ready_ok := true; ready_offset := decided.1;
                            ready_message := None;
                            ready_savedPath := Some (sel_finalPath sel) |}]) s);;
  modify (set_phase PhaseReceiving).

(** [writePayload] *)
Definition writePayload (h : TransferHeader) (payload : list byte) : Step unit :=
  if bufferLength payload =? 0 then mret tt
  else
    got ← gets received;
    let nextReceived := got + bufferLength payload in
    if h_fileSize h <? nextReceived
    then raise "payload exceeds declared file size"
    else
      stream ← gets fileStream;
      match stream with
      | None => raise "unexpected payload for already complete file"
      | Some ws =>
          modify (λ s, set_hasher (hasherUpdate (hasher s) payload) s);;
          modify (set_received nextReceived);;
          fs ← gets files;
          let written := streamWrite fs ws payload in
          modify (set_files written.1);;
          modify (set_fileStream (Some written.2))
      end.

(** Lines 598-617: [while (received < header.fileSize)]. *)
Fixpoint receiveLoop (fuel : nat) (h : TransferHeader) : Step unit :=
  got ← gets received;
  if got <? h_fileSize h then
    match fuel with
    | O => outOfFuel
    | S fuel' =>
        chunk ← awaitSocket readChunk;
        match chunk with
        | None => mret tt
        | Some payload => writePayload h payload;; receiveLoop fuel' h
        end
    end
  else mret tt.

(** Every pass but the first starts on an empty buffer and so takes an
    event from the socket. *)
Definition loopBound (s : Session) : nat := S (S (length (inbox s))).

(** Lines 636-645: the pair code the ack carries, and the pairing state
    the rotation leaves. *)
Definition ackPairCode (required : option string) (p : Pairing)
    : option string * Pairing :=
  match truthy required, rotatePairCodePerTransfer listenOptions,
        generatePairCode listenOptions with
  | true, true, Some gen =>
      let '(nextPairCode, st, calls) :=
        rotatePairCodeOnce (state p) gen (genCalls p) in
      (Some nextPairCode,
       {| state := st; genCalls := calls;
          notifications :=
            if Str.falsy nextPairCode then notifications p
            else notifications p ++ [(nextPairCode, ReasonOnce)] |})
  | true, _, _ => (currentCode (state p), p)
  | false, _, _ => (None, p)
  end.

Definition nextPairCodeForAck : Step (option string) :=
  required ← gets requiredPairCodeForThisTransfer;
  p ← gets pairing;
  let rotated := ackPairCode required p in
  modify (set_pairing rotated.2);;
  mret rotated.1.

(** Lines 619-660: size and digest are checked, the file promoted, the
    pair code rotated and [ack] sent. *)
Definition complete (h : TransferHeader) : Step unit :=
  got ← gets received;
  if negb (got =? h_fileSize h) then
    modify (fail env ("size mismatch: expected " +:+ pretty (h_fileSize h)
                      +:+ ", got " +:+ pretty got) false);;
    returnNow
  else
    hs ← gets hasher;
    let computed := hasherDigest hs in
    modify (set_digest (Some computed));;
    if negb (bool_decide (computed = h_sha256 h)) then
      modify (fail env "sha256 mismatch" true);; returnNow
    else
      fs ← gets files;
      temp ← gets tempPath;
      target ← gets targetPath;
      promoted ← liftRes (promoteReceivedFile (renameFault env) fs temp target);
      modify (set_files promoted.2);;
      modify (set_phase PhaseDone);;
      nextPairCode ← nextPairCodeForAck;
      resumed ← gets resumedFrom;
      modify (λ s, set_socketEnded true (set_outbox
        (outbox s ++ [MAck {| ack_ok := true; ack_message := None;
                              ack_sha256 := Some computed;
                              ack_receivedBytes := Some got;
                              ack_savedPath := Some promoted.1;
                              ack_resumedFrom := Some resumed;
                              ack_nextPairCode := nextPairCode |}]) s)).

(** The [try] block. *)
Definition sessionBody : Step unit :=
  h ← admitHeader;
  prepare h;;
  fuel ← gets loopBound;
  receiveLoop fuel h;;
  complete h.

(** Lines 461-477: what runs when the connection is accepted, before the
    first [await]. *)
Definition acceptSession (p : Pairing) (fs : FS) (events : list SocketEvent)
    : Session :=
  newSession (countTransfer p) fs events.

(** The [finally] block. *)
Definition releaseSession (s : Session) : Session :=
  set_pairing (uncountTransfer (pairing s)) s.

(** How a session ends: the handler settles, or it stays at an [await]. *)
Inductive Exit := Settled | Hanging | Cut.

(** [try { ... } catch (err) { await fail(err.message) } finally { ... }] *)
Definition runSession (s : Session) : Exit * Session :=
  match sessionBody s with
  | (Next _, s') | (Return, s') => (Settled, releaseSession s')
  | (Raise m, s') => (Settled, releaseSession (fail env m false s'))
  | (Suspended, s') => (Hanging, s')
  | (OutOfFuel, s') => (Cut, s')
  end.

Definition handleIncomingSocket (p : Pairing) (fs : FS)
    (events : list SocketEvent) : Exit * Session :=
  runSession (acceptSession p fs events).

End Receiver.

(** ** tlsTrust.ts *)

Module Tls.

(** The sender's text files, by path. *)
Abbreviation Files := (gmap string string) (only parsing).

(** [KnownHostsMap]: an object used as a map from endpoint to fingerprint. *)
Abbreviation KnownHostsMap := (gmap string string) (only parsing).

(** What [JSON.parse] returned, as far as [loadKnownHosts] looks at it: an
    object that is not an array, with its entries ([Some] for a value whose
    [typeof] is ["string"]), or something else. *)
Inductive JsonDoc :=
  | JsonObject (entries : list (string * option string))
  | JsonOther.

Definition isLowerHex (a : ascii) : bool :=
  let n := N_of_ascii a in
  ((48 <=? n) && (n <=? 57) || (97 <=? n) && (n <=? 102))%N.

Fixpoint allLowerHex (s : string) : bool :=
  match s with
  | "" => true
  | String a s' => isLowerHex a && allLowerHex s'
  end.

(** [/^[0-9a-f]{64}$/.test(s)] *)
Definition isFingerprint (s : string) : bool :=
  (String.length s =? 64)%nat && allLowerHex s.

Definition normalizeFingerprint (input : string) : Res string :=
  let normalized := Str.toLowerCase (Str.trim (Str.removeColons input)) in
  if isFingerprint normalized then Ok normalized
  else Throw "TLS fingerprint must be SHA-256 hex (64 chars, colon optional)".

Definition buildEndpointKey (host : string) (port : Z) : string :=
  Str.toLowerCase host +:+ ":" +:+ pretty port.

(** The loop of [loadKnownHosts] over [Object.entries(parsed)]. *)
Fixpoint collectKnownHosts (entries : list (string * option string))
    (result : KnownHostsMap) : Res KnownHostsMap :=
  match entries with
  | [] => Ok result
  | (key, Some value) :: rest =>
      fingerprint ← normalizeFingerprint value;
      collectKnownHosts rest (<[key := fingerprint]> result)
  | (_, None) :: rest => collectKnownHosts rest result
  end.

Definition loadKnownHosts `{JsonCodec JsonDoc} (files : Files)
    (filePath : string) : Res KnownHostsMap :=
  match files !! filePath with
  | None => Ok ∅
  | Some raw =>
      let attempt :=
        parsed ← decodeJsonLine raw;
        match parsed with
        | JsonOther => Throw "known hosts file must be a JSON object"
        | JsonObject entries => collectKnownHosts entries ∅
        end in
      match attempt with
      | Ok result => Ok result
      | Throw m => Throw ("failed to read known hosts: " +:+ m)
      end
  end.

(** [entries.sort(([a], [b]) => a.localeCompare(b))]: a stable sort on the
    keys. *)
Fixpoint insertEntry `{Collation} (e : string * string)
    (l : list (string * string)) : list (string * string) :=
  match l with
  | [] => [e]
  | x :: rest =>
      match localeCompare e.1 x.1 with
      | Gt => x :: insertEntry e rest
      | _ => e :: l
      end
  end.

Definition sortEntries `{Collation} (l : list (string * string))
    : list (string * string) :=
  foldr insertEntry [] l.

(** A key that is an array index ([0] to [2^32 - 2] in canonical decimal):
    an object lists such keys first, in ascending numeric order, whatever
    the order they were added in. *)
Fixpoint parseDecimal (acc : N) (s : string) : option N :=
  match s with
  | "" => Some acc
  | String a s' =>
      match Ascii.is_nat a with
      | Some d => parseDecimal (acc * 10 + N.of_nat d)%N s'
      | None => None
      end
  end.

Definition arrayIndex (key : string) : option N :=
  match key with
  | "" => None
  | _ =>
      match parseDecimal 0 key with
      | Some n =>
          if bool_decide (pretty n = key) && (n <? 4294967295)%N
          then Some n else None
      | None => None
      end
  end.

Fixpoint insertIndexed (e : N * (string * string))
    (l : list (N * (string * string))) : list (N * (string * string)) :=
  match l with
  | [] => [e]
  | x :: rest =>
      if (x.1 <? e.1)%N then x :: insertIndexed e rest else e :: l
  end.

Definition indexedEntries (l : list (string * string))
    : list (N * (string * string)) :=
  omap (λ e, n ← arrayIndex e.1; Some (n, e)) l.

Definition namedEntries (l : list (string * string))
    : list (string * string) :=
  filter (λ e, arrayIndex e.1 = None) l.

(** [Object.entries(Object.fromEntries(l))] for entries with distinct keys. *)
Definition objectFromEntries (l : list (string * string))
    : list (string * string) :=
  (snd <$> foldr insertIndexed [] (indexedEntries l)) ++ namedEntries l.

(** [JSON.stringify] of a string. *)
Definition dquote : ascii := "034"%char.
Definition backslash : ascii := "\"%char.

Definition hexDigit (n : N) : ascii :=
  if (n <? 10)%N then ascii_of_N (48 + n) else ascii_of_N (87 + n).

Definition escapeChar (a : ascii) : string :=
  let n := N_of_ascii a in
  if Ascii.eqb a dquote then String backslash (String dquote "")
  else if Ascii.eqb a backslash then String backslash (String backslash "")
  else if (n =? 8)%N then String backslash "b"
  else if (n =? 9)%N then String backslash "t"
  else if (n =? 10)%N then String backslash "n"
  else if (n =? 12)%N then String backslash "f"
  else if (n =? 13)%N then String backslash "r"
  else if (n <? 32)%N then
    String backslash ("u00" +:+ String (hexDigit (n / 16)) (String (hexDigit (n mod 16)) ""))
  else String a "".

Fixpoint escapeString (s : string) : string :=
  match s with
  | "" => ""
  | String a s' => escapeChar a +:+ escapeString s'
  end.

Definition jsonQuote (s : string) : string :=
  String dquote (escapeString s +:+ String dquote "").

Definition lineFeed : string := String "010"%char "".

Definition prettyMember (e : string * string) : string :=
  "  " +:+ jsonQuote e.1 +:+ ": " +:+ jsonQuote e.2.

(** [JSON.stringify(object, null, 2)] of an object whose values are
    strings, from its entries in the order the object lists them. *)
Definition stringifyPretty (entries : list (string * string)) : string :=
  match entries with
  | [] => "{}"
  | _ =>
      "{" +:+ lineFeed
      +:+ String.concat ("," +:+ lineFeed) (prettyMember <$> entries)
      +:+ lineFeed +:+ "}"
  end.

(** The entries of the object [saveKnownHosts] serialises. *)
Definition savedEntries `{Collation} (data : KnownHostsMap)
    : list (string * string) :=
  objectFromEntries (sortEntries (map_to_list data)).

Definition saveKnownHosts `{Collation} (files : Files) (filePath : string)
    (data : KnownHostsMap) : Files :=
  <[filePath := stringifyPretty (savedEntries data) +:+ lineFeed]> files.

Record VerifyTlsPeerOptions := {
  peerCertificateRaw : option (list byte);
  host : string;
  port : Z;
  expectedFingerprint : option string;
  trustOnFirstUse : bool;
  knownHostsPath : option string;
}.

Definition getPeerFingerprint `{Sha256} (raw : option (list byte)) : Res string :=
  match raw with
  | None => Throw "cannot read server TLS certificate"
  | Some der => Ok (sha256Hex der)
  end.

(** [verifyTlsPeer]: the files it leaves and the lines it prints.
    [defaultKnownHostsPath] is [getDefaultKnownHostsPath()]. *)
Definition verifyTlsPeer `{Sha256, JsonCodec JsonDoc, Collation}
    (defaultKnownHostsPath : string) (options : VerifyTlsPeerOptions)
    (files : Files) : Res (Files * list string) :=
  peerFingerprint ← getPeerFingerprint (peerCertificateRaw options);
  if truthy (expectedFingerprint options) then
    expected ← normalizeFingerprint (default "" (expectedFingerprint options));
    if negb (bool_decide (peerFingerprint = expected)) then
      Throw ("TLS fingerprint mismatch: expected=" +:+ expected
             +:+ " actual=" +:+ peerFingerprint)
    else Ok (files, [])
  else if negb (trustOnFirstUse options) then Ok (files, [])
  else
    let endpoint := buildEndpointKey (host options) (port options) in
    let path := default defaultKnownHostsPath (knownHostsPath options) in
    knownHosts ← loadKnownHosts files path;
    let knownFingerprint := knownHosts !! endpoint in
    if truthy knownFingerprint then
      if negb (bool_decide (knownFingerprint = Some peerFingerprint)) then
        Throw ("TLS fingerprint changed for " +:+ endpoint
               +:+ ": expected=" +:+ default "" knownFingerprint
               +:+ " actual=" +:+ peerFingerprint)
      else Ok (files, [])
    else
      Ok (saveKnownHosts files path (<[endpoint := peerFingerprint]> knownHosts),
          ["[tls] trust-on-first-use: " +:+ endpoint +:+ " => "
           +:+ peerFingerprint +:+ lineFeed]).

(** The collation, as far as sorting relies on it: a total order on
    strings. *)
Class CollationOrder `{Collation} : Prop := {
  collation_eq a b : localeCompare a b = Eq ↔ a = b;
  collation_flip a b : localeCompare b a = CompOpp (localeCompare a b);
  collation_trans a b c :
    localeCompare a b = Lt → localeCompare b c = Lt → localeCompare a c = Lt;
}.


(** Every fingerprint of a map has the 64-hex form. *)
Definition WellFormed (known : gmap string string) : Prop :=
  ∀ key fp, known !! key = Some fp → isFingerprint fp = true.

End Tls.

(** ** The receiver as a whole

    Connections are accepted, sessions settle and the TTL timer fires in any
    order. A session counts itself when it is accepted; the rest of its
    handler is taken in one step, when it settles. [rc_open] counts the
    sessions accepted and not yet settled. *)

Record Receiver := {
  rc_pairing : Pairing;
  rc_files : FS;
  rc_open : nat;
}.

Section System.
Context `{Sha256, PathOps, JsonCodec TransferHeader}.
Variable listenOptions : ListenOptions.
(** whether [startReceiver] created the timer *)
Variable timer : bool.

Inductive receiverStep : Receiver → Receiver → Prop :=
  | step_accept r :
      receiverStep r
        {| rc_pairing := countTransfer (rc_pairing r);
           rc_files := rc_files r; rc_open := S (rc_open r) |}
  | step_settle r env events s' :
      (0 < rc_open r)%nat →
      runSession listenOptions env
        (newSession (rc_pairing r) (rc_files r) events) = (Settled, s') →
      receiverStep r
        {| rc_pairing := pairing s'; rc_files := files s';
           rc_open := pred (rc_open r) |}
  | step_tick r now :
      timer = true →
      receiverStep r
        {| rc_pairing := ttlTick listenOptions now (rc_pairing r);
           rc_files := rc_files r; rc_open := rc_open r |}.

Inductive reachable (start : Receiver) : Receiver → Prop :=
  | reach_start : reachable start start
  | reach_step r r' :
      reachable start r → receiverStep r r' → reachable start r'.

End System.

(** [startReceiver], as far as pairing goes. *)
Definition startReceiver (options : ListenOptions) (fs : FS)
    : Res (Receiver * bool) :=
  started ← startPairing options;
  Ok ({| rc_pairing := started.1; rc_files := fs; rc_open := O |}, started.2).

(** ** Instances for the examples

    Stand-ins for Node's modules, used where a statement is run on concrete
    data: a checksum in place of SHA-256, a POSIX flavour of the path module,
    the order of code units as collation, and decoders given by a table of
    lines. *)

Module Examples.

Definition checksum (content : list byte) : string :=
  pretty (fold_left (λ acc b, (acc * 31 + Byte.to_N b + 1) mod 1000003)%N content 7%N).

Fixpoint lastSlashSplit (s : string) : option (string * string) :=
  match s with
  | "" => None
  | String a s' =>
      match lastSlashSplit s' with
      | Some (d, b) => Some (String a d, b)
      | None => if Ascii.eqb a "/" then Some ("", s') else None
      end
  end.

Fixpoint lastDotSplit (s : string) : option (string * string) :=
  match s with
  | "" => None
  | String a s' =>
      match lastDotSplit s' with
      | Some (d, b) => Some (String a d, b)
      | None => if Ascii.eqb a "." then Some ("", s') else None
      end
  end.

Fixpoint stripPrefix (p s : string) : option string :=
  match p, s with
  | "", _ => Some s
  | String a p', String b s' => if Ascii.eqb a b then stripPrefix p' s' else None
  | _, "" => None
  end.

Definition posixPaths : PathOps :=
  {| sep := "/";
     pathResolve := λ p, p;
     pathResolve2 := λ a b, a +:+ "/" +:+ b;
     pathRelative := λ root target,
       match stripPrefix (root +:+ "/") target with
       | Some rest => rest
       | None => "../" +:+ target
       end;
     pathNormalize := Posix.normalize;
     pathDirname := λ p, match lastSlashSplit p with Some (d, _) => d | None => "." end;
     pathBasename := λ p, match lastSlashSplit p with Some (_, b) => b | None => p end;
     pathExtname := λ p,
       match lastDotSplit p with
       | Some ("", _) | None => ""
       | Some (_, e) => "." +:+ e
       end |}.

Definition codeUnitOrder : Collation := String.compare.

(** A decoder that knows the lines of [table] and rejects the rest. *)
Definition tableCodec {T} (table : list (string * T)) : JsonCodec T :=
  λ line,
    match list_find (λ e, e.1 = line) table with
    | Some (_, (_, v)) => Ok v
    | None => Throw "Unexpected token"
    end.

Definition bytes (s : string) : list byte := list_byte_of_string s.

Definition options (code : option string) (rotate : bool)
    (ttlSeconds : option Z) : ListenOptions :=
  {| outputDir := "/out"; pairCode := code;
     rotatePairCodePerTransfer := rotate;
     pairCodeTtlSeconds := ttlSeconds;
     generatePairCode := Some (λ n, nth n ["654321"; "111222"; "333444"] "999999");
     confirmTransfer := None |}.

Definition environment (writable : bool) : SessionEnv :=
  {| now := 1000; socketWritable := writable; remoteAddress := Some "::ffff:192.168.1.7";
     renameFault := λ _, None |}.

Definition idle (code : option string) : Pairing :=
  {| state := {| currentCode := code; previousCode := None;
                 previousCodeValidUntilMs := 0; activeTransfers := 0 |};
     genCalls := O; notifications := [] |}.

(** The header of a five-byte file [hello], and its line on the wire. *)
Definition helloHeader (path : string) (code : option string) : TransferHeader :=
  {| h_type := "header"; h_version := 1; h_relativePath := path;
     h_fileSize := 5; h_sha256 := checksum (bytes "hello"); h_pairCode := code |}.

Definition wire (line : string) : list byte := bytes line ++ [newline].

Definition codec : JsonCodec TransferHeader :=
  tableCodec [("H", helloHeader "a.txt" (Some "123456"));
              ("A", helloHeader "/a.txt" None);
              ("D", helloHeader "x/../a.txt" None);
              ("E", helloHeader "../e.txt" None);
              ("Z", {| h_type := "header"; h_version := 1;
                       h_relativePath := "z.txt"; h_fileSize := 0;
                       h_sha256 := checksum []; h_pairCode := None |})].

Definition receive (options : ListenOptions) (env : SessionEnv) (p : Pairing)
    (fs : gmap string Node) (events : list SocketEvent) : Exit * Session :=
  @handleIncomingSocket checksum posixPaths codec options env p fs events.

(** [hello] sent whole, and sent with its last byte changed. *)
Definition good (line : string) : list SocketEvent :=
  [Data (wire line ++ bytes "he"); Data (bytes "llo"); End].
Definition corrupt (line : string) : list SocketEvent :=
  [Data (wire line ++ bytes "he"); Data (bytes "llx"); End].

Definition fixedCode := options (Some "123456") false None.
Definition rotating := options (Some "123456") true None.
Definition noCode := options None false None.

End Examples.

(** Known hosts and certificates for the examples. *)
Module TlsExamples.
Import Tls.

Definition fingerprintA : string :=
  "aaaaaaaaaaaaaaaaaaaaaaaaaaaaaaaaaaaaaaaaaaaaaaaaaaaaaaaaaaaaaaaa".
Definition fingerprintB : string :=
  "bbbbbbbbbbbbbbbbbbbbbbbbbbbbbbbbbbbbbbbbbbbbbbbbbbbbbbbbbbbbbbbb".

(** Every certificate has the fingerprint [fingerprintA]. *)
Definition digestA : Sha256 := λ _, fingerprintA.

(** A known-hosts file with one entry, for [b.local]. *)
Definition hostsCodec : JsonCodec JsonDoc :=
  Examples.tableCodec
    [("K", JsonObject [("b.local:37373", Some fingerprintB)])].

Definition firstUse (hostName : string) : VerifyTlsPeerOptions :=
  {| peerCertificateRaw := Some []; host := hostName; port := 37373;
     expectedFingerprint := None; trustOnFirstUse := true;
     knownHostsPath := None |}.

Definition verify (options : VerifyTlsPeerOptions) (files : gmap string string)
    : Res (gmap string string * list string) :=
  @verifyTlsPeer digestA hostsCodec Examples.codeUnitOrder "/kh" options files.
End TlsExamples.

(** ** Vocabulary of the statements about a session *)

(** The frame [fail] sends, when the socket lets it. *)
Definition optFrame (writable : bool) (m : Message) : list Message :=
  if writable then [m] else [].

Definition failureFrame (ph : ReceiverPhase) (message : string) : Message :=
  match ph with
  | PhaseBeforeReady => readyFailure message
  | _ => ackFailure message
  end.

Definition Stored (h : TransferHeader) (s : Session) : Prop :=
  0 < h_fileSize h →
  files s !! tempPath s = Some (File (hasher s))
  ∧ received s = bufferLength (hasher s)
  ∧ match fileStream s with
    | Some ws => ws_path ws = tempPath s ∧ ws_pos ws = received s
    | None => True
    end.

Definition ackSuccess (h : TransferHeader) (saved : string) (resumed : Z)
    (next : option string) : Message :=
  MAck {| ack_ok := true; ack_message := None; ack_sha256 := Some (h_sha256 h);
          ack_receivedBytes := Some (h_fileSize h);
          ack_savedPath := Some saved; ack_resumedFrom := Some resumed;
          ack_nextPairCode := next |}.

(** How a session that started on pairing state [p] and files [fs] can
    stand when its handler has settled or stopped at an [await]. *)
Section Endings.
Context `{Sha256, PathOps}.
Variable listenOptions : ListenOptions.
Variable env : SessionEnv.
Variable p : Pairing.
Variable fs : FS.

Definition pathAccepted (h : TransferHeader) : Prop :=
  ∃ normalized, normalizeTransferPath (h_relativePath h) = Ok normalized.

Inductive SessionEnds : Exit → Session → Prop :=
  | ends_waiting_for_header s' :
      pairing s' = p → files s' = fs → outbox s' = [] →
      header s' = None → digest s' = None →
      SessionEnds Hanging s'
  | ends_rejected s' m :
      pairing s' = uncountTransfer p →
      outbox s' = optFrame (socketWritable env) (readyFailure m) →
      digest s' = None →
      (files s' = fs ∨ ∃ h, header s' = Some h ∧ pathAccepted h) →
      SessionEnds Settled s'
  | ends_waiting_for_payload s' h rdy :
      pairing s' = p → header s' = Some h → pathAccepted h →
      outbox s' = [MReady rdy] → ready_ok rdy = true → digest s' = None →
      SessionEnds Hanging s'
  | ends_aborted s' h rdy m :
      pairing s' = uncountTransfer p →
      header s' = Some h → pathAccepted h →
      outbox s' = MReady rdy :: optFrame (socketWritable env) (ackFailure m) →
      ready_ok rdy = true →
      digest s' = None ∨ digest s' = Some (h_sha256 h) →
      SessionEnds Settled s'
  | ends_mismatch s' h rdy d :
      pairing s' = uncountTransfer p →
      header s' = Some h → pathAccepted h →
      digest s' = Some d → d = sha256Hex (hasher s') → d ≠ h_sha256 h →
      tempPath s' ≠ "" → files s' !! tempPath s' = None →
      outbox s' = MReady rdy
                  :: optFrame (socketWritable env) (ackFailure "sha256 mismatch") →
      ready_ok rdy = true →
      SessionEnds Settled s'
  | ends_saved s' h rdy saved :
      header s' = Some h → pathAccepted h →
      isPairCodeAccepted (state p) (h_pairCode h) (now env) = true →
      digest s' = Some (h_sha256 h) →
      sha256Hex (hasher s') = h_sha256 h →
      pairing s'
      = uncountTransfer (ackPairCode listenOptions (currentCode (state p)) p).2 →
      outbox s'
      = [MReady rdy;
         ackSuccess h saved (resumedFrom s')
           (ackPairCode listenOptions (currentCode (state p)) p).1] →
      ready_ok rdy = true →
      (0 < h_fileSize h → saved ≠ tempPath s' →
       files s' !! saved = Some (File (hasher s'))
       ∧ bufferLength (hasher s') = h_fileSize h) →
      SessionEnds Settled s'.
End Endings.

(** The variables the payload loop leaves alone. *)
Definition Undisturbed (s s' : Session) : Prop :=
  pairing s' = pairing s ∧ header s' = header s
  ∧ requiredPairCodeForThisTransfer s' = requiredPairCodeForThisTransfer s
  ∧ digest s' = digest s ∧ outbox s' = outbox s ∧ phase s' = phase s
  ∧ tempPath s' = tempPath s ∧ targetPath s' = targetPath s
  ∧ failed s' = failed s ∧ resumedFrom s' = resumedFrom s.

(** The events still to come, counting a buffer that is not empty as one. *)
Definition pendingInput (s : Session) : nat :=
  (length (inbox s)
   + (if (0 <? bufferLength (buffer (reader s)))%Z then 1 else 0))%nat.


(** A one-letter line padded with [n] spaces. *)
Definition paddedLine (n : nat) : list byte :=
  Examples.bytes "H" ++ repeat x20 n.

(** ** Vocabulary of the statements about strings and known hosts *)

(** No character of [s] is a colon. *)
Fixpoint colonFree (s : string) : bool :=
  match s with
  | "" => true
  | String a s' => negb (Ascii.eqb a ":") && colonFree s'
  end.

(** The entries of a parsed known-hosts object whose values are all
    strings. *)
Definition stringEntries (l : list (string * string))
    : list (string * option string) :=
  (λ e, (e.1, Some e.2)) <$> l.

(** Instances for the examples on known hosts: a digest that tells an
    empty certificate from the others, and a decoder that knows the text
    [saveKnownHosts] writes for one map. *)
Module KnownHostsExamples.
Import Tls.

Definition digestAB : Sha256 := λ der,
  match der with
  | [] => TlsExamples.fingerprintA
  | _ => TlsExamples.fingerprintB
  end.

Definition savedCodec (data : gmap string string) : JsonCodec JsonDoc :=
  let entries := @savedEntries Examples.codeUnitOrder data in
  Examples.tableCodec
    [(stringifyPretty entries +:+ lineFeed, JsonObject (stringEntries entries))].

Definition hostA : gmap string string :=
  {["a.local:37373" := TlsExamples.fingerprintA]}.

Definition certificate (der : list byte) : VerifyTlsPeerOptions :=
  {| peerCertificateRaw := Some der; host := "A.local"; port := 37373;
     expectedFingerprint := None; trustOnFirstUse := true;
     knownHostsPath := None |}.

Definition verify (options : VerifyTlsPeerOptions) (files : gmap string string)
    : Res (gmap string string * list string) :=
  @verifyTlsPeer digestAB (savedCodec hostA) Examples.codeUnitOrder
    "/kh" options files.

End KnownHostsExamples.

(** ** Vocabulary of the statements about paths *)

Fixpoint slashFree (s : string) : bool :=
  match s with
  | "" => true
  | String a s' => negb (Ascii.eqb a "/") && slashFree s'
  end.

(** A segment that names a file or directory below the one before it: not
    empty, not [.], not [..], and without a slash. *)
Definition plainSegment (seg : string) : bool :=
  negb (bool_decide (seg = "")) && negb (bool_decide (seg = "."))
  && negb (bool_decide (seg = "..")) && slashFree seg.

(** What [normalizeString] has built so far, last segment first: plain
    segments, below them the [..] that lead above the start, of which an
    absolute path keeps none. *)
Definition Built (allowAboveRoot : bool) (res : list string) : Prop :=
  ∃ k others,
    res = others ++ repeat ".." k
    ∧ Forall (λ seg, plainSegment seg = true) others
    ∧ (allowAboveRoot = false → k = O).

(** ** Vocabulary of the statements about whole transfers *)

(** Whether the confirmation hook, if there is one, lets the transfer
    through. *)
Definition confirmAccepts (listenOptions : ListenOptions) (env : SessionEnv)
    (h : TransferHeader) : bool :=
  match confirmTransfer listenOptions with
  | None => true
  | Some hook =>
      match hook {| from := normalizeRemoteAddress (remoteAddress env);
                    req_relativePath := h_relativePath h;
                    req_fileSize := h_fileSize h |} with
      | AnswerBool accept | AnswerDecision accept _ => accept
      end
  end.

(** The [ready] frame that opens the payload phase. *)
Definition readyAt (offset : Z) (savedPath : string) : Message :=
  MReady {| ready_ok := true; ready_offset := offset; ready_message := None;
            ready_savedPath := Some savedPath |}.

(** A header the admission checks of lines 530-538 let through. *)
Definition wellFormedHeader (h : TransferHeader) : Prop :=
  h_type h = "header" ∧ h_version h = 1 ∧ 0 ≤ h_fileSize h ∧ h_sha256 h ≠ "".

(** What the payload loop relies on, with [pending] the bytes still to be
    read: the temp file holds what was hashed, and the write stream, needed
    once there is something to write, stands at the end of it. *)
Definition Receiving (s : Session) (pending : list byte) : Prop :=
  files s !! tempPath s = Some (File (hasher s))
  ∧ received s = bufferLength (hasher s)
  ∧ (pending ≠ [] →
     ∃ ws, fileStream s = Some ws ∧ ws_path ws = tempPath s
           ∧ ws_pos ws = received s).

(** The socket has closed its sending side. *)
Definition closing (rest : list SocketEvent) : Prop :=
  ∃ ev rest', rest = ev :: rest' ∧ (ev = End ∨ ev = Close).


(** ** transfer.ts: the sender

    [sendFile] talks to a peer through a socket of its own: what it writes
    is kept in [snd_written], one entry for each [socket.write], and what
    the socket emits is taken from [snd_inbox] at each [await] on the
    reader, as on the receiver's side. What the network, the peer's
    certificate and the file stream do is given by [SenderEnv]; an error
    of the file stream or of the socket while the file is streamed is
    [streamFault]. *)

(** [JSON.stringify] of a value of type [T]. *)
Class JsonText (T : Type) := jsonStringify : T → string.

(** protocol.ts [encodeJsonLine] *)
Definition encodeJsonLine {T} `{JsonText T} (value : T) : list byte :=
  list_byte_of_string (jsonStringify value +:+ Tls.lineFeed).

(** What [decodeJsonLine<T>] returns to the sender: the [type] of the
    record and the fields of [T]. *)
Record Reply (B : Type) := {
  reply_type : string;
  reply_body : B;
}.
Arguments reply_type {B} _.
Arguments reply_body {B} _.

(** The [tls] member of [SendFileOptions]. *)
Record TlsOptions := {
  tls_enabled : bool;
  tls_caPath : option string;
  tls_insecure : bool;
  tls_fingerprint : option string;
  tls_trustOnFirstUse : bool;
  tls_knownHostsPath : option string;
}.

Record SendFileOptions := {
  sf_filePath : string;
  sf_relativePath : string;
  sf_host : string;
  sf_port : Z;
  sf_pairCode : option string;
  sf_tls : option TlsOptions;
}.

Record SenderEnv := {
  connectError : option string;      (* what [error] the connection ends with *)
  peerCertificate : option (list byte); (* [getPeerCertificate(true).raw] *)
  defaultKnownHosts : string;        (* [getDefaultKnownHostsPath()] *)
  streamChunks : list byte → list (list byte); (* how [createReadStream] cuts *)
  (** an [error] event while streaming: after how many chunks, and its
      message *)
  streamFault : option (nat * string);
}.

Record Sender := {
  snd_files : gmap string Node;      (* the files to send *)
  snd_texts : gmap string string;    (* known hosts and CA files *)
  (** what the sockets still to be created will emit, one entry for each *)
  snd_connections : list (list SocketEvent);
  (** the socket in use: its reader, what it still emits, what has been
      written to it and to the ones before it, and whether it is ended or
      destroyed *)
  snd_reader : SocketReader;
  snd_inbox : list SocketEvent;
  snd_written : list (list byte);
  snd_ended : bool;
  snd_destroyed : bool;
  (** [rejectUnauthorized] of the TLS connection, if there is one *)
  snd_rejectUnauthorized : option bool;
}.

Definition snd_set_texts (v : gmap string string) (s : Sender) : Sender :=
  {| snd_files := snd_files s; snd_texts := v;
     snd_connections := snd_connections s; snd_reader := snd_reader s;
     snd_inbox := snd_inbox s; snd_written := snd_written s;
     snd_ended := snd_ended s; snd_destroyed := snd_destroyed s;
     snd_rejectUnauthorized := snd_rejectUnauthorized s |}.
Definition snd_set_socket (r : SocketReader) (inbox : list SocketEvent)
    (s : Sender) : Sender :=
  {| snd_files := snd_files s; snd_texts := snd_texts s;
     snd_connections := snd_connections s; snd_reader := r;
     snd_inbox := inbox; snd_written := snd_written s;
     snd_ended := snd_ended s; snd_destroyed := snd_destroyed s;
     snd_rejectUnauthorized := snd_rejectUnauthorized s |}.
(** A new socket: it emits the next entry of [snd_connections]. *)
Definition snd_open (s : Sender) : Sender :=
  {| snd_files := snd_files s; snd_texts := snd_texts s;
     snd_connections := tail (snd_connections s);
     snd_reader := newSocketReader;
     snd_inbox := default [] (head (snd_connections s));
     snd_written := snd_written s; snd_ended := false;
     snd_destroyed := false;
     snd_rejectUnauthorized := snd_rejectUnauthorized s |}.
Definition snd_set_written (v : list (list byte)) (s : Sender) : Sender :=
  {| snd_files := snd_files s; snd_texts := snd_texts s;
     snd_connections := snd_connections s;
     snd_reader := snd_reader s; snd_inbox := snd_inbox s; snd_written := v;
     snd_ended := snd_ended s; snd_destroyed := snd_destroyed s;
     snd_rejectUnauthorized := snd_rejectUnauthorized s |}.
Definition snd_set_ended (v : bool) (s : Sender) : Sender :=
  {| snd_files := snd_files s; snd_texts := snd_texts s;
     snd_connections := snd_connections s;
     snd_reader := snd_reader s; snd_inbox := snd_inbox s;
     snd_written := snd_written s; snd_ended := v;
     snd_destroyed := snd_destroyed s;
     snd_rejectUnauthorized := snd_rejectUnauthorized s |}.
Definition snd_set_destroyed (v : bool) (s : Sender) : Sender :=
  {| snd_files := snd_files s; snd_texts := snd_texts s;
     snd_connections := snd_connections s;
     snd_reader := snd_reader s; snd_inbox := snd_inbox s;
     snd_written := snd_written s; snd_ended := snd_ended s;
     snd_destroyed := v;
     snd_rejectUnauthorized := snd_rejectUnauthorized s |}.
Definition snd_set_rejectUnauthorized (v : option bool) (s : Sender) : Sender :=
  {| snd_files := snd_files s; snd_texts := snd_texts s;
     snd_connections := snd_connections s;
     snd_reader := snd_reader s; snd_inbox := snd_inbox s;
     snd_written := snd_written s; snd_ended := snd_ended s;
     snd_destroyed := snd_destroyed s; snd_rejectUnauthorized := v |}.

(** The sender's code runs in a monad over [Sender]: a step returns a
    value, throws, or stays at an [await] that is never woken. *)
Inductive Sends (A : Type) : Type :=
  | Done (a : A)
  | Thrown (message : string)
  | Stalled.
Arguments Done {A} a.
Arguments Thrown {A} message.
Arguments Stalled {A}.

Definition Sending (A : Type) : Type := Sender → Sends A * Sender.

Global Instance Sending_ret : MRet Sending := λ A a s, (Done a, s).
Global Instance Sending_bind : MBind Sending := λ A B k m s,
  match m s with
  | (Done a, s') => k a s'
  | (Thrown msg, s') => (Thrown msg, s')
  | (Stalled, s') => (Stalled, s')
  end.

Definition throw {A} (message : string) : Sending A := λ s, (Thrown message, s).
Definition update (f : Sender → Sender) : Sending unit := λ s, (Done tt, f s).

(** An [await] on [reader.readLineMessage]. *)
Definition awaitLine {T} `{JsonCodec T} (label : string) : Sending T := λ s,
  match readLineMessage label (snd_inbox s) (snd_reader s) with
  | (Got a, r, rest) => (Done a, snd_set_socket r rest s)
  | (Failed m, r, rest) => (Thrown m, snd_set_socket r rest s)
  | (Waiting, r, rest) => (Stalled, snd_set_socket r rest s)
  end.

(** [fsPromises.stat] *)
Definition statFile (fs : gmap string Node) (path : string) : Res Node :=
  match fs !! path with
  | Some node => Ok node
  | None => Throw "ENOENT"
  end.

(** [createClientSocket]: a plain connection, or a TLS connection whose
    certificate chain is checked unless [insecure], a fingerprint or trust on
    first use is set; the CA file, if one is named, is read first. *)
Definition createClientSocket (options : SendFileOptions) (s : Sender)
    : Res Sender :=
  let fresh := snd_open s in
  match sf_tls options with
  | Some tls =>
      if tls_enabled tls then
        let pinningEnabled :=
          truthy (tls_fingerprint tls) || tls_trustOnFirstUse tls in
        let rejectUnauthorized :=
          if tls_insecure tls then false else negb pinningEnabled in
        (if truthy (tls_caPath tls)
         then match snd_texts s !! default "" (tls_caPath tls) with
              | Some _ => Ok tt
              | None => Throw "ENOENT"
              end
         else Ok tt)
        ≫= λ _, Ok (snd_set_rejectUnauthorized (Some rejectUnauthorized) fresh)
      else Ok (snd_set_rejectUnauthorized None fresh)
  | None => Ok (snd_set_rejectUnauthorized None fresh)
  end.

(** [waitConnected]: the connection is established, or fails. *)
Definition waitConnected (env : SenderEnv) : Sending unit :=
  match connectError env with
  | Some m => throw m
  | None => mret tt
  end.

Definition verifyTlsPeerIfNeeded
    `{Sha256, JsonCodec Tls.JsonDoc, Collation}
    (env : SenderEnv) (options : SendFileOptions) : Sending unit := λ s,
  match sf_tls options with
  | Some tls =>
      if tls_enabled tls then
        match Tls.verifyTlsPeer (defaultKnownHosts env)
                {| Tls.peerCertificateRaw := peerCertificate env;
                   Tls.host := sf_host options; Tls.port := sf_port options;
                   Tls.expectedFingerprint := tls_fingerprint tls;
                   Tls.trustOnFirstUse := tls_trustOnFirstUse tls;
                   Tls.knownHostsPath := tls_knownHostsPath tls |}
                (snd_texts s) with
        | Ok (texts, _) => (Done tt, snd_set_texts texts s)
        | Throw m => (Thrown m, s)
        end
      else (Done tt, s)
  | None => (Done tt, s)
  end.

(** [streamFileRange]: the file from [startOffset] on, chunk by chunk; on
    an error the socket is destroyed and the error thrown. *)
Definition streamFileRange (env : SenderEnv) (content : list byte)
    (startOffset : Z) : Sending unit :=
  let chunks := streamChunks env (drop (Z.to_nat startOffset) content) in
  match streamFault env with
  | None => update (λ s, snd_set_written (snd_written s ++ chunks) s)
  | Some (count, message) =>
      update (λ s, snd_set_destroyed true
                     (snd_set_written (snd_written s ++ take count chunks) s));;
      throw message
  end.

Section Sender.
Context `{Sha256, PathOps, JsonText TransferHeader,
          JsonCodec (Reply ReadyMessage), JsonCodec (Reply AckMessage),
          JsonCodec Tls.JsonDoc, Collation}.
Variable env : SenderEnv.
Variable options : SendFileOptions.

(** The [try] block of [sendFile]. *)
Definition sendBody (header : TransferHeader) (content : list byte)
    : Sending AckMessage :=
  waitConnected env;;
  verifyTlsPeerIfNeeded env options;;
  update (λ s, snd_set_written (snd_written s ++ [encodeJsonLine header]) s);;
  ready ← awaitLine "ready";
  if negb (bool_decide (reply_type ready = "ready"))
  then throw "protocol error: expected ready message"
  else if negb (ready_ok (reply_body ready))
  then throw (default "receiver rejected transfer"
                (ready_message (reply_body ready)))
  else
    let offset := ready_offset (reply_body ready) in
    let size := bufferLength content in
    if (offset <? 0) || (size <? offset)
    then throw ("invalid resume offset: " +:+ pretty offset)
    else
      (if offset <? size then streamFileRange env content offset
       else mret tt);;
      update (snd_set_ended true);;
      ack ← awaitLine "ack";
      if negb (bool_decide (reply_type ack = "ack"))
      then throw "protocol error: expected ack message"
      else if negb (ack_ok (reply_body ack))
      then throw (default "receiver rejected transfer"
                    (ack_message (reply_body ack)))
      else mret (reply_body ack).

Definition sendFile : Sending AckMessage := λ s,
  match statFile (snd_files s) (pathResolve (sf_filePath options)) with
  | Throw m => (Thrown m, s)
  | Ok Directory => (Thrown "only regular file is supported", s)
  | Ok (File content) =>
      let digest := sha256File content in
      match normalizeTransferPath (sf_relativePath options) with
      | Throw m => (Thrown m, s)
      | Ok relativePath =>
          let header :=
            {| h_type := "header"; h_version := 1;
               h_relativePath := relativePath;
               h_fileSize := bufferLength content; h_sha256 := digest;
               h_pairCode := sf_pairCode options |} in
          match createClientSocket options s with
          | Throw m => (Thrown m, s)
          | Ok connecting =>
              match sendBody header content connecting with
              | (Done ack, s') => (Done ack, s')
              | (Thrown m, s') =>
                  (* [finally]: not completed *)
                  (Thrown m, if snd_destroyed s' then s'
                             else snd_set_destroyed true s')
              | (Stalled, s') => (Stalled, s')
              end
          end
      end
  end.

End Sender.

(** [encodeJsonLine] of the record the receiver hands to [socket.write]. *)
Definition encodeMessage
    `{JsonText (Reply ReadyMessage), JsonText (Reply AckMessage)}
    (m : Message) : list byte :=
  match m with
  | MReady r => encodeJsonLine {| reply_type := "ready"; reply_body := r |}
  | MAck a => encodeJsonLine {| reply_type := "ack"; reply_body := a |}
  end.

(** The record a peer reads when the receiver has written [m]. *)
Definition readyReply (m : ReadyMessage) : Reply ReadyMessage :=
  {| reply_type := "ready"; reply_body := m |}.
Definition ackReply (m : AckMessage) : Reply AckMessage :=
  {| reply_type := "ack"; reply_body := m |}.

(** A value that crosses the wire unchanged: its JSON text has no line
    feed, fits the bound on a line, and is parsed back to the value. *)
Definition carried {T} `{JsonText T, JsonCodec T} (v : T) : Prop :=
  splitAtNewline (list_byte_of_string (jsonStringify v)) = None
  ∧ bufferLength (list_byte_of_string (jsonStringify v)) ≤ HEADER_MAX_BYTES
  ∧ decodeJsonLine (Str.trim (jsonStringify v)) = Ok v.

(** Instances for the examples on the sender: a printer for the records on
    the wire, decoders that know the lines of given records, and a file
    stream that cuts after two bytes. *)
Module SenderExamples.

Definition optional (o : option string) : string := default "~" o.
Definition number (o : option Z) : string :=
  match o with Some n => pretty n | None => "~" end.
Definition flag (b : bool) : string := if b then "true" else "false".

Definition headerText : JsonText TransferHeader := λ h,
  "{" +:+ h_type h +:+ " " +:+ pretty (h_version h) +:+ " "
  +:+ h_relativePath h +:+ " " +:+ pretty (h_fileSize h) +:+ " "
  +:+ h_sha256 h +:+ " " +:+ optional (h_pairCode h) +:+ "}".

Definition readyText : JsonText (Reply ReadyMessage) := λ m,
  "{" +:+ reply_type m +:+ " " +:+ flag (ready_ok (reply_body m)) +:+ " "
  +:+ pretty (ready_offset (reply_body m)) +:+ " "
  +:+ optional (ready_message (reply_body m)) +:+ " "
  +:+ optional (ready_savedPath (reply_body m)) +:+ "}".

Definition ackText : JsonText (Reply AckMessage) := λ m,
  "{" +:+ reply_type m +:+ " " +:+ flag (ack_ok (reply_body m)) +:+ " "
  +:+ optional (ack_message (reply_body m)) +:+ " "
  +:+ optional (ack_sha256 (reply_body m)) +:+ " "
  +:+ number (ack_receivedBytes (reply_body m)) +:+ " "
  +:+ optional (ack_savedPath (reply_body m)) +:+ " "
  +:+ number (ack_resumedFrom (reply_body m)) +:+ " "
  +:+ optional (ack_nextPairCode (reply_body m)) +:+ "}".

(** A decoder that knows the texts of [values]. *)
Definition knows {T} `{JsonText T} (values : list T) : JsonCodec T :=
  Examples.tableCodec ((λ v, (jsonStringify v, v)) <$> values).

Definition network : SenderEnv :=
  {| connectError := None; peerCertificate := Some [];
     defaultKnownHosts := "/kh";
     streamChunks := λ b, [take 2 b; drop 2 b];
     streamFault := None |}.

Definition plainFor (name : string) (code : option string)
    : SendFileOptions :=
  {| sf_filePath := "/home/" +:+ name; sf_relativePath := name;
     sf_host := "b.local"; sf_port := 37373; sf_pairCode := code;
     sf_tls := None |}.
Definition plain : option string → SendFileOptions := plainFor "a.txt".

Definition header : TransferHeader :=
  Examples.helloHeader "a.txt" (Some "123456").
Definition emptyHeader : TransferHeader :=
  {| h_type := "header"; h_version := 1; h_relativePath := "z.txt";
     h_fileSize := 0; h_sha256 := Examples.checksum [];
     h_pairCode := Some "123456" |}.

Definition ready : ReadyMessage :=
  {| ready_ok := true; ready_offset := 0; ready_message := None;
     ready_savedPath := Some "/out/a.txt" |}.
Definition ack : AckMessage :=
  {| ack_ok := true; ack_message := None;
     ack_sha256 := Some (Examples.checksum (Examples.bytes "hello"));
     ack_receivedBytes := Some 5; ack_savedPath := Some "/out/a.txt";
     ack_resumedFrom := Some 0; ack_nextPairCode := Some "123456" |}.
Definition emptyReady : ReadyMessage :=
  {| ready_ok := true; ready_offset := 0; ready_message := None;
     ready_savedPath := Some "/out/z.txt" |}.
Definition missing : AckMessage :=
  {| ack_ok := false;
     ack_message := Some "temporary receive file is missing";
     ack_sha256 := None; ack_receivedBytes := None; ack_savedPath := None;
     ack_resumedFrom := None; ack_nextPairCode := None |}.

(** A sender that holds the file [hello] and an empty file, and will hear
    [inbox] on its first connection. *)
Definition holding (inbox : list SocketEvent) : Sender :=
  {| snd_files := {["/home/a.txt" := File (Examples.bytes "hello");
                    "/home/z.txt" := File []]};
     snd_texts := ∅; snd_connections := [inbox];
     snd_reader := newSocketReader; snd_inbox := [];
     snd_written := []; snd_ended := false; snd_destroyed := false;
     snd_rejectUnauthorized := None |}.

Definition headerCodec : JsonCodec TransferHeader :=
  @knows _ headerText [header; emptyHeader].
Definition readyCodec : JsonCodec (Reply ReadyMessage) :=
  @knows _ readyText [readyReply ready; readyReply emptyReady].
Definition ackCodec : JsonCodec (Reply AckMessage) :=
  @knows _ ackText [ackReply ack; ackReply missing].

Definition send (options : SendFileOptions) (s : Sender)
    : Sends AckMessage * Sender :=
  @sendFile Examples.checksum Examples.posixPaths headerText readyCodec
    ackCodec TlsExamples.hostsCodec Examples.codeUnitOrder network options s.

(** The receiver of the examples, reading the sender's header. *)
Definition receive (events : list SocketEvent) : Exit * Session :=
  @handleIncomingSocket Examples.checksum Examples.posixPaths headerCodec
    Examples.fixedCode (Examples.environment true)
    (Examples.idle (Some "123456")) ∅ events.

(** The receiver's two lines, cut after ten bytes. *)
Definition cut (m1 m2 : Message) : list (list byte) :=
  let lines := @encodeMessage readyText ackText m1
               ++ @encodeMessage readyText ackText m2 in
  [take 10 lines; drop 10 lines].
Definition answer : list (list byte) := cut (MReady ready) (MAck ack).
Definition refusal : list (list byte) :=
  cut (MReady emptyReady) (MAck missing).

End SenderExamples.

(** * Properties *)

(** ** Pairing *)

Lemma falsy_truthy (x : option string) : truthy x = negb (falsy x).
Proof. reflexivity. Qed.

Lemma truthy_Some (x : option string) :
  truthy x = true ↔ ∃ code, x = Some code ∧ code ≠ "".
Proof.
  unfold truthy, falsy, Str.falsy. destruct x as [code|]; simpl.
  - case_bool_decide as Hcode; simpl.
    + split; [done|]. intros (? & [= <-] & ?). done.
    + split; [eauto | done].
  - split; [done | intros (? & ? & _); done].
Qed.

(** C4, as amended: admission accepts a header exactly when the current code
    is falsy (null or the empty string), or the header's code is the current
    code, or it is a truthy previous code and the time is at most
    [previousCodeValidUntilMs]. *)
Theorem isPairCodeAccepted_iff (pairingState : PairingState)
    (incomingCode : option string) (now : Z) :
  isPairCodeAccepted pairingState incomingCode now = true ↔
    falsy (currentCode pairingState) = true
    ∨ incomingCode = currentCode pairingState
    ∨ (truthy (previousCode pairingState) = true
       ∧ incomingCode = previousCode pairingState
       ∧ now ≤ previousCodeValidUntilMs pairingState).
Proof.
  unfold isPairCodeAccepted.
  destruct (falsy (currentCode pairingState)) eqn:Hcur; [by split; auto|].
  case_bool_decide as Hin; [by split; auto|].
  destruct (truthy (previousCode pairingState)) eqn:Hprev; simpl.
  - case_bool_decide as Hold; simpl.
    + destruct (Z.leb_spec now (previousCodeValidUntilMs pairingState)).
      * split; auto.
      * split; [done|]. intros [?|[?|(_ & _ & ?)]]; [done..|lia].
    + split; [done|]. intros [?|[?|(_ & ? & _)]]; done.
  - split; [done|]. intros [?|[?|(? & _ & _)]]; done.
Qed.

(** C4, as stated, fails where the current code is the empty string: a
    header with any code is admitted although the current code is not null
    and neither code matches. *)
Lemma isPairCodeAccepted_empty_current :
  let pairingState :=
    {| currentCode := Some ""; previousCode := None;
       previousCodeValidUntilMs := 0; activeTransfers := 0 |} in
  isPairCodeAccepted pairingState (Some "123456") 1000 = true
  ∧ currentCode pairingState ≠ None
  ∧ Some "123456" ≠ currentCode pairingState
  ∧ ¬ (previousCode pairingState ≠ None
       ∧ Some "123456" = previousCode pairingState
       ∧ 1000 ≤ previousCodeValidUntilMs pairingState).
Proof. repeat split; try done. intros (? & _). done. Qed.

Lemma regenerate_spec (gen : nat → string) (oldCode : option string)
    (budget calls : nat) :
  ∃ k, (k ≤ budget)%nat
    ∧ regenerate gen oldCode budget (gen calls) (S calls)
      = (gen (calls + k)%nat, S (calls + k))
    ∧ (∀ j, (j < k)%nat → Some (gen (calls + j)%nat) = oldCode)
    ∧ ((k < budget)%nat → Some (gen (calls + k)%nat) ≠ oldCode).
Proof.
  revert calls. induction budget as [|budget IH]; intros calls; simpl.
  - exists O. rewrite Nat.add_0_r. repeat split; [lia | lia | lia].
  - case_bool_decide as Hsame.
    + destruct (IH (S calls)) as (k & Hk & Heq & Hbefore & Hlast).
      exists (S k). rewrite Nat.add_succ_r. repeat split.
      * lia.
      * exact Heq.
      * intros [|j] Hj; [by rewrite Nat.add_0_r|].
        rewrite Nat.add_succ_r. apply Hbefore. lia.
      * intros Hlt. apply Hlast. lia.
    + exists O. rewrite Nat.add_0_r. repeat split; [lia | lia | done].
Qed.

(** The code a rotation installs: the generator is called once, and again
    while its code equals the old one, at most five more times. *)
Lemma generateNext_spec (gen : nat → string) (oldCode : option string)
    (calls : nat) :
  ∃ k, (k ≤ 5)%nat
    ∧ generateNext gen oldCode calls = (gen (calls + k)%nat, S (calls + k))
    ∧ (∀ j, (j < k)%nat → Some (gen (calls + j)%nat) = oldCode)
    ∧ ((k < 5)%nat → Some (gen (calls + k)%nat) ≠ oldCode).
Proof. apply regenerate_spec. Qed.

(** C5: a TTL tick leaves the pairing state as it is while transfers are
    active; with none active it installs a newly generated code, keeps the
    old one as previous code, and sets its validity to now plus the TTL. *)
Theorem ttlTick_rotation (options : ListenOptions) (now seconds : Z)
    (gen : nat → string) (p : Pairing) :
  (0 < activeTransfers (state p) → ttlTick options now p = p)
  ∧ (pairCodeTtlSeconds options = Some seconds → 0 < seconds →
     generatePairCode options = Some gen →
     truthy (currentCode (state p)) = true →
     activeTransfers (state p) = 0 →
     ∃ k, (k ≤ 5)%nat
       ∧ ttlTick options now p =
           {| state :=
                {| currentCode := Some (gen (genCalls p + k)%nat);
                   previousCode := currentCode (state p);
                   previousCodeValidUntilMs := now + seconds * 1000;
                   activeTransfers := 0 |};
              genCalls := S (genCalls p + k);
              notifications :=
                notifications p ++ [(gen (genCalls p + k)%nat, ReasonTtl)] |}
       ∧ (∀ j, (j < k)%nat → Some (gen (genCalls p + j)%nat) = currentCode (state p))
       ∧ ((k < 5)%nat → Some (gen (genCalls p + k)%nat) ≠ currentCode (state p))).
Proof.
  split.
  - intros Hactive. unfold ttlTick.
    destruct (Z.ltb_spec 0 (activeTransfers (state p))); [done | lia].
  - intros Httl Hpos Hgen Hcur Hidle.
    destruct (generateNext_spec gen (currentCode (state p)) (genCalls p))
      as (k & Hk & Hnext & Hbefore & Hlast).
    exists k. split; [done|]. split; [|done].
    unfold ttlTick, rotatePairCode, ttlMsTruthy, ttlMs.
    rewrite Hidle, Hgen, Httl, Hnext. simpl.
    unfold truthy in Hcur. destruct (falsy (currentCode (state p))); [done|].
    destruct (Z.eqb_spec seconds 0); [lia|].
    destruct (Z.eqb_spec (seconds * 1000) 0); [lia|].
    reflexivity.
Qed.

Lemma ttlTick_rotation_witness :
  let options := Examples.options (Some "777777") false (Some 2) in
  let p := Examples.idle (Some "777777") in
  currentCode (state (ttlTick options 5000 p)) = Some "654321"
  ∧ previousCode (state (ttlTick options 5000 p)) = Some "777777"
  ∧ previousCodeValidUntilMs (state (ttlTick options 5000 p)) = 7000.
Proof.
  intros options p.
  destruct (ttlTick_rotation options 5000 2
              (λ n, nth n ["654321"; "111222"; "333444"] "999999") p)
    as [_ Hidle].
  destruct Hidle as (k & Hk & Heq & Hbefore & Hlast);
    [reflexivity | lia | reflexivity | reflexivity | reflexivity |].
  destruct k as [|k].
  - rewrite Heq. simpl. repeat split.
  - exfalso. specialize (Hbefore O ltac:(lia)). simpl in Hbefore. discriminate.
Defined.

(** ** Framing *)

Lemma splitAtNewline_app (line after : list byte) :
  splitAtNewline line = None →
  splitAtNewline (line ++ newline :: after) = Some (line, after).
Proof.
  induction line as [|x line IH]; simpl; [done|].
  destruct (Byte.eqb x newline); [done|].
  destruct (splitAtNewline line) as [[? ?]|]; [done|].
  intros _. by rewrite IH.
Qed.

Lemma splitAtNewline_repeat (x : byte) (n : nat) :
  Byte.eqb x newline = false → splitAtNewline (repeat x n) = None.
Proof. intros Hx. induction n as [|n IH]; simpl; [done|]. by rewrite Hx, IH. Qed.

Lemma splitAtNewline_None_app (a b : list byte) :
  splitAtNewline a = None → splitAtNewline b = None →
  splitAtNewline (a ++ b) = None.
Proof.
  intros Ha Hb. induction a as [|x a IH]; simpl in *; [done|].
  destruct (Byte.eqb x newline); [done|].
  destruct (splitAtNewline a) as [[? ?]|]; [done|]. by rewrite IH.
Qed.

(** A buffer that holds a newline is decoded whatever its length: the size
    test comes after the search for the newline. *)
Lemma readLineMessage_line {T} `{JsonCodec T} (label : string)
    (inbox : list SocketEvent) (r : SocketReader) (line after : list byte) :
  error r = None →
  splitAtNewline (buffer r) = Some (line, after) →
  readLineMessage label inbox r =
    (match decodeJsonLine (Str.trim (string_of_list_byte line)) with
     | Ok v => Got v
     | Throw m => Failed ("invalid " +:+ label +:+ ": " +:+ m)
     end,
     {| buffer := after; ended := ended r; error := error r |}, inbox).
Proof.
  intros Herr Hsplit.
  destruct inbox; simpl; unfold readLineOnce; rewrite Herr, Hsplit;
    by destruct (decodeJsonLine _).
Qed.

(** C6, as amended: with no newline in the buffer, the read fails with
    [<label> too large] once the buffer holds more than 65,536 bytes, and
    with [connection closed before <label>] when the peer has closed on a
    buffer within the bound; a line that arrives with its newline is decoded
    whatever its length, so a line of 65,536 bytes with its newline is not
    rejected for its size. *)
Theorem readLineMessage_framing {T} `{JsonCodec T} (label : string)
    (inbox : list SocketEvent) (r : SocketReader) :
  error r = None →
  (splitAtNewline (buffer r) = None →
   65536 < bufferLength (buffer r) →
   readLineMessage label inbox r = (Failed (label +:+ " too large"), r, inbox))
  ∧ (splitAtNewline (buffer r) = None →
     bufferLength (buffer r) ≤ 65536 →
     ended r = true →
     readLineMessage label inbox r =
       (Failed ("connection closed before " +:+ label), r, inbox))
  ∧ (∀ line after,
       splitAtNewline (buffer r) = Some (line, after) →
       readLineMessage label inbox r =
         (match decodeJsonLine (Str.trim (string_of_list_byte line)) with
          | Ok v => Got v
          | Throw m => Failed ("invalid " +:+ label +:+ ": " +:+ m)
          end,
          {| buffer := after; ended := ended r; error := error r |}, inbox)).
Proof.
  intros Herr. split; [|split].
  - intros Hline Hbig.
    destruct inbox; simpl; unfold readLineOnce; rewrite Herr, Hline;
      unfold HEADER_MAX_BYTES;
      destruct (Z.ltb_spec (64 * 1024) (bufferLength (buffer r))); (done || lia).
  - intros Hline Hsmall Hended.
    destruct inbox; simpl; unfold readLineOnce; rewrite Herr, Hline, Hended;
      unfold HEADER_MAX_BYTES;
      destruct (Z.ltb_spec (64 * 1024) (bufferLength (buffer r))); (done || lia).
  - intros line after Hline. by apply readLineMessage_line.
Qed.

Lemma trimStart_spaces (n : nat) (s : string) :
  Str.trimStart (string_of_list_byte (repeat x20 n) +:+ s) = Str.trimStart s.
Proof. induction n as [|n IH]; simpl; [done|]. exact IH. Qed.

Lemma string_of_list_byte_app (a b : list byte) :
  string_of_list_byte (a ++ b) = string_of_list_byte a +:+ string_of_list_byte b.
Proof.
  unfold string_of_list_byte.
  induction a as [|x a IH]; simpl; [done|]. by rewrite IH.
Qed.

Lemma append_assoc (a b c : string) : (a +:+ b) +:+ c = a +:+ (b +:+ c).
Proof.
  induction a as [|x a IH]; [done|].
  change (String x ((a +:+ b) +:+ c) = String x (a +:+ (b +:+ c))).
  by rewrite IH.
Qed.

Lemma append_empty_r (a : string) : a +:+ "" = a.
Proof.
  induction a as [|x a IH]; [done|].
  change (String x (a +:+ "") = String x a). by rewrite IH.
Qed.

Lemma rev_app_spec (s acc : string) :
  String.rev_app s acc = String.rev s +:+ acc.
Proof.
  revert acc. induction s as [|a s IH]; intros acc.
  - reflexivity.
  - unfold String.rev. change (String.rev_app (String a s) acc) with (String.rev_app s (String a acc)).
    change (String.rev_app (String a s) "") with (String.rev_app s (String a "")).
    rewrite (IH (String a acc)), (IH (String a "")), append_assoc. reflexivity.
Qed.

Lemma rev_append (s t : string) :
  String.rev (s +:+ t) = String.rev t +:+ String.rev s.
Proof.
  induction s as [|a s IH].
  - change ("" +:+ t) with t. by rewrite append_empty_r.
  - change (String a s +:+ t) with (String a (s +:+ t)).
    unfold String.rev at 1 3.
    change (String.rev_app (String a (s +:+ t)) "") with (String.rev_app (s +:+ t) (String a "")).
    change (String.rev_app (String a s) "") with (String.rev_app s (String a "")).
    rewrite !rev_app_spec, IH. by rewrite append_assoc.
Qed.

Lemma rev_spaces (n : nat) :
  String.rev (string_of_list_byte (repeat x20 n))
  = string_of_list_byte (repeat x20 n).
Proof.
  induction n as [|n IH]; [done|].
  change (repeat x20 (S n)) with ([x20] ++ repeat x20 n)%list at 1.
  rewrite string_of_list_byte_app, rev_append, IH.
  clear IH. induction n as [|n IH]; [done|].
  change (string_of_list_byte (repeat x20 (S n))) with (String " " (string_of_list_byte (repeat x20 n))).
  change (String " " (string_of_list_byte (repeat x20 n)) +:+ String.rev (string_of_list_byte [x20]))
    with (String " " (string_of_list_byte (repeat x20 n) +:+ String.rev (string_of_list_byte [x20]))).
  rewrite IH. reflexivity.
Qed.

Lemma paddedLine_length (n : nat) :
  bufferLength (paddedLine n ++ [newline]) = Z.of_nat n + 2.
Proof.
  unfold bufferLength, paddedLine.
  rewrite !length_app, repeat_length.
  change (length (Examples.bytes "H")) with 1%nat.
  change (length [newline]) with 1%nat. lia.
Qed.

Lemma paddedLine_no_newline (n : nat) : splitAtNewline (paddedLine n) = None.
Proof.
  unfold paddedLine. apply splitAtNewline_None_app; [done|].
  by apply splitAtNewline_repeat.
Qed.

Lemma paddedLine_trim (n : nat) :
  Str.trim (string_of_list_byte (paddedLine n)) = "H".
Proof.
  unfold Str.trim, paddedLine.
  rewrite string_of_list_byte_app.
  change (string_of_list_byte (Examples.bytes "H")) with "H".
  change (Str.trimStart ("H" +:+ string_of_list_byte (repeat x20 n)))
    with ("H" +:+ string_of_list_byte (repeat x20 n)).
  rewrite rev_append, rev_spaces, trimStart_spaces. done.
Qed.

Lemma paddedLine_accepted {T} (n : nat) (v : T) :
  readLineMessage (H := Examples.tableCodec [("H", v)]) "header" []
    (deliver (Data (paddedLine n ++ [newline])) newSocketReader)
  = (Got v, newSocketReader, []).
Proof.
  erewrite readLineMessage_line; [| reflexivity |].
  2:{ change (buffer (deliver (Data (paddedLine n ++ [newline])) newSocketReader))
        with (paddedLine n ++ [newline]).
      apply splitAtNewline_app, paddedLine_no_newline. }
  by rewrite paddedLine_trim.
Qed.

Lemma readLineMessage_framing_witness :
  let r := {| buffer := repeat x20 (Z.to_nat 65537); ended := true; error := None |} in
  readLineMessage (H := Examples.tableCodec [("H", 7)]) "header" [] r
  = (Failed "header too large", r, []).
Proof.
  intros r.
  assert (Hlen : bufferLength (buffer r) = 65537).
  { unfold bufferLength, r, buffer. rewrite repeat_length. lia. }
  destruct (readLineMessage_framing (H := Examples.tableCodec [("H", 7)])
              "header" [] r eq_refl) as (Hlarge & _ & _).
  apply Hlarge.
  - by apply splitAtNewline_repeat.
  - rewrite Hlen. lia.
Defined.

(** C6, as stated, fails on a header line of exactly 65,536 bytes with its
    newline: the reader hands the line to the decoder and returns what was
    decoded. *)
Lemma readLineMessage_accepts_65536 :
  let line := paddedLine (Z.to_nat 65534) ++ [newline] in
  bufferLength line = 65536
  ∧ ∀ (header : TransferHeader),
      readLineMessage (H := Examples.tableCodec [("H", header)]) "header" []
        (deliver (Data line) newSocketReader)
      = (Got header, newSocketReader, []).
Proof.
  split.
  - rewrite paddedLine_length. lia.
  - intros header. apply paddedLine_accepted.
Qed.

(** ** Resume offset *)

(** C3: the offset is 0 when the temp file is missing or empty or longer
    than [file_size]; for a temp of exactly [file_size] bytes it is
    [file_size] when the file's digest is the header's, the hasher then
    holding the whole file, and 0 otherwise; for a shorter temp of [s] > 0
    bytes it is [s], the hasher holding the first [s] bytes. *)
Theorem decideResumeOffset_cases `{Sha256} (fs : gmap string Node)
    (targetPath : string) (expectedSize : Z) (expectedSha256 : string)
    (hasher : list byte) :
  (fs !! targetPath = None →
   decideResumeOffset fs targetPath expectedSize expectedSha256 hasher
   = Ok (0, hasher))
  ∧ ∀ content, fs !! targetPath = Some (File content) →
      let s := bufferLength content in
      let offset :=
        decideResumeOffset fs targetPath expectedSize expectedSha256 hasher in
      (s ≤ 0 → offset = Ok (0, hasher))
      ∧ (expectedSize < s → offset = Ok (0, hasher))
      ∧ (0 < s → s = expectedSize → sha256Hex content = expectedSha256 →
         offset = Ok (expectedSize, hasher ++ content))
      ∧ (0 < s → s = expectedSize → sha256Hex content ≠ expectedSha256 →
         offset = Ok (0, hasher))
      ∧ (0 < s → s < expectedSize →
         offset = Ok (s, hasher ++ take (Z.to_nat s) content)).
Proof.
  split.
  - intros Hnone. unfold decideResumeOffset. by rewrite Hnone.
  - intros content Hfile s offset. subst offset.
    unfold decideResumeOffset. rewrite Hfile. fold s.
    assert (Hall : take (Z.to_nat s) content = content).
    { apply take_ge. unfold s, bufferLength. lia. }
    unfold updateHashFromFilePrefix, hasherUpdate, sha256File. rewrite Hall.
    destruct (Z.leb_spec s 0), (Z.ltb_spec expectedSize s),
      (Z.eqb_spec s expectedSize);
      repeat split; intros; try lia; try done;
      try (case_bool_decide; simpl; congruence).
Qed.

Lemma decideResumeOffset_cases_witness :
  decideResumeOffset (H := Examples.checksum)
    {["/out/a.part" := File (Examples.bytes "he")]} "/out/a.part" 5 "519784" []
  = Ok (2, Examples.bytes "he").
Proof.
  destruct (decideResumeOffset_cases (H := Examples.checksum)
              {["/out/a.part" := File (Examples.bytes "he")]}
              "/out/a.part" 5 "519784" []) as [_ Hfile].
  destruct (Hfile (Examples.bytes "he") eq_refl) as (_ & _ & _ & _ & Hshort).
  apply Hshort; reflexivity.
Defined.

(** ** A receive session *)

Create Rewrite HintDb session.

Lemma readChunk_pending inbox r a r' inbox' :
  readChunk inbox r = (a, r', inbox') →
  match a with
  | Got (Some _) =>
      buffer r' = []
      ∧ (S (length inbox')
         ≤ length inbox
           + (if (0 <? bufferLength (buffer r))%Z then 1 else 0))%nat
  | _ => True
  end.
Proof.
  revert r. induction inbox as [|ev inbox IH]; intros r; simpl.
  - destruct (error r); [intros; by simplify_eq/=|].
    destruct (0 <? bufferLength (buffer r)) eqn:Hbuf.
    + intros; simplify_eq/=. split; [done|lia].
    + destruct (ended r); intros; by simplify_eq/=.
  - destruct (error r); [intros; by simplify_eq/=|].
    destruct (0 <? bufferLength (buffer r)) eqn:Hbuf.
    + intros; simplify_eq/=. split; [done|lia].
    + destruct (ended r); [intros; by simplify_eq/=|].
      intros Hrec. specialize (IH _ Hrec).
      destruct a as [[c|]| |]; try done. destruct IH as [? ?].
      split; [done|]. case_match; lia.
Qed.

Local Arguments selectReceivePaths : simpl never.
Local Arguments promoteReceivedFile : simpl never.
Local Arguments decideResumeOffset : simpl never.
Local Arguments readLineMessage : simpl never.
Local Arguments readChunk : simpl never.
Local Arguments isPairCodeAccepted : simpl never.
Local Arguments fail : simpl never.
Local Arguments rotatePairCodeOnce : simpl never.
Local Arguments mkdirRecursive : simpl never.
Local Arguments normalizeTransferPath : simpl never.
Local Arguments resolveOutputPath : simpl never.
Local Arguments buildReceiveTempPath : simpl never.
Local Arguments confirm : simpl never.
Local Arguments ackPairCode : simpl never.

Lemma buildReceiveTempPath_nonempty (finalPath sha : string) :
  buildReceiveTempPath finalPath sha ≠ "".
Proof.
  unfold buildReceiveTempPath. destruct finalPath; [|done].
  discriminate.
Qed.

Lemma selectFrom_temp `{PathOps} fs basePath sha attempts index sel :
  selectFrom fs basePath sha attempts index = Ok sel →
  sel_tempPath sel = buildReceiveTempPath (sel_finalPath sel) sha.
Proof.
  revert index. induction attempts as [|n IH]; intros index; simpl; [done|].
  repeat case_match; try (intros [= <-]; done). apply IH.
Qed.

Lemma selectReceivePaths_ok `{PathOps} fs outputDir relativePath sha sel :
  selectReceivePaths fs outputDir relativePath sha = Ok sel →
  sel_tempPath sel ≠ ""
  ∧ ∃ normalized, normalizeTransferPath relativePath = Ok normalized.
Proof.
  unfold selectReceivePaths, resolveOutputPath, mbind, Res_bind.
  destruct (normalizeTransferPath relativePath) as [normalized|]; [|done].
  case_match; [|done]. intros Hsel%selectFrom_temp. split; [|eauto].
  rewrite Hsel. apply buildReceiveTempPath_nonempty.
Qed.

Lemma selectReceivePaths_invalid `{PathOps} fs outputDir relativePath sha m :
  normalizeTransferPath relativePath = Throw m →
  selectReceivePaths fs outputDir relativePath sha = Throw m.
Proof.
  intros Hbad. unfold selectReceivePaths, resolveOutputPath, mbind, Res_bind.
  by rewrite Hbad.
Qed.

Lemma decideResumeOffset_result `{Sha256} fs path size sha hs offset hs' :
  decideResumeOffset fs path size sha hs = Ok (offset, hs') →
  (offset = 0 ∧ hs' = hs)
  ∨ ∃ content, fs !! path = Some (File content) ∧ 0 < offset
      ∧ offset = bufferLength content ∧ offset ≤ size ∧ hs' = hs ++ content.
Proof.
  unfold decideResumeOffset.
  destruct (fs !! path) as [[content|]|] eqn:Hfile; [| done | intros [= <- <-]; auto].
  assert (Hall : take (Z.to_nat (bufferLength content)) content = content).
  { apply take_ge. unfold bufferLength. lia. }
  unfold updateHashFromFilePrefix, hasherUpdate. rewrite Hall.
  destruct (Z.leb_spec (bufferLength content) 0); [intros [= <- <-]; auto|].
  destruct (Z.ltb_spec size (bufferLength content)); [intros [= <- <-]; auto|].
  destruct (Z.eqb_spec (bufferLength content) size).
  - case_match; intros [= <- <-]; [auto|]. right. exists content. split_and!; (done || lia).
  - intros [= <- <-]. right. exists content. split_and!; (done || lia).
Qed.

Lemma promoteFrom_saved `{PathOps} fault fs temp target attempts index saved fs' node :
  promoteFrom fault fs temp target attempts index = Ok (saved, fs') →
  fs !! temp = Some node → saved ≠ temp →
  fs' !! saved = Some node.
Proof.
  revert index. induction attempts as [|n IH]; intros index; simpl; [done|].
  intros Hrun Htemp Hne. unfold rename, copyThenRemove in Hrun. rewrite Htemp in Hrun.
  destruct (fault (duplicatePathWithIndex target index)) as [code|].
  - repeat case_match; simplify_eq.
    + rewrite lookup_delete_ne by done. by rewrite lookup_insert_eq.
    + by eapply IH.
  - simplify_eq. by rewrite lookup_insert_eq.
Qed.

Section SessionFacts.
Context `{Sha256, PathOps, JsonCodec TransferHeader}.
Variable listenOptions : ListenOptions.
Variable env : SessionEnv.

Ltac fail_cases s c :=
  simpl; destruct (fileStream s); simpl; destruct c; simpl;
  destruct (Str.falsy (tempPath s)); simpl;
  destruct (socketWritable env); simpl; destruct (phase s); simpl.

Lemma fail_failed m c s : failed (fail env m c s) = true.
Proof. unfold fail. destruct (failed s) eqn:E; [done|]. fail_cases s c; done. Qed.

Lemma fail_pairing m c s : pairing (fail env m c s) = pairing s.
Proof. unfold fail. destruct (failed s); [done|]. fail_cases s c; done. Qed.
Lemma fail_header m c s : header (fail env m c s) = header s.
Proof. unfold fail. destruct (failed s); [done|]. fail_cases s c; done. Qed.
Lemma fail_phase m c s : phase (fail env m c s) = phase s.
Proof. unfold fail. destruct (failed s); [done|]. fail_cases s c; done. Qed.
Lemma fail_tempPath m c s : tempPath (fail env m c s) = tempPath s.
Proof. unfold fail. destruct (failed s); [done|]. fail_cases s c; done. Qed.
Lemma fail_digest m c s : digest (fail env m c s) = digest s.
Proof. unfold fail. destruct (failed s); [done|]. fail_cases s c; done. Qed.
Lemma fail_hasher m c s : hasher (fail env m c s) = hasher s.
Proof. unfold fail. destruct (failed s); [done|]. fail_cases s c; done. Qed.
Lemma fail_received m c s : received (fail env m c s) = received s.
Proof. unfold fail. destruct (failed s); [done|]. fail_cases s c; done. Qed.
Lemma fail_resumedFrom m c s : resumedFrom (fail env m c s) = resumedFrom s.
Proof. unfold fail. destruct (failed s); [done|]. fail_cases s c; done. Qed.
Lemma fail_required m c s :
  requiredPairCodeForThisTransfer (fail env m c s)
  = requiredPairCodeForThisTransfer s.
Proof. unfold fail. destruct (failed s); [done|]. fail_cases s c; done. Qed.

Lemma fail_files m c s :
  failed s = false →
  files (fail env m c s)
  = if c && negb (Str.falsy (tempPath s))
    then rmForce (files s) (tempPath s) else files s.
Proof. intros Hf. unfold fail. rewrite Hf. fail_cases s c; done. Qed.

Lemma fail_files_keep m s : files (fail env m false s) = files s.
Proof. unfold fail. destruct (failed s); [done|]. fail_cases s false; done. Qed.

Lemma fail_outbox m c s :
  failed s = false →
  outbox (fail env m c s)
  = outbox s ++ optFrame (socketWritable env) (failureFrame (phase s) m).
Proof.
  intros Hf. unfold fail, optFrame, failureFrame. rewrite Hf.
  fail_cases s c; rewrite ?app_nil_r; done.
Qed.

Hint Rewrite fail_failed fail_pairing fail_header fail_phase fail_tempPath
  fail_digest fail_hasher fail_received fail_resumedFrom fail_required
  fail_files_keep
  : session.

Ltac exec_in Hrun :=
  unfold mbind, Step_bind, mret, Step_ret, awaitSocket, modify, gets,
    returnNow, raise, liftRes, outOfFuel in Hrun;
  repeat first
    [ progress simpl in Hrun
    | match type of Hrun with
      | context [match ?x with _ => _ end] =>
          lazymatch x with
          | context [match _ with _ => _ end] => fail
          | _ => destruct x eqn:?
          end
      end ].

Lemma admitHeader_spec s o s' :
  failed s = false →
  admitHeader env s = (o, s') →
  pairing s' = pairing s ∧ files s' = files s ∧ phase s' = phase s
  ∧ tempPath s' = tempPath s
  ∧ hasher s' = hasher s ∧ digest s' = digest s ∧ received s' = received s
  ∧ match o with
    | Next h =>
        failed s' = false ∧ outbox s' = outbox s ∧ header s' = Some h
        ∧ fileStream s' = fileStream s
        ∧ requiredPairCodeForThisTransfer s' = currentCode (state (pairing s))
        ∧ isPairCodeAccepted (state (pairing s)) (h_pairCode h) (now env) = true
    | Return =>
        ∃ m, outbox s' = outbox s
               ++ optFrame (socketWritable env) (failureFrame (phase s) m)
    | Raise _ | Suspended =>
        failed s' = false ∧ outbox s' = outbox s ∧ header s' = header s
    | OutOfFuel => False
    end.
Proof.
  intros Hf Hrun. unfold admitHeader in Hrun. exec_in Hrun.
  all: simplify_eq/=; autorewrite with session; simpl.
  all: rewrite ?fail_outbox by done; simpl.
  all: split_and!; eauto.
  by apply negb_false_iff.
Qed.

Lemma confirm_spec h s o s' :
  failed s = false → phase s = PhaseBeforeReady →
  confirm listenOptions env h s = (o, s') →
  match o with
  | Next _ => s' = s
  | Return =>
      pairing s' = pairing s ∧ header s' = header s
      ∧ requiredPairCodeForThisTransfer s' = requiredPairCodeForThisTransfer s
      ∧ digest s' = digest s ∧ phase s' = PhaseBeforeReady
      ∧ files s' = files s
      ∧ ∃ m, outbox s' = outbox s
               ++ optFrame (socketWritable env) (readyFailure m)
  | _ => False
  end.
Proof.
  intros Hf Hph Hrun. unfold confirm in Hrun. exec_in Hrun.
  all: simplify_eq/=; autorewrite with session; simpl; try done.
  all: rewrite ?fail_outbox by done; rewrite ?Hph; simpl.
  all: split_and!; eauto.
Qed.

Lemma prepare_spec h s o s' :
  failed s = false → phase s = PhaseBeforeReady →
  fileStream s = None → hasher s = [] →
  prepare listenOptions env h s = (o, s') →
  pairing s' = pairing s ∧ header s' = header s
  ∧ requiredPairCodeForThisTransfer s' = requiredPairCodeForThisTransfer s
  ∧ digest s' = digest s
  ∧ match o with
    | Next _ =>
        failed s' = false ∧ phase s' = PhaseReceiving
        ∧ (∃ rdy, outbox s' = outbox s ++ [MReady rdy] ∧ ready_ok rdy = true)
        ∧ tempPath s' ≠ "" ∧ Stored h s'
        ∧ (∃ normalized, normalizeTransferPath (h_relativePath h) = Ok normalized)
    | Return =>
        phase s' = PhaseBeforeReady
        ∧ (∃ m, outbox s' = outbox s
                  ++ optFrame (socketWritable env) (readyFailure m))
        ∧ (∃ normalized, normalizeTransferPath (h_relativePath h) = Ok normalized)
    | Raise _ =>
        failed s' = false ∧ phase s' = PhaseBeforeReady
        ∧ outbox s' = outbox s
        ∧ ((∃ normalized, normalizeTransferPath (h_relativePath h) = Ok normalized)
           ∨ files s' = files s)
    | Suspended | OutOfFuel => False
    end.
Proof.
  intros Hf Hph Hstream Hhash Hrun. unfold prepare in Hrun.
  exec_in Hrun; simplify_eq/=.
  all: repeat match goal with
    | Hsel : selectReceivePaths _ _ _ _ = Ok _ |- _ =>
        apply selectReceivePaths_ok in Hsel; destruct Hsel as [? ?]
    | Hc : confirm _ _ _ _ = _ |- _ =>
        apply confirm_spec in Hc; [simpl in Hc|done..]
    | Hd : decideResumeOffset _ _ _ _ ?hs = Ok ?d |- _ =>
        destruct d as [offset hs'];
        apply decideResumeOffset_result in Hd
    end; simplify_eq/=.
  all: try done.
  all: try (destruct_and?; split_and!; by eauto).
  all: rewrite ?Hhash in *.
  all: unfold Stored; simpl.
  all: repeat match goal with
    | Hd : _ ∨ _ |- _ => destruct Hd as [[-> ->]|(content & ? & ? & ? & ? & ->)]
    | Hb : (_ <? _) = true |- _ => apply Z.ltb_lt in Hb
    | Hb : (_ <? _) = false |- _ => apply Z.ltb_ge in Hb
    end.
  all: split_and!; eauto; try lia.
  - intros _. by rewrite lookup_insert_eq.
  - intros _. by rewrite Hstream.
Qed.

Lemma writePayload_spec h payload s o s' :
  Stored h s →
  writePayload h payload s = (o, s') →
  Undisturbed s s' ∧ inbox s' = inbox s ∧ reader s' = reader s
  ∧ Stored h s'
  ∧ match o with
    | Next _ | Raise _ => True
    | _ => False
    end.
Proof.
  intros Hst Hrun. unfold writePayload in Hrun. exec_in Hrun; simplify_eq/=.
  all: unfold Undisturbed; split_and!; try done.
  unfold Stored in *; simpl. intros Hpos.
  destruct (Hst Hpos) as (Hfile & Hlen & Hws).
  match goal with Hs : fileStream s = Some ?w |- _ => rewrite Hs in Hws end.
  destruct Hws as [Hpath Hat].
  unfold streamWrite. rewrite Hpath, Hfile. simpl.
  rewrite lookup_insert_eq.
  assert (Hn : Z.to_nat (ws_pos w) = length (hasher s)).
  { rewrite Hat, Hlen. unfold bufferLength. lia. }
  rewrite Hn, take_ge, drop_ge, app_nil_r by lia.
  unfold hasherUpdate, bufferLength in *. rewrite length_app.
  split_and!; (done || lia).
Qed.

Lemma Undisturbed_refl s : Undisturbed s s.
Proof. unfold Undisturbed. by split_and!. Qed.

Lemma Undisturbed_trans s1 s2 s3 :
  Undisturbed s1 s2 → Undisturbed s2 s3 → Undisturbed s1 s3.
Proof. unfold Undisturbed. intros. destruct_and!. split_and!; congruence. Qed.

Lemma receiveLoop_spec h fuel s o s' :
  Stored h s →
  receiveLoop fuel h s = (o, s') →
  Undisturbed s s' ∧ Stored h s'
  ∧ match o with
    | Next _ | Raise _ | Suspended => True
    | Return => False
    | OutOfFuel => (fuel ≤ pendingInput s)%nat
    end.
Proof.
  revert s. induction fuel as [|fuel IH]; intros s Hst; simpl.
  - unfold mbind, Step_bind, gets, outOfFuel, mret, Step_ret.
    destruct (received s <? h_fileSize h); intros [= <- <-];
      (split; [apply Undisturbed_refl|]); (split; [done|]); [lia|done].
  - unfold mbind, Step_bind, gets, mret, Step_ret, awaitSocket.
    destruct (received s <? h_fileSize h);
      [|intros [= <- <-]; split; [apply Undisturbed_refl|]; done].
    destruct (readChunk (inbox s) (reader s)) as [[a r] rest] eqn:Hchunk.
    pose proof (readChunk_pending _ _ _ _ _ Hchunk) as Hpend.
    destruct a as [[payload|]|m|]; simpl.
    + set (s1 := set_inbox rest (set_reader r s)).
      assert (Hst1 : Stored h s1) by exact Hst.
      destruct (writePayload h payload s1) as [o1 s2] eqn:Hw.
      destruct (writePayload_spec _ _ _ _ _ Hst1 Hw) as (Hu & Hin & Hrd & Hst2 & Ho1).
      destruct o1; try done.
      * intros Hrest. destruct (IH _ Hst2 Hrest) as (Hu' & Hst' & Ho).
        split; [|split; [done|]].
        { eapply Undisturbed_trans; [|exact Hu'].
          eapply Undisturbed_trans; [|exact Hu]. by unfold Undisturbed. }
        destruct o; try done.
        unfold pendingInput in *. rewrite Hin, Hrd in Ho. simpl in Ho.
        destruct Hpend as [Hempty Hless]. rewrite Hempty in Ho. simpl in Ho. lia.
      * intros [= <- <-]. split; [|done].
        eapply Undisturbed_trans; [|exact Hu]. by unfold Undisturbed.
    + intros [= <- <-]. split; [by unfold Undisturbed|]. done.
    + intros [= <- <-]. split; [by unfold Undisturbed|]. done.
    + intros [= <- <-]. split; [by unfold Undisturbed|]. done.
Qed.

Lemma receiveLoop_fuel h s o s' :
  Stored h s →
  receiveLoop (loopBound s) h s = (o, s') → o ≠ OutOfFuel.
Proof.
  intros Hst Hrun. destruct (receiveLoop_spec _ _ _ _ _ Hst Hrun) as (_ & _ & Ho).
  intros ->. unfold loopBound, pendingInput in Ho. case_match; lia.
Qed.

Lemma promoteReceivedFile_saved fs temp target saved fs' node :
  promoteReceivedFile (renameFault env) fs temp target = Ok (saved, fs') →
  fs !! temp = Some node → saved ≠ temp → fs' !! saved = Some node.
Proof. apply promoteFrom_saved. Qed.

Lemma complete_spec h s o s' :
  failed s = false → phase s = PhaseReceiving → tempPath s ≠ "" →
  Stored h s →
  complete listenOptions env h s = (o, s') →
  header s' = header s ∧ tempPath s' = tempPath s
  ∧ requiredPairCodeForThisTransfer s' = requiredPairCodeForThisTransfer s
  ∧ hasher s' = hasher s ∧ resumedFrom s' = resumedFrom s
  ∧ ((o = Return ∧ digest s' = digest s ∧ pairing s' = pairing s
      ∧ ∃ m, outbox s' = outbox s
               ++ optFrame (socketWritable env) (ackFailure m))
     ∨ (o = Return ∧ pairing s' = pairing s
        ∧ digest s' = Some (sha256Hex (hasher s))
        ∧ sha256Hex (hasher s) ≠ h_sha256 h
        ∧ files s' !! tempPath s' = None
        ∧ outbox s' = outbox s
            ++ optFrame (socketWritable env) (ackFailure "sha256 mismatch"))
     ∨ (∃ m, o = Raise m ∧ pairing s' = pairing s
          ∧ digest s' = Some (h_sha256 h) ∧ outbox s' = outbox s
          ∧ failed s' = false ∧ phase s' = PhaseReceiving)
     ∨ (∃ saved, o = Next tt ∧ digest s' = Some (h_sha256 h)
          ∧ sha256Hex (hasher s) = h_sha256 h
          ∧ pairing s'
            = (ackPairCode listenOptions
                 (requiredPairCodeForThisTransfer s) (pairing s)).2
          ∧ outbox s' = outbox s
              ++ [ackSuccess h saved (resumedFrom s)
                    (ackPairCode listenOptions
                       (requiredPairCodeForThisTransfer s) (pairing s)).1]
          ∧ (0 < h_fileSize h → saved ≠ tempPath s →
             files s' !! saved = Some (File (hasher s))
             ∧ sha256Hex (hasher s) = h_sha256 h
             ∧ bufferLength (hasher s) = h_fileSize h))).
Proof.
  intros Hf Hph Htemp Hst Hrun. unfold complete, nextPairCodeForAck in Hrun.
  exec_in Hrun; simplify_eq/=; autorewrite with session; simpl.
  all: rewrite ?fail_outbox, ?fail_files by done; simpl; rewrite ?Hph; simpl.
  all: split_and!; try done.
  - left. split_and!; eauto.
  - right; left.
    assert (Hne : Str.falsy (tempPath s) = false).
    { unfold Str.falsy. by apply bool_decide_eq_false. }
    rewrite Hne. simpl. unfold rmForce. rewrite lookup_delete_eq.
    unfold hasherDigest in *.
    split_and!; try done. by case_bool_decide.
  - right; right; right.
    match goal with Hp : promoteReceivedFile _ _ _ _ = Ok ?r |- _ =>
      destruct r as [saved fs'] end.
    unfold hasherDigest in *.
    match goal with Hd : negb (bool_decide (_ = _)) = false |- _ =>
      apply negb_false_iff, bool_decide_eq_true in Hd; rename Hd into Hdig end.
    match goal with Hd : negb (_ =? _) = false |- _ =>
      apply negb_false_iff, Z.eqb_eq in Hd; rename Hd into Hsize end.
    exists saved. rewrite Hdig, Hsize. simpl. split_and!; try done.
    intros Hpos Hne. destruct (Hst Hpos) as (Hfile & Hlen & _).
    split_and!; [|done|congruence].
    eapply promoteReceivedFile_saved; eauto.
  - right; right; left.
    unfold hasherDigest in *.
    match goal with Hd : negb (bool_decide (_ = _)) = false |- _ =>
      apply negb_false_iff, bool_decide_eq_true in Hd; rename Hd into Hdig end.
    eexists. rewrite Hdig. split_and!; done.
Qed.

Ltac chase :=
  simpl; autorewrite with session;
  rewrite ?fail_outbox by congruence; simpl;
  repeat match goal with
    | Hx : outbox ?s = _ |- context [outbox ?s] => rewrite Hx
    | Hx : phase ?s = _ |- context [phase ?s] => rewrite Hx
    | Hx : pairing ?s = _ |- context [pairing ?s] => rewrite Hx
    | Hx : requiredPairCodeForThisTransfer ?s = _
      |- context [requiredPairCodeForThisTransfer ?s] => rewrite Hx
    end; simpl; try congruence; try done.

Lemma runSession_ends p fs events e s' :
  runSession listenOptions env (newSession p fs events) = (e, s') →
  SessionEnds listenOptions env p fs e s'.
Proof.
  unfold runSession, sessionBody.
  unfold mbind at 1, Step_bind at 1.
  destruct (admitHeader env (newSession p fs events)) as [o1 s1] eqn:Hadmit.
  apply admitHeader_spec in Hadmit; [|done]. simpl in Hadmit.
  destruct Hadmit as (Hp1 & Hfs1 & Hph1 & Htmp1 & Hhs1 & Hdg1 & Hrc1 & Ho1).
  destruct o1 as [h| |m| |]; try done.
  2:{ (* the header was refused *)
    destruct Ho1 as [m Hout]. intros [= <- <-].
    apply ends_rejected with (m := m); chase. by left. }
  2:{ (* reading the header threw *)
    destruct Ho1 as (Hf1 & Hout & Hh). intros [= <- <-].
    apply ends_rejected with (m := m); chase. by left. }
  2:{ destruct Ho1 as (Hf1 & Hout & Hh). intros [= <- <-].
    by apply ends_waiting_for_header. }
  destruct Ho1 as (Hf1 & Hout1 & Hh1 & Hst1 & Hreq1 & Hacc).
  unfold mbind at 1, Step_bind at 1.
  destruct (prepare listenOptions env h s1) as [o2 s2] eqn:Hprep.
  apply prepare_spec in Hprep; [|done..].
  destruct Hprep as (Hp2 & Hh2 & Hreq2 & Hdg2 & Ho2).
  destruct o2 as [[]| |m| |]; try done.
  2:{ (* the hook refused *)
    destruct Ho2 as (Hph2 & [m Hout2] & Hnorm). intros [= <- <-].
    apply ends_rejected with (m := m); chase.
    right. exists h. split; [congruence|done]. }
  2:{ (* choosing the target or the offset threw *)
    destruct Ho2 as (Hf2 & Hph2 & Hout2 & Hfiles). intros [= <- <-].
    apply ends_rejected with (m := m); chase.
    destruct Hfiles as [Hnorm|Hsame]; [right|left; congruence].
    exists h. split; [congruence|done]. }
  destruct Ho2 as (Hf2 & Hph2 & (rdy & Hout2 & Hok) & Htmp2 & Hstored2 & Hnorm).
  rewrite Hout1 in Hout2. simpl in Hout2.
  unfold mbind at 1 2, Step_bind at 1 2, gets at 1.
  destruct (receiveLoop (loopBound s2) h s2) as [o3 s3] eqn:Hloop.
  pose proof (receiveLoop_fuel _ _ _ _ Hstored2 Hloop) as Hfuel.
  apply receiveLoop_spec in Hloop; [|done].
  destruct Hloop as (Hu & Hstored3 & Ho3).
  unfold Undisturbed in Hu.
  destruct Hu as (Hp3 & Hh3 & Hreq3 & Hdg3 & Hout3 & Hph3 & Htmp3 & Htgt3 & Hf3 & Hres3).
  destruct o3 as [[]| |m| |]; try done.
  2:{ (* the payload loop threw *)
    intros [= <- <-].
    apply ends_aborted with (h := h) (rdy := rdy) (m := m); chase.
    left. congruence. }
  2:{ intros [= <- <-].
    apply ends_waiting_for_payload with (h := h) (rdy := rdy); chase. }
  destruct (complete listenOptions env h s3) as [o4 s4] eqn:Hdone.
  apply complete_spec in Hdone; [|congruence..|done].
  destruct Hdone as (Hh4 & Htmp4 & Hreq4 & Hhs4 & Hres4 & Hcases).
  destruct Hcases as
    [(-> & Hdg4 & Hp4 & m & Hout4)
    |[(-> & Hp4 & Hdg4 & Hne & Hgone & Hout4)
    |[(m & -> & Hp4 & Hdg4 & Hout4 & Hf4 & Hph4)
    |(saved & -> & Hdg4 & Hsha & Hp4 & Hout4 & Hfile)]]]; intros [= <- <-].
  - apply ends_aborted with (h := h) (rdy := rdy) (m := m); chase.
    left. congruence.
  - apply ends_mismatch with (h := h) (rdy := rdy) (d := sha256Hex (hasher s3));
      chase.
  - apply ends_aborted with (h := h) (rdy := rdy) (m := m); chase.
    by right.
  - apply ends_saved with (h := h) (rdy := rdy) (saved := saved); chase.
    intros Hpos Hsaved. rewrite Htmp4 in Hsaved.
    destruct (Hfile Hpos Hsaved) as (? & ? & ?). rewrite Hhs4. done.
Qed.
End SessionFacts.

Lemma elem_of_optFrame (w : bool) (m x : Message) : x ∈ optFrame w m → x = m.
Proof.
  unfold optFrame. destruct w; intros Hx.
  - by apply list_elem_of_singleton in Hx.
  - by apply elem_of_nil in Hx.
Qed.

(** Which frames of an outbox are which, for an outbox given frame by
    frame. *)
Ltac frames Hx :=
  repeat match type of Hx with
    | _ ∈ [] => by apply elem_of_nil in Hx
    | _ ∈ optFrame _ _ => apply elem_of_optFrame in Hx as ->
    | _ ∈ _ :: _ => apply elem_of_cons in Hx as [->|Hx]
    end.

Section SessionClaims.
Context `{Sha256, PathOps, JsonCodec TransferHeader}.
Variable listenOptions : ListenOptions.
Variable env : SessionEnv.

Lemma handleIncomingSocket_ends p fs events e s' :
  handleIncomingSocket listenOptions env p fs events = (e, s') →
  SessionEnds listenOptions env (countTransfer p) fs e s'.
Proof. apply runSession_ends. Qed.

(** The handler never stops for want of fuel. *)
Lemma handleIncomingSocket_total p fs events :
  (handleIncomingSocket listenOptions env p fs events).1 ≠ Cut.
Proof.
  destruct (handleIncomingSocket listenOptions env p fs events) as [e s'] eqn:Hrun.
  apply handleIncomingSocket_ends in Hrun. by destruct Hrun.
Qed.

(** C1, as amended: an [ack] with [ok: true] is sent only when the digest
    of the bytes the session hashed (the resumed part of the temp file,
    then the payload) is the header's, and for a file of positive size
    those bytes are the file that was saved; when the digest differs, the
    temp file is deleted, no [ack] with [ok: true] is sent, and the frame
    after [ready] is [ack] with [ok: false] and the message
    [sha256 mismatch] if the socket is still writable, and is missing if it
    is not. *)
Theorem handleIncomingSocket_integrity p fs events e s' :
  handleIncomingSocket listenOptions env p fs events = (e, s') →
  (∀ x, x ∈ outbox s' → isAckOk x = true →
     ∃ h saved next,
       header s' = Some h
       ∧ digest s' = Some (h_sha256 h)
       ∧ sha256Hex (hasher s') = h_sha256 h
       ∧ x = ackSuccess h saved (resumedFrom s') next
       ∧ (0 < h_fileSize h → saved ≠ tempPath s' →
          files s' !! saved = Some (File (hasher s'))
          ∧ bufferLength (hasher s') = h_fileSize h))
  ∧ (∀ h d, header s' = Some h → digest s' = Some d → d ≠ h_sha256 h →
       e = Settled
       ∧ files s' !! tempPath s' = None
       ∧ (∀ x, x ∈ outbox s' → isAckOk x = false)
       ∧ ∃ rdy, outbox s'
                = MReady rdy
                  :: (if socketWritable env
                      then [ackFailure "sha256 mismatch"] else [])).
Proof.
  intros Hrun%handleIncomingSocket_ends. split.
  - intros x Hx Hok.
    destruct Hrun;
      match goal with Ho : outbox _ = _ |- _ => rewrite Ho in Hx end;
      frames Hx; try done.
    eauto 10.
  - intros h0 d0 Hh Hd Hne.
    destruct Hrun;
      repeat match goal with Hor : _ ∨ _ |- _ => destruct Hor end;
      try congruence.
    match goal with Ho : outbox _ = _ |- _ => rename Ho into Hout end.
    split_and!; try done.
    + intros x Hx. rewrite Hout in Hx. frames Hx; done.
    + eexists. rewrite Hout. done.
Qed.

(** C2, as amended: normalization replaces backslashes, trims, applies
    [posix.normalize] and strips leading slashes, and rejects exactly the
    results that are empty, [.], [..], start with [../] or contain [/../];
    a header whose path is rejected this way ends the session before
    [ready]: no file is touched, no temp file is open, and the only frame,
    if the socket is writable, is [ready] with [ok: false]. *)
Theorem handleIncomingSocket_path_safety p fs events e s' :
  (∀ input,
     normalizeTransferPath input
     = if invalidNormalized (normalizedForm input)
       then Throw "invalid relative path" else Ok (normalizedForm input))
  ∧ (∀ input,
       invalidNormalized (normalizedForm input) = true ↔
         normalizedForm input = "" ∨ normalizedForm input = "."
         ∨ normalizedForm input = ".."
         ∨ Str.startsWith "../" (normalizedForm input) = true
         ∨ Str.includes "/../" (normalizedForm input) = true)
  ∧ (handleIncomingSocket listenOptions env p fs events = (e, s') →
     ∀ h, header s' = Some h →
       invalidNormalized (normalizedForm (h_relativePath h)) = true →
       e = Settled ∧ files s' = fs
       ∧ ∃ m, outbox s'
              = if socketWritable env then [readyFailure m] else []).
Proof.
  split; [done|]. split.
  - intros input. unfold invalidNormalized, Str.falsy.
    rewrite !orb_true_iff, !bool_decide_eq_true. tauto.
  - intros Hrun%handleIncomingSocket_ends h Hh Hbad.
    assert (Hno : ¬ pathAccepted h).
    { intros [normalized Hok]. unfold normalizeTransferPath in Hok.
      fold (normalizedForm (h_relativePath h)) in Hok. by rewrite Hbad in Hok. }
    destruct Hrun;
      repeat match goal with
        | Hor : _ ∨ _ |- _ => destruct Hor
        | Hex : ∃ _, _ |- _ => destruct Hex as (? & ? & ?)
        end; simplify_eq; try done.
    all: split_and!; try done; eexists; eassumption.
Qed.

(** What a session leaves of the pairing state when it sent no [ack] with
    [ok: true]: the codes it found. *)
Lemma uncount_count p :
  0 ≤ activeTransfers (state p) → uncountTransfer (countTransfer p) = p.
Proof.
  intros Hp. destruct p as [[cur prev valid active] calls notes].
  unfold uncountTransfer, countTransfer; simpl in *.
  do 2 f_equal. lia.
Qed.

Lemma ackPairCode_activeTransfers required p :
  activeTransfers (state (ackPairCode listenOptions required p).2)
  = activeTransfers (state p).
Proof.
  unfold ackPairCode, rotatePairCodeOnce.
  repeat case_match; simplify_eq/=; done.
Qed.

Lemma ackPairCode_countTransfer required p :
  ackPairCode listenOptions required (countTransfer p)
  = ((ackPairCode listenOptions required p).1,
     countTransfer (ackPairCode listenOptions required p).2).
Proof.
  unfold ackPairCode, rotatePairCodeOnce, countTransfer. simpl.
  repeat case_match; simplify_eq/=; (done || congruence).
Qed.

Lemma rotatePairCodeOnce_spec (gen : nat → string) (st : PairingState)
    (calls : nat) :
  ∃ k, (k ≤ 5)%nat
    ∧ rotatePairCodeOnce st gen calls
      = (gen (calls + k)%nat,
         {| currentCode := Some (gen (calls + k)%nat); previousCode := None;
            previousCodeValidUntilMs := 0;
            activeTransfers := activeTransfers st |},
         S (calls + k))
    ∧ (∀ j, (j < k)%nat → Some (gen (calls + j)%nat) = currentCode st)
    ∧ ((k < 5)%nat → Some (gen (calls + k)%nat) ≠ currentCode st).
Proof.
  destruct (generateNext_spec gen (currentCode st) calls)
    as (k & Hk & Hnext & Hbefore & Hlast).
  exists k. unfold rotatePairCodeOnce. rewrite Hnext. done.
Qed.

(** C8: [rotatePairCodeOnce] installs the generated code and clears the
    previous code and its validity, calling the generator again, up to
    five times, while it returns the old code; a session that sent no
    [ack] with [ok: true] leaves the codes as they were, and one that sent
    it, the digest verified, under per-transfer rotation carries the new
    code in that [ack]. *)
Theorem handleIncomingSocket_rotation (gen : nat → string) p fs events e s' :
  (∀ st calls,
     ∃ k, (k ≤ 5)%nat
       ∧ rotatePairCodeOnce st gen calls
         = (gen (calls + k)%nat,
            {| currentCode := Some (gen (calls + k)%nat);
               previousCode := None; previousCodeValidUntilMs := 0;
               activeTransfers := activeTransfers st |},
            S (calls + k))
       ∧ (∀ j, (j < k)%nat → Some (gen (calls + j)%nat) = currentCode st)
       ∧ ((k < 5)%nat → Some (gen (calls + k)%nat) ≠ currentCode st))
  ∧ (handleIncomingSocket listenOptions env p fs events = (e, s') →
     ((∀ x, x ∈ outbox s' → isAckOk x = false) →
      currentCode (state (pairing s')) = currentCode (state p)
      ∧ previousCode (state (pairing s')) = previousCode (state p)
      ∧ previousCodeValidUntilMs (state (pairing s'))
        = previousCodeValidUntilMs (state p)
      ∧ genCalls (pairing s') = genCalls p)
     ∧ (∀ x, x ∈ outbox s' → isAckOk x = true →
        truthy (currentCode (state p)) = true →
        rotatePairCodePerTransfer listenOptions = true →
        generatePairCode listenOptions = Some gen →
        ∃ h saved k, (k ≤ 5)%nat
          ∧ header s' = Some h ∧ digest s' = Some (h_sha256 h)
          ∧ x = ackSuccess h saved (resumedFrom s')
                  (Some (gen (genCalls p + k)%nat))
          ∧ currentCode (state (pairing s')) = Some (gen (genCalls p + k)%nat)
          ∧ previousCode (state (pairing s')) = None
          ∧ previousCodeValidUntilMs (state (pairing s')) = 0
          ∧ genCalls (pairing s') = S (genCalls p + k)
          ∧ (∀ j, (j < k)%nat →
               Some (gen (genCalls p + j)%nat) = currentCode (state p))
          ∧ ((k < 5)%nat →
               Some (gen (genCalls p + k)%nat) ≠ currentCode (state p)))).
Proof.
  split; [intros; apply rotatePairCodeOnce_spec|].
  intros Hrun%handleIncomingSocket_ends. split.
  - intros Hnone.
    destruct Hrun;
      try match goal with Hp : pairing _ = _ |- _ => by rewrite Hp end.
    match goal with Ho : outbox _ = _ |- _ => rename Ho into Hout end.
    specialize (Hnone (ackSuccess h saved (resumedFrom s')
      (ackPairCode listenOptions (currentCode (state (countTransfer p)))
         (countTransfer p)).1)).
    rewrite Hout in Hnone. discriminate Hnone.
    apply elem_of_cons. right. by apply list_elem_of_singleton.
  - intros x Hx Hok Hreq Hrot Hgen.
    destruct Hrun;
      match goal with Ho : outbox _ = _ |- _ => rewrite Ho in Hx end;
      frames Hx; try done.
    match goal with Hp : pairing _ = _ |- _ => rename Hp into Hpair end.
    change (currentCode (state (countTransfer p)))
      with (currentCode (state p)) in *.
    rewrite ackPairCode_countTransfer in *. simpl in Hpair |- *.
    destruct (rotatePairCodeOnce_spec gen (state p) (genCalls p))
      as (k & Hk & Hnext & Hbefore & Hlast).
    assert (Hack : ackPairCode listenOptions (currentCode (state p)) p
            = (Some (gen (genCalls p + k)%nat),
               {| state :=
                    {| currentCode := Some (gen (genCalls p + k)%nat);
                       previousCode := None; previousCodeValidUntilMs := 0;
                       activeTransfers := activeTransfers (state p) |};
                  genCalls := S (genCalls p + k);
                  notifications :=
                    if Str.falsy (gen (genCalls p + k)%nat)
                    then notifications p
                    else notifications p
                         ++ [(gen (genCalls p + k)%nat, ReasonOnce)] |})).
    { unfold ackPairCode. rewrite Hreq, Hrot, Hgen, Hnext. done. }
    rewrite Hack in *. exists h, saved, k. rewrite Hpair. simpl.
    split_and!; done.
Qed.

(** C10: where a pair code was required at admission and per-transfer
    rotation is not configured, the [ack] of a successful transfer carries
    the receiver's current pair code, which the session leaves as it was;
    the [ack] lacks [nextPairCode] exactly when no pair code was
    required. *)
Theorem handleIncomingSocket_next_pair_code p fs events e s' :
  handleIncomingSocket listenOptions env p fs events = (e, s') →
  ∀ x, x ∈ outbox s' → isAckOk x = true →
    ∃ h saved next,
      x = ackSuccess h saved (resumedFrom s') next
      ∧ (truthy (currentCode (state p)) = true →
         rotatePairCodePerTransfer listenOptions = false
         ∨ generatePairCode listenOptions = None →
         next = currentCode (state p)
         ∧ currentCode (state (pairing s')) = currentCode (state p)
         ∧ previousCode (state (pairing s')) = previousCode (state p)
         ∧ previousCodeValidUntilMs (state (pairing s'))
           = previousCodeValidUntilMs (state p))
      ∧ (next = None ↔ truthy (currentCode (state p)) = false).
Proof.
  intros Hrun%handleIncomingSocket_ends x Hx Hok.
  destruct Hrun;
    match goal with Ho : outbox _ = _ |- _ => rewrite Ho in Hx end;
    frames Hx; try done.
  match goal with Hp : pairing _ = _ |- _ => rename Hp into Hpair end.
  change (currentCode (state (countTransfer p)))
    with (currentCode (state p)) in *.
  rewrite ackPairCode_countTransfer in *. simpl in Hpair |- *.
  exists h, saved. eexists. split; [done|]. rewrite Hpair. simpl.
  unfold ackPairCode, rotatePairCodeOnce. split.
  - intros Hreq Hoff. rewrite Hreq.
    destruct Hoff as [-> | ->]; [|destruct (rotatePairCodePerTransfer _)]; done.
  - destruct (truthy (currentCode (state p))) eqn:Hreq.
    + apply truthy_Some in Hreq as (code & Hcode & _).
      repeat case_match; simplify_eq/=; split; congruence.
    + done.
Qed.
End SessionClaims.

(** ** The count of active transfers *)

Lemma ttlTick_activeTransfers (options : ListenOptions) (now : Z) (p : Pairing) :
  activeTransfers (state (ttlTick options now p)) = activeTransfers (state p).
Proof.
  unfold ttlTick, rotatePairCode.
  repeat case_match; simplify_eq/=; done.
Qed.

Section Counting.
Context `{Sha256, PathOps, JsonCodec TransferHeader}.
Variable listenOptions : ListenOptions.

Lemma runSession_settled_count env p fs events s' :
  runSession listenOptions env (newSession p fs events) = (Settled, s') →
  activeTransfers (state (pairing s')) = Z.max 0 (activeTransfers (state p) - 1).
Proof.
  intros Hrun%runSession_ends.
  inversion Hrun; subst;
    match goal with Hp : pairing _ = _ |- _ => rewrite Hp end; simpl; [done..|].
  by rewrite ackPairCode_activeTransfers.
Qed.

Lemma runSession_hanging_count env p fs events s' :
  runSession listenOptions env (newSession p fs events) = (Hanging, s') →
  pairing s' = p.
Proof. intros Hrun%runSession_ends. by inversion Hrun. Qed.

Lemma reachable_count timer start r :
  activeTransfers (state (rc_pairing start)) = 0 → rc_open start = O →
  reachable listenOptions timer start r →
  activeTransfers (state (rc_pairing r)) = Z.of_nat (rc_open r).
Proof.
  intros Hzero Hnone Hreach. induction Hreach as [|r r' _ IH Hstep].
  - rewrite Hzero, Hnone. done.
  - destruct Hstep as [r|r env events s' Hopen Hrun|r now _]; simpl.
    + lia.
    + rewrite (runSession_settled_count _ _ _ _ _ Hrun). lia.
    + by rewrite ttlTick_activeTransfers.
Qed.

(** C9: a connection is counted as soon as it is accepted, before anything
    is read from it; a session that settles takes the count down by one,
    never below zero, and one that stays open keeps it up; so the count is
    the number of open sessions, it is never negative, and while a session
    is open a TTL tick changes nothing. *)
Theorem activeTransfers_counting (env : SessionEnv) (p : Pairing)
    (fs : gmap string Node) (events : list SocketEvent) :
  (let s := acceptSession p fs events in
   activeTransfers (state (pairing s)) = activeTransfers (state p) + 1
   ∧ inbox s = events ∧ reader s = newSocketReader
   ∧ header s = None ∧ requiredPairCodeForThisTransfer s = None
   ∧ outbox s = [])
  ∧ (∀ e s', handleIncomingSocket listenOptions env p fs events = (e, s') →
       (e = Settled ∧ activeTransfers (state (pairing s'))
                      = Z.max 0 (activeTransfers (state p) + 1 - 1))
       ∨ (e = Hanging ∧ activeTransfers (state (pairing s'))
                        = activeTransfers (state p) + 1))
  ∧ (∀ timer start r,
       activeTransfers (state (rc_pairing start)) = 0 → rc_open start = O →
       reachable listenOptions timer start r →
       0 ≤ activeTransfers (state (rc_pairing r))
       ∧ activeTransfers (state (rc_pairing r)) = Z.of_nat (rc_open r)
       ∧ ((0 < rc_open r)%nat →
          ∀ now, ttlTick listenOptions now (rc_pairing r) = rc_pairing r)).
Proof.
  split; [done|]. split.
  - intros e s' Hrun. unfold handleIncomingSocket, acceptSession in Hrun.
    pose proof (runSession_ends _ _ _ _ _ _ _ Hrun) as Hends.
    destruct e.
    + left. split; [done|].
      by rewrite (runSession_settled_count _ _ _ _ _ Hrun).
    + right. split; [done|].
      by rewrite (runSession_hanging_count _ _ _ _ _ Hrun).
    + inversion Hends.
  - intros timer start r Hzero Hnone Hreach.
    pose proof (reachable_count _ _ _ Hzero Hnone Hreach) as Hcount.
    split_and!; [lia|done|].
    intros Hopen now. unfold ttlTick.
    destruct (Z.ltb_spec 0 (activeTransfers (state (rc_pairing r)))); [done|lia].
Qed.
End Counting.

(** ** The statements on concrete sessions *)



Lemma handleIncomingSocket_integrity_witness :
  let s' := (Examples.receive Examples.fixedCode (Examples.environment true)
               (Examples.idle (Some "123456")) ∅ (Examples.corrupt "H")).2 in
  files s' !! tempPath s' = None
  ∧ ∃ rdy, outbox s' = [MReady rdy; ackFailure "sha256 mismatch"].
Proof.
  intros s'.
  assert (Hrun : Examples.receive Examples.fixedCode (Examples.environment true)
                   (Examples.idle (Some "123456")) ∅ (Examples.corrupt "H")
                 = (Settled, s')) by (vm_compute; reflexivity).
  destruct (handleIncomingSocket_integrity (H := Examples.checksum)
              (H0 := Examples.posixPaths) (H1 := Examples.codec)
              Examples.fixedCode (Examples.environment true)
              (Examples.idle (Some "123456")) ∅ (Examples.corrupt "H")
              Settled s' Hrun) as [_ Hmismatch].
  destruct (Hmismatch (Examples.helloHeader "a.txt" (Some "123456")) "519793")
    as (_ & Hgone & _ & Hframes);
    [reflexivity | reflexivity | discriminate |].
  split; [exact Hgone | exact Hframes].
Defined.

(** C1, as stated, fails when the socket is no longer writable: the digest
    differs from the header's, and the only frame the session sent is
    [ready]. *)
Lemma handleIncomingSocket_mismatch_without_ack :
  let s' := (Examples.receive Examples.fixedCode (Examples.environment false)
               (Examples.idle (Some "123456")) ∅
               [Data (Examples.wire "H" ++ Examples.bytes "he");
                Data (Examples.bytes "llx"); Close]).2 in
  header s' = Some (Examples.helloHeader "a.txt" (Some "123456"))
  ∧ digest s' = Some "519793"
  ∧ h_sha256 (Examples.helloHeader "a.txt" (Some "123456")) = "519784"
  ∧ outbox s'
    = [MReady {| ready_ok := true; ready_offset := 0; ready_message := None;
                 ready_savedPath := Some "/out/a.txt" |}].
Proof. vm_compute. repeat split. Qed.

Lemma handleIncomingSocket_path_safety_witness :
  let run := Examples.receive Examples.noCode (Examples.environment true)
               (Examples.idle None) ∅ (Examples.good "E") in
  run.1 = Settled ∧ files run.2 = ∅
  ∧ ∃ m, outbox run.2 = [readyFailure m].
Proof.
  intros run.
  destruct (handleIncomingSocket_path_safety (H := Examples.checksum)
              (H0 := Examples.posixPaths) (H1 := Examples.codec)
              Examples.noCode (Examples.environment true)
              (Examples.idle None) ∅ (Examples.good "E") run.1 run.2)
    as (_ & _ & Hreject).
  assert (Hrun : Examples.receive Examples.noCode (Examples.environment true)
                   (Examples.idle None) ∅ (Examples.good "E") = (run.1, run.2))
    by (vm_compute; reflexivity).
  apply (Hreject Hrun (Examples.helloHeader "../e.txt" None));
    reflexivity.
Defined.

(** C2, as stated, fails on a path with a leading slash and on a path with
    an inner [..]: both are normalized to [a.txt], the transfer is accepted
    and the file is written under the output directory. *)
Lemma handleIncomingSocket_accepts_absolute_and_dotdot :
  let absolute := (Examples.receive Examples.noCode (Examples.environment true)
                     (Examples.idle None) ∅ (Examples.good "A")).2 in
  let dotdot := (Examples.receive Examples.noCode (Examples.environment true)
                   (Examples.idle None) ∅ (Examples.good "D")).2 in
  (h_relativePath <$> header absolute = Some "/a.txt"
   ∧ normalizeTransferPath "/a.txt" = Ok "a.txt"
   ∧ existsb isAckOk (outbox absolute) = true
   ∧ files absolute !! "/out/a.txt" = Some (File (Examples.bytes "hello")))
  ∧ (h_relativePath <$> header dotdot = Some "x/../a.txt"
     ∧ normalizeTransferPath "x/../a.txt" = Ok "a.txt"
     ∧ existsb isAckOk (outbox dotdot) = true
     ∧ files dotdot !! "/out/a.txt" = Some (File (Examples.bytes "hello"))).
Proof. vm_compute. repeat split. Qed.

Lemma handleIncomingSocket_rotation_witness :
  let s' := (Examples.receive Examples.rotating (Examples.environment true)
               (Examples.idle (Some "123456")) ∅ (Examples.good "H")).2 in
  ∃ k, (k ≤ 5)%nat
    ∧ currentCode (state (pairing s'))
      = Some (nth k ["654321"; "111222"; "333444"] "999999")
    ∧ previousCode (state (pairing s')) = None
    ∧ previousCodeValidUntilMs (state (pairing s')) = 0.
Proof.
  intros s'.
  set (gen := λ n : nat, nth n ["654321"; "111222"; "333444"] "999999").
  set (x := ackSuccess (Examples.helloHeader "a.txt" (Some "123456"))
              "/out/a.txt" 0 (Some "654321")).
  assert (Hrun : Examples.receive Examples.rotating (Examples.environment true)
                   (Examples.idle (Some "123456")) ∅ (Examples.good "H")
                 = (Settled, s')) by (vm_compute; reflexivity).
  assert (Hout : outbox s'
                 = [MReady {| ready_ok := true; ready_offset := 0;
                              ready_message := None;
                              ready_savedPath := Some "/out/a.txt" |}; x])
    by (vm_compute; reflexivity).
  assert (Hx : x ∈ outbox s').
  { rewrite Hout. apply elem_of_cons. right. by apply list_elem_of_singleton. }
  destruct (handleIncomingSocket_rotation (H := Examples.checksum)
              (H0 := Examples.posixPaths) (H1 := Examples.codec)
              Examples.rotating (Examples.environment true) gen
              (Examples.idle (Some "123456")) ∅ (Examples.good "H")
              Settled s') as [_ Hsession].
  destruct (Hsession Hrun) as [_ Hrotated].
  destruct (Hrotated x Hx eq_refl eq_refl eq_refl eq_refl)
    as (h & saved & k & Hk & _ & _ & _ & Hcur & Hprev & Hvalid & _).
  exists k. split; [exact Hk|]. split; [exact Hcur|]. split; [exact Hprev|exact Hvalid].
Defined.

Lemma handleIncomingSocket_next_pair_code_witness :
  let s' := (Examples.receive Examples.fixedCode (Examples.environment true)
               (Examples.idle (Some "123456")) ∅ (Examples.good "H")).2 in
  ∃ h saved,
    ackSuccess h saved (resumedFrom s') (Some "123456") ∈ outbox s'
    ∧ currentCode (state (pairing s')) = Some "123456".
Proof.
  intros s'.
  set (x := ackSuccess (Examples.helloHeader "a.txt" (Some "123456"))
              "/out/a.txt" 0 (Some "123456")).
  assert (Hrun : Examples.receive Examples.fixedCode (Examples.environment true)
                   (Examples.idle (Some "123456")) ∅ (Examples.good "H")
                 = (Settled, s')) by (vm_compute; reflexivity).
  assert (Hout : outbox s'
                 = [MReady {| ready_ok := true; ready_offset := 0;
                              ready_message := None;
                              ready_savedPath := Some "/out/a.txt" |}; x])
    by (vm_compute; reflexivity).
  assert (Hx : x ∈ outbox s').
  { rewrite Hout. apply elem_of_cons. right. by apply list_elem_of_singleton. }
  destruct (handleIncomingSocket_next_pair_code (H := Examples.checksum)
              (H0 := Examples.posixPaths) (H1 := Examples.codec)
              Examples.fixedCode (Examples.environment true)
              (Examples.idle (Some "123456")) ∅ (Examples.good "H")
              Settled s' Hrun x Hx eq_refl)
    as (h & saved & next & Heq & Hfixed & _).
  destruct (Hfixed eq_refl (or_introl eq_refl)) as (Hnext & Hcur & _).
  exists h, saved. split; [|exact Hcur].
  change (currentCode (state (Examples.idle (Some "123456"))))
    with (Some "123456") in Hnext.
  subst next. rewrite <- Heq. exact Hx.
Defined.

Lemma activeTransfers_counting_witness :
  let start := {| rc_pairing := Examples.idle (Some "777777");
                  rc_files := ∅; rc_open := O |} in
  let busy := {| rc_pairing := countTransfer (Examples.idle (Some "777777"));
                 rc_files := ∅; rc_open := 1 |} in
  activeTransfers (state (rc_pairing busy)) = 1
  ∧ ttlTick (Examples.options (Some "777777") false (Some 2)) 5000
      (rc_pairing busy) = rc_pairing busy.
Proof.
  intros start busy.
  destruct (activeTransfers_counting (H := Examples.checksum)
              (H0 := Examples.posixPaths) (H1 := Examples.codec)
              (Examples.options (Some "777777") false (Some 2))
              (Examples.environment true)
              (Examples.idle (Some "777777")) ∅ []) as (_ & _ & Hsystem).
  destruct (Hsystem true start busy eq_refl eq_refl) as (_ & Hcount & Hskip).
  { eapply reach_step; [apply reach_start|]. apply (step_accept _ _ start). }
  split; [exact Hcount|]. apply Hskip. simpl. lia.
Defined.


(** ** TLS trust on first use *)

Module TlsFacts.
Import Tls.

Lemma isFingerprint_nonempty (s : string) : isFingerprint s = true → s ≠ "".
Proof. by intros Hfp ->. Qed.

Lemma normalizeFingerprint_ok (input fp : string) :
  normalizeFingerprint input = Ok fp → isFingerprint fp = true.
Proof.
  unfold normalizeFingerprint. case_match; [|done]. by intros [= <-].
Qed.

Lemma collectKnownHosts_wf entries result known :
  WellFormed result →
  collectKnownHosts entries result = Ok known → WellFormed known.
Proof.
  revert result. induction entries as [|[key [value|]] entries IH];
    intros result Hwf; simpl.
  - by intros [= <-].
  - unfold mbind, Res_bind.
    destruct (normalizeFingerprint value) as [fp|] eqn:Hfp; [|done].
    apply IH. intros k v. rewrite lookup_insert.
    case_decide; [|apply Hwf].
    intros [= <-]. by eapply normalizeFingerprint_ok.
  - by apply IH.
Qed.

Lemma loadKnownHosts_wf `{JsonCodec JsonDoc} files path known :
  loadKnownHosts files path = Ok known → WellFormed known.
Proof.
  unfold loadKnownHosts. destruct (files !! path) as [raw|].
  - unfold mbind, Res_bind. destruct (decodeJsonLine raw) as [[entries|]|]; try done.
    destruct (collectKnownHosts entries ∅) eqn:Hc; [|done].
    intros [= <-]. eapply collectKnownHosts_wf; [|done]. intros ??. by rewrite lookup_empty.
  - intros [= <-]. intros ??. by rewrite lookup_empty.
Qed.

Section Sorting.
Context `{CollationOrder}.

Lemma insertEntry_perm e l : insertEntry e l ≡ₚ e :: l.
Proof.
  induction l as [|x l IH]; simpl; [done|].
  destruct (localeCompare e.1 x.1); try done.
  rewrite IH. apply Permutation_swap.
Qed.

Lemma sortEntries_perm l : sortEntries l ≡ₚ l.
Proof.
  induction l as [|x l IH]; simpl; [done|].
  by rewrite insertEntry_perm, IH.
Qed.




End Sorting.





Lemma string_compare_refl (s : string) : String.compare s s = Eq.
Proof.
  induction s as [|a s IH]; simpl; [done|].
  unfold Ascii.compare. by rewrite N.compare_refl.
Qed.

(** The order of code units is a total order. *)
Global Instance codeUnitOrder_total :
  @CollationOrder Examples.codeUnitOrder.
Proof.
  split; unfold localeCompare, Examples.codeUnitOrder.
  - intros a b. split; [apply String.compare_eq_iff|].
    intros ->. apply string_compare_refl.
  - intros a b. apply String.compare_antisym.
  - intros a b c Hab Hbc.
    assert (Hle : String.le a c).
    { transitivity b; unfold String.le, String.leb; [by rewrite Hab|by rewrite Hbc]. }
    unfold String.le, String.leb in Hle.
    destruct (String.compare a c) eqn:Hac; [|done|done].
    apply String.compare_eq_iff in Hac. subst c.
    rewrite String.compare_antisym, Hab in Hbc. done.
Qed.
End TlsFacts.



(** A changed certificate: the entry for the endpoint is [fingerprintB], the
    peer presents [fingerprintA]. *)
Example verifyTlsPeer_changed :
  ∃ m, TlsExamples.verify (TlsExamples.firstUse "B.local") {["/kh" := "K"]}
       = Throw m
       ∧ Str.startsWith "TLS fingerprint changed" m = true.
Proof. eexists. split; [vm_compute; reflexivity|reflexivity]. Qed.

(** ** The timer's precondition

    The TTL timer runs against a truthy current code: [startReceiver]
    creates the timer only then, and, with a generator that never returns the
    empty string, every later state of the receiver keeps one. *)

Lemma startReceiver_timer (options : ListenOptions) (fs : gmap string Node)
    (r : Receiver) :
  startReceiver options fs = Ok (r, true) →
  truthy (currentCode (state (rc_pairing r))) = true
  ∧ activeTransfers (state (rc_pairing r)) = 0 ∧ rc_open r = O
  ∧ ∃ seconds, pairCodeTtlSeconds options = Some seconds ∧ 0 < seconds.
Proof.
  unfold startReceiver, startPairing, ttlMsTruthy, ttlMs, mbind, Res_bind.
  destruct (pairCodeTtlSeconds options) as [seconds|] eqn:Httl;
    repeat case_match; simplify_eq/=; try done.
  all: intros; simplify_eq/=; split_and!; try done.
  all: exists seconds; split; [done|].
  all: repeat match goal with
         | Hb : (_ =? _) = false |- _ => apply Z.eqb_neq in Hb
         | Hb : _ && _ = false |- _ => apply andb_false_iff in Hb as [Hb|Hb]
         | Hb : negb _ = false |- _ => apply negb_false_iff in Hb
         | Hb : (_ =? _) = true |- _ => apply Z.eqb_eq in Hb
         | Hb : (_ <=? _) = false |- _ => apply Z.leb_gt in Hb
         end; try lia.
Qed.

Section Contract.
Context `{Sha256, PathOps, JsonCodec TransferHeader}.
Variable listenOptions : ListenOptions.
Hypothesis generator_contract :
  ∀ gen n, generatePairCode listenOptions = Some gen → gen n ≠ "".

Lemma generateNext_nonempty gen oldCode calls :
  generatePairCode listenOptions = Some gen →
  truthy (Some (generateNext gen oldCode calls).1) = true.
Proof.
  intros Hgen.
  destruct (generateNext_spec gen oldCode calls) as (k & _ & Hnext & _).
  rewrite Hnext. apply truthy_Some. eexists. split; [reflexivity|].
  exact (generator_contract gen _ Hgen).
Qed.

Lemma ackPairCode_truthy required p :
  truthy (currentCode (state p)) = true →
  truthy (currentCode (state (ackPairCode listenOptions required p).2)) = true.
Proof.
  intros Hcur. pose proof generateNext_nonempty as Hnext.
  clear generator_contract. unfold ackPairCode, rotatePairCodeOnce.
  destruct (truthy required), (rotatePairCodePerTransfer listenOptions),
    (generatePairCode listenOptions) as [gen|] eqn:Hgen; try done.
  specialize (Hnext gen (currentCode (state p)) (genCalls p) eq_refl).
  by destruct (generateNext gen (currentCode (state p)) (genCalls p)).
Qed.

Lemma ttlTick_truthy now p :
  truthy (currentCode (state p)) = true →
  truthy (currentCode (state (ttlTick listenOptions now p))) = true.
Proof.
  intros Hcur. pose proof generateNext_nonempty as Hnext.
  clear generator_contract. unfold ttlTick, rotatePairCode.
  destruct (0 <? activeTransfers (state p)); [done|].
  destruct (generatePairCode listenOptions) as [gen|] eqn:Hgen; [|done].
  destruct (falsy (currentCode (state p))); [done|].
  specialize (Hnext gen (currentCode (state p)) (genCalls p) eq_refl).
  destruct (generateNext gen (currentCode (state p)) (genCalls p)).
  simpl. by repeat case_match.
Qed.

Lemma reachable_current_truthy timer start r :
  truthy (currentCode (state (rc_pairing start))) = true →
  reachable listenOptions timer start r →
  truthy (currentCode (state (rc_pairing r))) = true.
Proof.
  intros Hstart Hreach. induction Hreach as [|r r' _ IH Hstep]; [done|].
  destruct Hstep as [r|r env events s' Hopen Hrun|r now _]; simpl.
  - done.
  - apply runSession_ends in Hrun.
    inversion Hrun; subst;
      match goal with Hp : pairing _ = _ |- _ => rewrite Hp end; simpl;
      try done.
    by apply ackPairCode_truthy.
  - by apply ttlTick_truthy.
Qed.
End Contract.

(** ** Transfers of no bytes

    The statement about the bytes of a saved file is made for a positive
    size. For [fileSize] 0 the handler opens no write stream
    ([resumedFrom < header.fileSize] fails), so the temp file is neither
    created nor emptied: on a fresh target the promotion finds no temp file,
    and a temp file left behind under the same name is promoted as it is. *)

Example zero_bytes_on_a_fresh_target :
  outbox (Examples.receive Examples.noCode (Examples.environment true)
            (Examples.idle None) ∅ [Data (Examples.wire "Z"); End]).2
  = [MReady {| ready_ok := true; ready_offset := 0; ready_message := None;
               ready_savedPath := Some "/out/z.txt" |};
     ackFailure "temporary receive file is missing"].
Proof. vm_compute. reflexivity. Qed.

Example zero_bytes_over_a_stale_temp :
  let stale := {["/out/z.txt.7.local-sent.part" := File (Examples.bytes "junk")]} in
  let s' := (Examples.receive Examples.noCode (Examples.environment true)
               (Examples.idle None) stale [Data (Examples.wire "Z"); End]).2 in
  existsb isAckOk (outbox s') = true
  ∧ files s' !! "/out/z.txt" = Some (File (Examples.bytes "junk")).
Proof. vm_compute. split; reflexivity. Qed.

(** * Further properties *)

(** ** Fingerprints *)

Module FingerprintFacts.
Import Tls.

Lemma isLowerHex_plain (a : ascii) :
  isLowerHex a = true →
  Ascii.is_space a = false ∧ Ascii.eqb a ":" = false ∧ Str.lowerChar a = a.
Proof. destruct a as [[] [] [] [] [] [] [] []]; intros Hhex; try done. Qed.

Lemma allLowerHex_app (s t : string) :
  allLowerHex (s +:+ t) = allLowerHex s && allLowerHex t.
Proof.
  induction s as [|a s IH]; [done|].
  change (String a s +:+ t) with (String a (s +:+ t)). simpl.
  by rewrite IH, andb_assoc.
Qed.

Lemma rev_cons (a : ascii) (s : string) :
  String.rev (String a s) = String.rev s +:+ String a "".
Proof. exact (rev_append (String a "") s). Qed.

Lemma rev_involutive (s : string) : String.rev (String.rev s) = s.
Proof.
  induction s as [|a s IH]; [done|].
  rewrite rev_cons, rev_append, IH. done.
Qed.

Lemma allLowerHex_rev (s : string) :
  allLowerHex s = true → allLowerHex (String.rev s) = true.
Proof.
  induction s as [|a s IH]; [done|]. simpl.
  intros [Ha Hs]%andb_true_iff.
  rewrite rev_cons, allLowerHex_app, IH by done. simpl. by rewrite Ha.
Qed.

Lemma allLowerHex_trimStart (s : string) :
  allLowerHex s = true → Str.trimStart s = s.
Proof.
  destruct s as [|a s]; [done|]. simpl.
  intros [Ha _]%andb_true_iff.
  by destruct (isLowerHex_plain a Ha) as (-> & _ & _).
Qed.

Lemma allLowerHex_canonical (s : string) :
  allLowerHex s = true →
  Str.removeColons s = s ∧ Str.trim s = s ∧ Str.toLowerCase s = s.
Proof.
  intros Hs. split_and!.
  - induction s as [|a s IH]; [done|]. simpl in *.
    apply andb_true_iff in Hs as [Ha Hs].
    destruct (isLowerHex_plain a Ha) as (_ & -> & _). by rewrite IH.
  - unfold Str.trim.
    rewrite (allLowerHex_trimStart s Hs).
    rewrite (allLowerHex_trimStart _ (allLowerHex_rev s Hs)).
    apply rev_involutive.
  - induction s as [|a s IH]; [done|]. simpl in *.
    apply andb_true_iff in Hs as [Ha Hs].
    destruct (isLowerHex_plain a Ha) as (_ & _ & ->). by rewrite IH.
Qed.

Lemma normalizeFingerprint_fixed (fp : string) :
  isFingerprint fp = true → normalizeFingerprint fp = Ok fp.
Proof.
  intros Hfp. unfold normalizeFingerprint.
  pose proof Hfp as [_ Hhex]%andb_true_iff.
  destruct (allLowerHex_canonical fp Hhex) as (-> & -> & ->).
  by rewrite Hfp.
Qed.

(** X12: what [normalizeFingerprint] returns is in canonical form: 64
    characters, each a digit or a letter from [a] to [f], and a fixed point
    of the function. *)
Theorem normalizeFingerprint_canonical (input fp : string) :
  normalizeFingerprint input = Ok fp →
  String.length fp = 64%nat ∧ allLowerHex fp = true
  ∧ normalizeFingerprint fp = Ok fp.
Proof.
  intros Hok. unfold normalizeFingerprint in Hok.
  destruct (isFingerprint _) eqn:Hfp; [|done]. injection Hok as <-.
  pose proof Hfp as [Hlen Hhex]%andb_true_iff.
  split_and!; [by apply Nat.eqb_eq | done | by apply normalizeFingerprint_fixed].
Qed.

End FingerprintFacts.
Lemma normalizeFingerprint_canonical_witness :
  let input :=
    " AB:CD:EF:01:23:45:67:89:AB:CD:EF:01:23:45:67:89:AB:CD:EF:01:23:45:67:89:AB:CD:EF:01:23:45:67:89 " in
  let fp := "abcdef0123456789abcdef0123456789abcdef0123456789abcdef0123456789" in
  Tls.normalizeFingerprint input = Ok fp ∧ Tls.normalizeFingerprint fp = Ok fp.
Proof.
  intros input fp.
  assert (Hin : Tls.normalizeFingerprint input = Ok fp) by (vm_compute; reflexivity).
  split; [exact Hin|].
  exact (proj2 (proj2 (FingerprintFacts.normalizeFingerprint_canonical input fp Hin))).
Defined.

(** ** Verifying the peer *)

Module VerifyFacts.
Import Tls.

Section Verify.
Context `{Sha256, JsonCodec JsonDoc, Collation}.
Variable defaultKnownHostsPath : string.

(** X13: a pinned fingerprint decides alone. With [expectedFingerprint] set
    the verification succeeds exactly when its normal form is the peer's
    fingerprint, fails with [TLS fingerprint mismatch] when it is another
    fingerprint and with the normalisation's error when it is none; the
    known-hosts file is neither read nor written, whatever
    [trustOnFirstUse] says. A certificate that cannot be read fails the
    verification in every mode. *)
Theorem verifyTlsPeer_pinned (options : VerifyTlsPeerOptions)
    (files : gmap string string) :
  (peerCertificateRaw options = None →
   verifyTlsPeer defaultKnownHostsPath options files
   = Throw "cannot read server TLS certificate")
  ∧ ∀ der expected,
      peerCertificateRaw options = Some der →
      expectedFingerprint options = Some expected → expected ≠ "" →
      verifyTlsPeer defaultKnownHostsPath options files
      = match normalizeFingerprint expected with
        | Ok fp =>
            if bool_decide (fp = sha256Hex der) then Ok (files, [])
            else Throw ("TLS fingerprint mismatch: expected=" +:+ fp
                        +:+ " actual=" +:+ sha256Hex der)
        | Throw m => Throw m
        end.
Proof.
  split.
  - intros Hcert. unfold verifyTlsPeer, getPeerFingerprint. by rewrite Hcert.
  - intros der expected Hcert Hpin Hne.
    unfold verifyTlsPeer, getPeerFingerprint. rewrite Hcert, Hpin.
    unfold mbind, Res_bind.
    assert (Htruthy : truthy (Some expected) = true).
    { apply truthy_Some. eauto. }
    rewrite Htruthy. simpl.
    destruct (normalizeFingerprint expected) as [fp|m]; [|done].
    case_bool_decide as Hsame.
    + subst fp. by rewrite bool_decide_eq_true_2.
    + rewrite bool_decide_eq_false_2 by congruence. done.
Qed.

(** X14: the verification writes no file but the known-hosts file, and
    prints a line only when it has written it. *)
Theorem verifyTlsPeer_frame (options : VerifyTlsPeerOptions)
    (files files' : gmap string string) (printed : list string) :
  verifyTlsPeer defaultKnownHostsPath options files = Ok (files', printed) →
  (∀ q, q ≠ default defaultKnownHostsPath (knownHostsPath options) →
        files' !! q = files !! q)
  ∧ (printed = [] → files' = files)
  ∧ (printed ≠ [] →
     truthy (expectedFingerprint options) = false
     ∧ trustOnFirstUse options = true).
Proof.
  unfold verifyTlsPeer, mbind, Res_bind.
  destruct (getPeerFingerprint _) as [peer|]; [|done].
  destruct (truthy (expectedFingerprint options)).
  { destruct (normalizeFingerprint _); [|done].
    case_match; [done|]. intros [= <- <-]. done. }
  destruct (trustOnFirstUse options); simpl; [|intros [= <- <-]; done].
  destruct (loadKnownHosts _ _) as [known|]; [|done].
  destruct (truthy (known !! _)).
  { case_match; [done|]. intros [= <- <-]. done. }
  intros [= <- <-]. split_and!; [|done|done].
  intros q Hq. unfold saveKnownHosts. by rewrite lookup_insert_ne.
Qed.

End Verify.
End VerifyFacts.
Lemma verifyTlsPeer_pinned_witness :
  let pinned :=
    {| Tls.peerCertificateRaw := Some []; Tls.host := "a.local"; Tls.port := 37373;
       Tls.expectedFingerprint := Some TlsExamples.fingerprintB;
       Tls.trustOnFirstUse := true; Tls.knownHostsPath := None |} in
  ∃ m, TlsExamples.verify pinned ∅ = Throw m
       ∧ Str.startsWith "TLS fingerprint mismatch" m = true.
Proof.
  intros pinned.
  destruct (VerifyFacts.verifyTlsPeer_pinned (H := TlsExamples.digestA)
              (H0 := TlsExamples.hostsCodec) (H1 := Examples.codeUnitOrder)
              "/kh" pinned ∅) as [_ Hpin].
  specialize (Hpin [] TlsExamples.fingerprintB eq_refl eq_refl ltac:(done)).
  eexists. split; [exact Hpin|reflexivity].
Defined.

Lemma verifyTlsPeer_frame_witness :
  ∃ files',
    TlsExamples.verify (TlsExamples.firstUse "A.local")
      {["/kh" := "K"; "/other" := "kept"]}
    = Ok (files', ["[tls] trust-on-first-use: a.local:37373 => "
                   +:+ TlsExamples.fingerprintA +:+ Tls.lineFeed])
    ∧ files' !! "/other" = Some "kept".
Proof.
  eexists. split; [vm_compute; reflexivity|].
  refine (eq_trans
    (proj1 (VerifyFacts.verifyTlsPeer_frame (H := TlsExamples.digestA)
       (H0 := TlsExamples.hostsCodec) (H1 := Examples.codeUnitOrder)
       "/kh" (TlsExamples.firstUse "A.local")
       {["/kh" := "K"; "/other" := "kept"]} _ _ _) "/other" _) _).
  - vm_compute. reflexivity.
  - done.
  - vm_compute. reflexivity.
Defined.
(** ** Known hosts, written and read back *)

Module KnownHostsFacts.
Import Tls.

Lemma insertIndexed_perm e l : insertIndexed e l ≡ₚ e :: l.
Proof.
  induction l as [|x l IH]; simpl; [done|].
  destruct (x.1 <? e.1)%N; [|done].
  rewrite IH. apply Permutation_swap.
Qed.

Lemma sortIndexed_perm l : foldr insertIndexed [] l ≡ₚ l.
Proof.
  induction l as [|x l IH]; simpl; [done|].
  by rewrite insertIndexed_perm, IH.
Qed.

(** The object lists every entry once, whatever order it lists them in. *)
Lemma objectFromEntries_perm (l : list (string * string)) :
  objectFromEntries l ≡ₚ l.
Proof.
  unfold objectFromEntries. rewrite sortIndexed_perm.
  unfold indexedEntries, namedEntries.
  induction l as [|e l IH]; [done|]. simpl.
  destruct (arrayIndex e.1) as [n|] eqn:Hidx; simpl.
  - rewrite filter_cons_False by (rewrite Hidx; done).
    by rewrite IH.
  - rewrite filter_cons_True by done.
    rewrite <- Permutation_middle. by rewrite IH.
Qed.

Lemma savedEntries_perm `{Collation} (data : gmap string string) :
  savedEntries data ≡ₚ map_to_list data.
Proof.
  unfold savedEntries. rewrite objectFromEntries_perm.
  apply TlsFacts.sortEntries_perm.
Qed.

Lemma collectKnownHosts_entries (l : list (string * string))
    (result : gmap string string) :
  NoDup l.*1 → Forall (λ e, isFingerprint e.2 = true) l →
  (∀ key, key ∈ l.*1 → result !! key = None) →
  collectKnownHosts (stringEntries l) result = Ok (list_to_map l ∪ result).
Proof.
  revert result. induction l as [|[key fp] l IH]; intros result Hnd Hfp Hfresh.
  - simpl. by rewrite (left_id_L ∅ (∪)).
  - simpl in *. apply NoDup_cons in Hnd as [Hkey Hnd].
    apply Forall_cons in Hfp as [Hhead Hfp]. simpl in Hhead.
    rewrite (FingerprintFacts.normalizeFingerprint_fixed fp Hhead).
    unfold mbind, Res_bind. fold (stringEntries l).
    rewrite IH; [|done|done|].
    + f_equal. rewrite <- insert_union_l. symmetry.
      apply insert_union_r. by apply not_elem_of_list_to_map_1.
    + intros k Hk. rewrite lookup_insert_ne; [|set_solver].
      apply Hfresh. set_solver.
Qed.

Lemma collectKnownHosts_saved `{Collation} (data : gmap string string) :
  WellFormed data →
  collectKnownHosts (stringEntries (savedEntries data)) ∅ = Ok data.
Proof.
  intros Hwf. pose proof (savedEntries_perm data) as Hperm.
  rewrite collectKnownHosts_entries.
  - rewrite (right_id_L ∅ (∪)).
    assert (Heq : list_to_map (savedEntries data)
                  =@{gmap string string} list_to_map (map_to_list data)).
    { apply list_to_map_proper; [|done].
      rewrite Hperm. apply NoDup_fst_map_to_list. }
    by rewrite Heq, list_to_map_to_list.
  - rewrite Hperm. apply NoDup_fst_map_to_list.
  - rewrite Hperm. apply Forall_forall. intros [key fp] Hin.
    apply elem_of_map_to_list in Hin. by apply (Hwf key).
  - intros key _. apply lookup_empty.
Qed.

Section RoundTrip.
Context `{Sha256, JsonCodec JsonDoc, Collation}.

(** X15: what [saveKnownHosts] writes, [loadKnownHosts] reads back: for a
    map of fingerprints in normal form, and a parser that returns the
    object the text denotes, loading the saved file gives the map that was
    saved. *)
Theorem loadKnownHosts_saveKnownHosts (files : gmap string string)
    (filePath : string) (data : gmap string string) :
  WellFormed data →
  decodeJsonLine (stringifyPretty (savedEntries data) +:+ lineFeed)
  = Ok (JsonObject (stringEntries (savedEntries data))) →
  loadKnownHosts (saveKnownHosts files filePath data) filePath = Ok data.
Proof.
  intros Hwf Hparse. unfold loadKnownHosts, saveKnownHosts.
  rewrite lookup_insert_eq. unfold mbind, Res_bind. rewrite Hparse.
  by rewrite collectKnownHosts_saved.
Qed.

(** X16: trust on first use pins the certificate. Once a first connection
    has recorded the peer's fingerprint, and the parser returns the object
    the written text denotes, a connection to the same endpoint passes
    with the same certificate, the files staying as they are, and fails
    with [TLS fingerprint changed] for a certificate with another
    fingerprint. *)
Theorem verifyTlsPeer_second_use (defaultKnownHostsPath : string)
    (options : VerifyTlsPeerOptions) (files files' : gmap string string)
    (der : list byte) (known : gmap string string) (printed : list string) :
  let endpoint := buildEndpointKey (host options) (port options) in
  let path := default defaultKnownHostsPath (knownHostsPath options) in
  let peer := sha256Hex der in
  let entries := savedEntries (<[endpoint := peer]> known) in
  peerCertificateRaw options = Some der →
  truthy (expectedFingerprint options) = false →
  trustOnFirstUse options = true →
  isFingerprint peer = true →
  loadKnownHosts files path = Ok known →
  known !! endpoint = None →
  decodeJsonLine (stringifyPretty entries +:+ lineFeed)
  = Ok (JsonObject (stringEntries entries)) →
  verifyTlsPeer defaultKnownHostsPath options files = Ok (files', printed) →
  verifyTlsPeer defaultKnownHostsPath options files' = Ok (files', [])
  ∧ ∀ der',
      sha256Hex der' ≠ peer →
      verifyTlsPeer defaultKnownHostsPath
        {| peerCertificateRaw := Some der'; host := host options;
           port := port options;
           expectedFingerprint := expectedFingerprint options;
           trustOnFirstUse := true;
           knownHostsPath := knownHostsPath options |} files'
      = Throw ("TLS fingerprint changed for " +:+ endpoint
               +:+ ": expected=" +:+ peer
               +:+ " actual=" +:+ sha256Hex der').
Proof.
  intros endpoint path peer entries Hcert Hpin Htofu Hpeer Hload Hnone
    Hparse Hfirst.
  assert (Hwf : WellFormed (<[endpoint := peer]> known)).
  { intros key fp. rewrite lookup_insert. case_decide.
    - by intros [= <-].
    - apply (TlsFacts.loadKnownHosts_wf _ _ _ Hload). }
  assert (Hfiles : files'
    = saveKnownHosts files path (<[endpoint := peer]> known)).
  { unfold verifyTlsPeer, getPeerFingerprint in Hfirst.
    rewrite Hcert in Hfirst. unfold mbind, Res_bind in Hfirst.
    rewrite Hpin, Htofu in Hfirst. simpl in Hfirst.
    fold endpoint path peer in Hfirst. rewrite Hload, Hnone in Hfirst.
    simpl in Hfirst. by injection Hfirst as <- _. }
  assert (Hreload : loadKnownHosts files' path
    = Ok (<[endpoint := peer]> known)).
  { rewrite Hfiles. unfold loadKnownHosts, saveKnownHosts.
    rewrite lookup_insert_eq. unfold mbind, Res_bind.
    fold entries. rewrite Hparse. unfold entries.
    by rewrite collectKnownHosts_saved. }
  assert (Htruthy : truthy (Some peer) = true).
  { apply truthy_Some. exists peer. split; [done|].
    by apply TlsFacts.isFingerprint_nonempty. }
  split.
  - unfold verifyTlsPeer, getPeerFingerprint. rewrite Hcert.
    unfold mbind, Res_bind. rewrite Hpin, Htofu. simpl.
    fold endpoint path peer. rewrite Hreload, lookup_insert_eq, Htruthy.
    by rewrite bool_decide_eq_true_2.
  - intros der' Hne. unfold verifyTlsPeer, getPeerFingerprint. simpl.
    unfold mbind, Res_bind. rewrite Hpin. simpl.
    fold endpoint path. rewrite Hreload, lookup_insert_eq, Htruthy.
    rewrite bool_decide_eq_false_2 by congruence. done.
Qed.

End RoundTrip.
End KnownHostsFacts.
Lemma loadKnownHosts_saveKnownHosts_witness :
  Tls.loadKnownHosts (H := KnownHostsExamples.savedCodec KnownHostsExamples.hostA)
    (Tls.saveKnownHosts (H := Examples.codeUnitOrder) ∅ "/kh"
       KnownHostsExamples.hostA) "/kh"
  = Ok KnownHostsExamples.hostA.
Proof.
  apply (KnownHostsFacts.loadKnownHosts_saveKnownHosts
           (H0 := KnownHostsExamples.savedCodec KnownHostsExamples.hostA)
           (H1 := Examples.codeUnitOrder)).
  - intros key fp Hentry. unfold KnownHostsExamples.hostA in Hentry.
    apply lookup_singleton_Some in Hentry as [_ <-]. reflexivity.
  - vm_compute. reflexivity.
Defined.

Lemma verifyTlsPeer_second_use_witness :
  ∃ files' m,
    KnownHostsExamples.verify (KnownHostsExamples.certificate []) ∅
    = Ok (files', ["[tls] trust-on-first-use: a.local:37373 => "
                   +:+ TlsExamples.fingerprintA +:+ Tls.lineFeed])
    ∧ KnownHostsExamples.verify (KnownHostsExamples.certificate []) files'
      = Ok (files', [])
    ∧ KnownHostsExamples.verify
        (KnownHostsExamples.certificate (Examples.bytes "other")) files'
      = Throw m
    ∧ Str.startsWith "TLS fingerprint changed for a.local:37373" m = true.
Proof.
  exists (Tls.saveKnownHosts (H := Examples.codeUnitOrder) ∅ "/kh"
            KnownHostsExamples.hostA).
  eexists.
  assert (Hfirst :
    KnownHostsExamples.verify (KnownHostsExamples.certificate []) ∅
    = Ok (Tls.saveKnownHosts (H := Examples.codeUnitOrder) ∅ "/kh"
            KnownHostsExamples.hostA,
          ["[tls] trust-on-first-use: a.local:37373 => "
           +:+ TlsExamples.fingerprintA +:+ Tls.lineFeed]))
    by (vm_compute; reflexivity).
  destruct (KnownHostsFacts.verifyTlsPeer_second_use
              (H := KnownHostsExamples.digestAB)
              (H0 := KnownHostsExamples.savedCodec KnownHostsExamples.hostA)
              (H1 := Examples.codeUnitOrder)
              "/kh" (KnownHostsExamples.certificate []) ∅
              (Tls.saveKnownHosts (H := Examples.codeUnitOrder) ∅ "/kh"
                 KnownHostsExamples.hostA)
              [] ∅
              ["[tls] trust-on-first-use: a.local:37373 => "
               +:+ TlsExamples.fingerprintA +:+ Tls.lineFeed])
    as [Hsame Hchanged];
    [reflexivity | reflexivity | reflexivity | reflexivity
    | vm_compute; reflexivity | apply lookup_empty
    | vm_compute; reflexivity | exact Hfirst |].
  split; [exact Hfirst|]. split; [exact Hsame|]. split.
  - apply (Hchanged (Examples.bytes "other")). discriminate.
  - reflexivity.
Defined.
(** ** Endpoint keys *)

Module EndpointFacts.
Import Tls.

Lemma colonFree_pretty_N_go (x : N) (s : string) :
  colonFree s = true → colonFree (pretty_N_go x s) = true.
Proof.
  revert s. induction (N.lt_wf_0 x) as [x _ IH]; intros s Hs.
  destruct (decide (x = 0)%N) as [->|Hx]; [by rewrite pretty_N_go_0|].
  rewrite pretty_N_go_step by lia.
  apply IH; [apply N.div_lt; lia|]. simpl. rewrite Hs.
  unfold pretty_N_char. by repeat case_match.
Qed.

Lemma colonFree_pretty_Z (z : Z) : colonFree (pretty z) = true.
Proof.
  destruct z as [|p|p]; [done| |].
  - unfold pretty, pretty_Z, pretty, pretty_positive, pretty, pretty_N.
    case_decide; [done|]. by apply colonFree_pretty_N_go.
  - unfold pretty, pretty_Z.
    change (colonFree (String "-" (pretty p)) = true). simpl.
    unfold pretty, pretty_positive, pretty, pretty_N.
    case_decide; [done|]. by apply colonFree_pretty_N_go.
Qed.

(** The last colon of a key splits it in one way only. *)
Lemma append_colon_inj (a b c d : string) :
  colonFree c = true → colonFree d = true →
  a +:+ String ":" c = b +:+ String ":" d → a = b ∧ c = d.
Proof.
  intros Hc Hd. revert b. induction a as [|x a IH]; intros [|y b] Heq.
  - by injection Heq as <-.
  - change (String ":" c = String y (b +:+ String ":" d)) in Heq.
    injection Heq as <- ->. exfalso. clear -Hc.
    induction b as [|z b IHb].
    + change ("" +:+ String ":" d) with (String ":" d) in Hc. done.
    + change (String z b +:+ String ":" d) with (String z (b +:+ String ":" d)) in Hc.
      simpl in Hc. apply andb_true_iff in Hc as [_ Hc]. auto.
  - change (String x (a +:+ String ":" c) = String ":" d) in Heq.
    injection Heq as -> <-. exfalso. clear -Hd.
    induction a as [|z a IHa].
    + change ("" +:+ String ":" c) with (String ":" c) in Hd. done.
    + change (String z a +:+ String ":" c) with (String z (a +:+ String ":" c)) in Hd.
      simpl in Hd. apply andb_true_iff in Hd as [_ Hd]. auto.
  - change (String x (a +:+ String ":" c) = String y (b +:+ String ":" d)) in Heq.
    injection Heq as -> Heq. destruct (IH _ Heq) as [-> ->]. done.
Qed.

(** X17: two endpoints share a key in the known-hosts map only when their
    ports are the same and their hosts differ at most in the case of
    letters. *)
Theorem buildEndpointKey_inj (host1 host2 : string) (port1 port2 : Z) :
  buildEndpointKey host1 port1 = buildEndpointKey host2 port2 ↔
  Str.toLowerCase host1 = Str.toLowerCase host2 ∧ port1 = port2.
Proof.
  unfold buildEndpointKey. split.
  - intros Heq.
    change (Str.toLowerCase host1 +:+ String ":" (pretty port1)
            = Str.toLowerCase host2 +:+ String ":" (pretty port2)) in Heq.
    apply append_colon_inj in Heq as [Hhost Hport];
      try apply colonFree_pretty_Z.
    split; [done|]. by apply (inj pretty).
  - by intros [-> ->].
Qed.

End EndpointFacts.
(** ** Pair codes over time *)

Lemma ttlTick_idle (options : ListenOptions) (now seconds : Z)
    (gen : nat → string) (p : Pairing) :
  pairCodeTtlSeconds options = Some seconds → 0 < seconds →
  generatePairCode options = Some gen →
  truthy (currentCode (state p)) = true →
  activeTransfers (state p) = 0 →
  state (ttlTick options now p)
  = {| currentCode := Some (generateNext gen (currentCode (state p)) (genCalls p)).1;
       previousCode := currentCode (state p);
       previousCodeValidUntilMs := now + seconds * 1000;
       activeTransfers := 0 |}.
Proof.
  intros Httl Hpos Hgen Hcur Hidle.
  unfold ttlTick, rotatePairCode, ttlMsTruthy, ttlMs.
  rewrite Hidle, Hgen, Httl. simpl.
  unfold truthy in Hcur. destruct (falsy (currentCode (state p))); [done|].
  destruct (generateNext gen (currentCode (state p)) (genCalls p)) as [next calls].
  destruct (Z.eqb_spec seconds 0); [lia|].
  destruct (Z.eqb_spec (seconds * 1000) 0); [lia|].
  reflexivity.
Qed.

(** X10: the grace period of a TTL rotation. After a tick that rotated, a
    header is admitted exactly when it carries the new code, or carries the
    code that was replaced and arrives no later than one TTL after the
    tick (or when the generator returned the empty string, which leaves the
    receiver without a code). *)
Theorem ttlTick_grace_period (options : ListenOptions) (now seconds : Z)
    (gen : nat → string) (p : Pairing) (incomingCode : option string) (t : Z) :
  pairCodeTtlSeconds options = Some seconds → 0 < seconds →
  generatePairCode options = Some gen →
  truthy (currentCode (state p)) = true →
  activeTransfers (state p) = 0 →
  let rotated := state (ttlTick options now p) in
  isPairCodeAccepted rotated incomingCode t = true ↔
    currentCode rotated = Some ""
    ∨ incomingCode = currentCode rotated
    ∨ (incomingCode = currentCode (state p) ∧ t ≤ now + seconds * 1000).
Proof.
  intros Httl Hpos Hgen Hcur Hidle rotated. subst rotated.
  rewrite (ttlTick_idle options now seconds gen p) by done.
  set (next := (generateNext gen (currentCode (state p)) (genCalls p)).1).
  unfold isPairCodeAccepted. simpl. rewrite Hcur. simpl.
  unfold Str.falsy.
  case_bool_decide as Hempty; [split; [left; by f_equal|done]|].
  case_bool_decide as Hnew; [split; auto|].
  case_bool_decide as Hold; simpl.
  - destruct (Z.leb_spec t (now + seconds * 1000)).
    + split; auto.
    + split; [done|]. intros [[= Hnext]|[?|[_ ?]]]; [done|done|lia].
  - split; [done|]. intros [[= Hnext]|[?|[? _]]]; done.
Qed.

Lemma ttlTick_grace_period_witness :
  let options := Examples.options (Some "777777") false (Some 2) in
  let rotated := state (ttlTick options 5000 (Examples.idle (Some "777777"))) in
  isPairCodeAccepted rotated (Some "777777") 7000 = true
  ∧ isPairCodeAccepted rotated (Some "777777") 7001 = false.
Proof.
  intros options rotated.
  pose proof (λ t, ttlTick_grace_period options 5000 2
                (λ n, nth n ["654321"; "111222"; "333444"] "999999")
                (Examples.idle (Some "777777")) (Some "777777") t
                eq_refl ltac:(lia) eq_refl eq_refl eq_refl) as Hgrace.
  split.
  - apply (Hgrace 7000). right. right. split; [reflexivity|lia].
  - destruct (isPairCodeAccepted rotated (Some "777777") 7001) eqn:Hlate; [|done].
    apply (Hgrace 7001) in Hlate as [Hlate|[Hlate|[_ Hlate]]];
      [discriminate Hlate|discriminate Hlate|lia].
Defined.

(** X11: a per-transfer rotation ends every older code at once. After
    [rotatePairCodeOnce] a header is admitted exactly when it carries the
    code just generated: the code that was replaced is refused unless the
    generator repeated it, and so is a previous code still in the grace
    period of a TTL rotation. (A generator that returns the empty string
    leaves the receiver admitting every header.) *)
Theorem rotatePairCodeOnce_admission (st : PairingState) (gen : nat → string)
    (calls : nat) (incomingCode : option string) (t : Z) :
  let '(nextCode, rotated, _) := rotatePairCodeOnce st gen calls in
  currentCode rotated = Some nextCode
  ∧ (isPairCodeAccepted rotated incomingCode t = true ↔
       nextCode = "" ∨ incomingCode = Some nextCode).
Proof.
  unfold rotatePairCodeOnce.
  destruct (generateNext gen (currentCode st) calls) as [nextCode calls'].
  split; [done|].
  unfold isPairCodeAccepted. simpl. unfold Str.falsy.
  case_bool_decide as Hempty; [split; auto|].
  case_bool_decide as Hnew; [split; auto|].
  split; [done|]. intros [?|?]; done.
Qed.
(** ** Starting the receiver *)

(** X8: what [startReceiver] makes of its pairing options. Rotation per
    transfer or a TTL other than 0 needs a generator, and a negative TTL is
    refused; a TTL of 0 counts as none. Where the receiver starts, no
    transfer is active and no previous code is kept, the current code is
    the configured one, or the generator's first code when rotation or a
    TTL is asked for and no code is configured, and the timer exists
    exactly when the TTL is positive and the current code is not empty. *)
Theorem startReceiver_options (options : ListenOptions) (fs : gmap string Node) :
  let rotation :=
    rotatePairCodePerTransfer options
    || match pairCodeTtlSeconds options with
       | Some seconds => negb (seconds =? 0) | None => false end in
  (rotation = true → generatePairCode options = None →
   startReceiver options fs
   = Throw "generatePairCode is required when pair code rotation is enabled")
  ∧ (∀ seconds gen,
       pairCodeTtlSeconds options = Some seconds → seconds < 0 →
       generatePairCode options = Some gen →
       startReceiver options fs = Throw "pairCodeTtlSeconds must be positive")
  ∧ ∀ r timer,
      startReceiver options fs = Ok (r, timer) →
      rc_files r = fs ∧ rc_open r = O
      ∧ activeTransfers (state (rc_pairing r)) = 0
      ∧ previousCode (state (rc_pairing r)) = None
      ∧ currentCode (state (rc_pairing r))
        = match generatePairCode options with
          | Some gen =>
              if rotation && falsy (pairCode options)
              then Some (gen O) else pairCode options
          | None => pairCode options
          end
      ∧ (timer = true ↔
           (∃ seconds, pairCodeTtlSeconds options = Some seconds ∧ 0 < seconds)
           ∧ truthy (currentCode (state (rc_pairing r))) = true).
Proof.
  intros rotation. subst rotation.
  unfold startReceiver, startPairing, ttlMsTruthy, ttlMs, mbind, Res_bind.
  split_and!.
  - intros Hrot Hgen. rewrite Hrot, Hgen. done.
  - intros seconds gen Httl Hneg Hgen. rewrite Httl, Hgen. simpl.
    rewrite andb_false_r.
    destruct (Z.eqb_spec seconds 0); [lia|].
    destruct (Z.leb_spec seconds 0); [done|lia].
  - intros r timer.
    destruct (pairCodeTtlSeconds options) as [seconds|] eqn:Httl;
      destruct (generatePairCode options) as [gen|] eqn:Hgen;
      destruct (rotatePairCodePerTransfer options) eqn:Hrot;
      destruct (falsy (pairCode options)) eqn:Hcode; simpl;
      try destruct (Z.eqb_spec seconds 0); simpl;
      try destruct (Z.leb_spec seconds 0); simpl;
      try destruct (Z.eqb_spec (seconds * 1000) 0); simpl;
      try done; try lia.
    all: intros [= <- <-]; simpl; split_and!; try done.
    all: unfold truthy; simpl; rewrite ?Hcode; simpl.
    all: split; [intros Ht | intros [(s & Hs & Hpos) Ht]]; simplify_eq;
      try done; try lia.
    all: split; [exists seconds; split; [done|lia]|done].
Qed.
Lemma startReceiver_options_witness :
  ∃ r, startReceiver (Examples.options None true (Some 0)) ∅ = Ok (r, false)
       ∧ currentCode (state (rc_pairing r)) = Some "654321".
Proof.
  destruct (startReceiver (Examples.options None true (Some 0)) ∅)
    as [[r timer]|m] eqn:Hstart; [|discriminate Hstart].
  pose proof (proj2 (proj2 (startReceiver_options
    (Examples.options None true (Some 0)) ∅)) r timer Hstart)
    as (_ & _ & _ & _ & Hcode & Htimer).
  exists r. split; [|exact Hcode].
  destruct timer; [|reflexivity].
  destruct (proj1 Htimer eq_refl) as [(seconds & [= <-] & Hpos) _]. lia.
Defined.

(** X9: a receiver that starts with a pair code keeps one. When a code is
    configured, or rotation per transfer or a TTL is asked for, and the
    generator never returns the empty string, the current code is non-empty in
    every state the receiver reaches, whatever connections, sessions and
    timer ticks led there: no header is then admitted for want of a
    code. *)
Theorem startReceiver_stays_paired `{Sha256, PathOps, JsonCodec TransferHeader}
    (options : ListenOptions) (fs : gmap string Node) (start r : Receiver)
    (timer : bool) :
  startReceiver options fs = Ok (start, timer) →
  (∀ gen n, generatePairCode options = Some gen → gen n ≠ "") →
  truthy (pairCode options) = true
  ∨ rotatePairCodePerTransfer options = true
  ∨ (∃ seconds, pairCodeTtlSeconds options = Some seconds ∧ seconds ≠ 0) →
  reachable options timer start r →
  truthy (currentCode (state (rc_pairing r))) = true
  ∧ ∀ incomingCode t,
      isPairCodeAccepted (state (rc_pairing r)) incomingCode t = true →
      incomingCode = currentCode (state (rc_pairing r))
      ∨ incomingCode = previousCode (state (rc_pairing r)).
Proof.
  intros Hstart Hcontract Hasked Hreach.
  assert (Hfirst : truthy (currentCode (state (rc_pairing start))) = true).
  { clear Hreach. revert Hstart.
    unfold startReceiver, startPairing, ttlMsTruthy, ttlMs, mbind, Res_bind.
    assert (Hgen0 : ∀ gen, generatePairCode options = Some gen →
              truthy (Some (gen O)) = true).
    { intros gen Hgen. apply truthy_Some. eauto. }
    unfold truthy in *.
    destruct (pairCodeTtlSeconds options) as [seconds|] eqn:Httl;
      destruct (generatePairCode options) as [gen|] eqn:Hgen;
      destruct (rotatePairCodePerTransfer options) eqn:Hrot;
      destruct (falsy (pairCode options)) eqn:Hcode; simpl;
      try destruct (Z.eqb_spec seconds 0); simpl;
      try destruct (Z.leb_spec seconds 0); simpl;
      try destruct (Z.eqb_spec (seconds * 1000) 0); simpl;
      try done.
    all: intros [= <- _]; simpl; rewrite ?Hcode; try done; eauto.
    all: destruct Hasked as [?|[?|(s & ? & ?)]]; simplify_eq; done. }
  pose proof (reachable_current_truthy options Hcontract timer start r
                Hfirst Hreach) as Hcur.
  split; [exact Hcur|].
  intros incomingCode t. unfold isPairCodeAccepted.
  unfold truthy in Hcur. apply negb_true_iff in Hcur. rewrite Hcur.
  case_bool_decide; [auto|].
  destruct (truthy (previousCode _)); simpl; [|done].
  case_bool_decide; [auto|done].
Qed.
Lemma startReceiver_stays_paired_witness :
  let start :=
    {| rc_pairing := Examples.idle (Some "123456"); rc_files := ∅;
       rc_open := O |} in
  let r :=
    {| rc_pairing := countTransfer (rc_pairing start);
       rc_files := rc_files start; rc_open := 1 |} in
  startReceiver Examples.rotating ∅ = Ok (start, false)
  ∧ activeTransfers (state (rc_pairing r)) = 1
  ∧ truthy (currentCode (state (rc_pairing r))) = true.
Proof.
  intros start r. split; [reflexivity|]. split; [reflexivity|].
  refine (proj1 (startReceiver_stays_paired (H := Examples.checksum)
    (H0 := Examples.posixPaths) (H1 := Examples.codec)
    Examples.rotating ∅ start r false eq_refl _ _ _)).
  - intros gen n Hgen. injection Hgen as <-.
    destruct n as [|[|[|[|n]]]]; simpl; discriminate.
  - left. reflexivity.
  - eapply reach_step; [apply reach_start|apply step_accept].
Defined.
(** ** Choosing and promoting the target *)

Section Targets.
Context `{PathOps}.




Lemma promoteFrom_frame (fault : string → option string)
    (fs : gmap string Node) (temp target : string) (attempts index : nat)
    (saved : string) (fs' : gmap string Node) :
  promoteFrom fault fs temp target attempts index = Ok (saved, fs') →
  ∃ node chosen,
    fs !! temp = Some node
    ∧ (index ≤ chosen < index + attempts)%nat
    ∧ saved = duplicatePathWithIndex target chosen
    ∧ (saved ≠ temp → fs' !! saved = Some node ∧ fs' !! temp = None)
    ∧ (∀ q, q ≠ saved → q ≠ temp → fs' !! q = fs !! q)
    ∧ (fault saved = None ∨ fault saved = Some "EXDEV")
    ∧ ∀ j, (index ≤ j < chosen)%nat →
        fault (duplicatePathWithIndex target j) = Some "EEXIST"
        ∨ fault (duplicatePathWithIndex target j) = Some "ENOTEMPTY".
Proof.
  revert index. induction attempts as [|attempts IH]; intros index; simpl;
    [done|].
  unfold rename, copyThenRemove.
  destruct (fs !! temp) as [node|] eqn:Htemp; [|by rewrite bool_decide_eq_true_2].
  destruct (fault (duplicatePathWithIndex target index)) as [code|] eqn:Hfault.
  - case_bool_decide as Hnoent; [done|].
    case_bool_decide as Hxdev.
    + intros [= <- <-]. exists node, index.
      split; [done|]. split; [lia|]. split; [done|]. split.
      { intros Hne. rewrite lookup_delete_ne, lookup_insert_eq by done.
        by rewrite lookup_delete_eq. }
      split.
      { intros q Hq1 Hq2. by rewrite lookup_delete_ne, lookup_insert_ne. }
      split; [right; congruence|]. intros j Hj. lia.
    + destruct (bool_decide (code = "EEXIST") || bool_decide (code = "ENOTEMPTY"))
        eqn:Hretry; [|done].
      intros Hrest.
      destruct (IH _ Hrest) as (node' & chosen & Hn & Hrange & Hs & Hmoved & Hframe & Hlast & Hbusy).
      exists node', chosen.
      split; [done|]. split; [lia|]. split; [done|]. split; [done|].
      split; [done|]. split; [done|].
      intros j Hj. destruct (decide (j = index)) as [->|Hne].
      * rewrite Hfault. apply orb_true_iff in Hretry as [Hc|Hc];
          apply bool_decide_eq_true in Hc; subst code; auto.
      * apply Hbusy. lia.
  - intros [= <- <-]. exists node, index.
    split; [done|]. split; [lia|]. split; [done|]. split.
    { intros Hne. rewrite lookup_insert_eq.
      by rewrite lookup_insert_ne, lookup_delete_eq. }
    split.
    { intros q Hq1 Hq2. by rewrite lookup_insert_ne, lookup_delete_ne. }
    split; [by left|]. intros j Hj. lia.
Qed.

(** X3: what [promoteReceivedFile] does to the files. When it succeeds the
    temp file existed, its content is now under the returned name and the
    temp name is gone, and no other path has changed; the returned name is
    the first of [target], [target(1)], ... that the platform did not
    refuse with [EEXIST] or [ENOTEMPTY]. With no temp file it fails with
    [temporary receive file is missing] and leaves the files alone. *)
Theorem promoteReceivedFile_frame (fault : string → option string)
    (fs : gmap string Node) (temp target : string) :
  match promoteReceivedFile fault fs temp target with
  | Ok (saved, fs') =>
      ∃ node chosen,
        fs !! temp = Some node
        ∧ (chosen < MAX_DUPLICATE_SUFFIX_ATTEMPTS)%nat
        ∧ saved = duplicatePathWithIndex target chosen
        ∧ (saved ≠ temp → fs' !! saved = Some node ∧ fs' !! temp = None)
        ∧ (∀ q, q ≠ saved → q ≠ temp → fs' !! q = fs !! q)
        ∧ ∀ j, (j < chosen)%nat →
            fault (duplicatePathWithIndex target j) = Some "EEXIST"
            ∨ fault (duplicatePathWithIndex target j) = Some "ENOTEMPTY"
  | Throw m =>
      fs !! temp = None → m = "temporary receive file is missing"
  end.
Proof.
  unfold promoteReceivedFile.
  destruct (promoteFrom fault fs temp target MAX_DUPLICATE_SUFFIX_ATTEMPTS O)
    as [[saved fs']|m] eqn:Hrun.
  - apply promoteFrom_frame in Hrun
      as (node & chosen & Hn & Hrange & Hs & Hmoved & Hframe & _ & Hbusy).
    exists node, chosen.
    split; [done|]. split; [lia|]. split; [done|]. split; [done|].
    split; [done|]. intros j Hj. apply Hbusy. lia.
  - intros Hnone.
    assert (Hpos : MAX_DUPLICATE_SUFFIX_ATTEMPTS ≠ O).
    { unfold MAX_DUPLICATE_SUFFIX_ATTEMPTS. lia. }
    destruct MAX_DUPLICATE_SUFFIX_ATTEMPTS as [|attempts]; [done|].
    simpl in Hrun. unfold rename in Hrun. rewrite Hnone in Hrun.
    rewrite bool_decide_eq_true_2 in Hrun by done. by injection Hrun as <-.
Qed.
End Targets.
(** ** The shape of an accepted path *)

Module PathFacts.

Lemma split_slashFree (s : string) :
  Str.split s ≠ [] ∧ Forall (λ seg, slashFree seg = true) (Str.split s).
Proof.
  induction s as [|a s [Hne IH]]; simpl.
  - split; [done|]. by repeat constructor.
  - destruct (Ascii.eqb a "/") eqn:Ha.
    + split; [done|]. by constructor.
    + destruct (Str.split s) as [|x xs]; [done|]. split; [done|].
      apply Forall_cons in IH as [Hx Hxs]. constructor; [|done].
      simpl. by rewrite Ha, Hx.
Qed.

Lemma plainSegment_not_dotdot (seg : string) :
  plainSegment seg = true → seg ≠ "..".
Proof.
  unfold plainSegment. intros Hp ->. done.
Qed.

Lemma normalizeSegment_Built (allow : bool) (res : list string) (seg : string) :
  slashFree seg = true → Built allow res →
  Built allow (Posix.normalizeSegment allow res seg).
Proof.
  intros Hseg (k & others & -> & Hplain & Hk). unfold Posix.normalizeSegment.
  case_bool_decide as Hempty; [by exists k, others|].
  case_bool_decide as Hdot; [by exists k, others|]. simpl.
  case_bool_decide as Hdotdot.
  - destruct others as [|top others]; simpl.
    + destruct k as [|k]; simpl.
      * destruct allow; [by exists 1%nat, []|by exists O, []].
      * rewrite ?bool_decide_eq_true_2 by done.
        destruct allow; [by exists (S (S k)), []|by exists (S k), []].
    + apply Forall_cons in Hplain as [Htop Hplain].
      rewrite bool_decide_eq_false_2 by by apply plainSegment_not_dotdot.
      by exists k, others.
  - exists k, (seg :: others). split; [done|]. split; [|done].
    constructor; [|done]. unfold plainSegment.
    by rewrite !bool_decide_eq_false_2, Hseg.
Qed.

Lemma fold_normalizeSegment_Built (allow : bool) (segs res : list string) :
  Forall (λ seg, slashFree seg = true) segs → Built allow res →
  Built allow (fold_left (Posix.normalizeSegment allow) segs res).
Proof.
  intros Hsegs. revert res. induction Hsegs as [|seg segs Hseg _ IH];
    intros res Hres; simpl; [done|].
  apply IH. by apply normalizeSegment_Built.
Qed.

Lemma rev_repeat {A} (x : A) (k : nat) : rev (repeat x k) = repeat x k.
Proof.
  induction k as [|k IH]; [done|]. simpl. rewrite IH.
  symmetry. apply repeat_cons.
Qed.

Lemma join_cons (x y : string) (l : list string) :
  Str.join (x :: y :: l) = x +:+ "/" +:+ Str.join (y :: l).
Proof. reflexivity. Qed.

Lemma stripLeadingSlashes_plain (x rest : string) :
  x ≠ "" → slashFree x = true →
  Str.stripLeadingSlashes (x +:+ rest) = x +:+ rest.
Proof.
  destruct x as [|a x]; [done|]. intros _ Hx. simpl in Hx.
  apply andb_true_iff in Hx as [Ha _]. apply negb_true_iff in Ha.
  change (String a x +:+ rest) with (String a (x +:+ rest)). simpl.
  by rewrite Ha.
Qed.

(** The segments [normalizeString] returns. *)
Lemma normalizeString_segments (path : string) (allow : bool) :
  ∃ k plain,
    Posix.normalizeString path allow = Str.join (repeat ".." k ++ plain)
    ∧ Forall (λ seg, plainSegment seg = true) plain
    ∧ (allow = false → k = O).
Proof.
  unfold Posix.normalizeString.
  destruct (fold_normalizeSegment_Built allow (Str.split path) [])
    as (k & others & -> & Hplain & Hk).
  - apply split_slashFree.
  - by exists O, [].
  - exists k, (rev others). rewrite rev_app_distr, rev_repeat.
    split; [done|]. split; [|done]. by apply Forall_rev.
Qed.

Lemma plainSegment_head (x : string) (l : list string) (tail : string) :
  plainSegment x = true →
  ∃ rest, Str.join (x :: l) +:+ tail = x +:+ rest.
Proof.
  intros _. destruct l as [|y l].
  - by exists tail.
  - rewrite join_cons. exists ("/" +:+ Str.join (y :: l) +:+ tail).
    by rewrite !append_assoc.
Qed.

Lemma plainSegment_inv (x : string) :
  plainSegment x = true → x ≠ "" ∧ slashFree x = true.
Proof.
  unfold plainSegment. intros Hp.
  repeat (apply andb_true_iff in Hp as [Hp ?]).
  apply negb_true_iff, bool_decide_eq_false in Hp. done.
Qed.

(** X1: the shape of an accepted path. What [normalizeTransferPath]
    returns is [./], or a sequence of one or more plain segments joined by
    slashes, with or without a slash at the end: no segment is empty, [.]
    or [..], so the path does not start with a slash and never steps to a
    parent directory. *)
Theorem normalizeTransferPath_shape (input normalized : string) :
  normalizeTransferPath input = Ok normalized →
  normalized = "./"
  ∨ ∃ segments,
      segments ≠ []
      ∧ Forall (λ seg, plainSegment seg = true) segments
      ∧ (normalized = Str.join segments
         ∨ normalized = Str.join segments +:+ "/").
Proof.
  unfold normalizeTransferPath.
  set (unixPath := Str.trim (Str.replaceBackslashes input)).
  destruct (invalidNormalized _) eqn:Hvalid; [done|]. intros [= <-].
  revert Hvalid. unfold Posix.normalize.
  case_bool_decide as Hpath; [done|].
  set (absolute := Str.startsWith "/" unixPath).
  destruct (normalizeString_segments unixPath (negb absolute))
    as (k & plain & -> & Hplain & Hk).
  set (trailing := Str.endsWithSlash unixPath).
  case_bool_decide as Hbody.
  { destruct absolute; [done|]. destruct trailing; [by left|done]. }
  assert (Hstrip : ∀ body,
    (∃ x rest, body = x +:+ rest ∧ x ≠ "" ∧ slashFree x = true) →
    Str.stripLeadingSlashes (if absolute then "/" +:+ body else body) = body).
  { intros body (x & rest & -> & Hx & Hfree). destruct absolute.
    - change ("/" +:+ (x +:+ rest)) with (String "/" (x +:+ rest)). simpl.
      by apply stripLeadingSlashes_plain.
    - by apply stripLeadingSlashes_plain. }
  destruct k as [|k]; simpl in *.
  - (* no [..] at the start *)
    destruct plain as [|x plain]; [done|].
    pose proof Hplain as [Hx _]%Forall_cons.
    apply plainSegment_inv in Hx as [Hx Hfree].
    intros _. right. exists (x :: plain). split; [done|]. split; [done|].
    destruct trailing.
    + destruct (plainSegment_head x plain "/") as [rest Hrest];
        [by apply Forall_cons in Hplain as [? _]|].
      rewrite Hstrip by (exists x, rest; done). by right.
    + destruct (plainSegment_head x plain "") as [rest Hrest];
        [by apply Forall_cons in Hplain as [? _]|].
      rewrite append_empty_r in Hrest.
      rewrite Hstrip by (exists x, rest; done). by left.
  - (* the path starts with [..]: it is refused *)
    destruct absolute eqn:Habs; [by specialize (Hk eq_refl)|].
    intros Hvalid. exfalso. revert Hvalid.
    destruct (repeat ".." k ++ plain) as [|y l] eqn:Hrest.
    + change (Str.join [".."]) with "..".
      destruct trailing; simpl; done.
    + assert (Hempty : ∀ s, String.prefix "" s = true) by (by intros [|??]).
      rewrite join_cons.
      change (".." +:+ "/" +:+ Str.join (y :: l))
        with (String "." (String "." (String "/" (Str.join (y :: l))))).
      destruct trailing; simpl.
      * change (String "." (String "." (String "/" (Str.join (y :: l)))) +:+ "/")
          with (String "." (String "." (String "/" (Str.join (y :: l) +:+ "/")))).
        unfold invalidNormalized, Str.startsWith. simpl.
        by rewrite Hempty.
      * unfold invalidNormalized, Str.startsWith. simpl.
        by rewrite Hempty.
Qed.

End PathFacts.
Lemma normalizeTransferPath_shape_witness :
  normalizeTransferPath " \docs\..\a//b.txt" = Ok "a/b.txt"
  ∧ ("a/b.txt" = "./"
     ∨ ∃ segments,
         segments ≠ []
         ∧ Forall (λ seg, plainSegment seg = true) segments
         ∧ ("a/b.txt" = Str.join segments
            ∨ "a/b.txt" = Str.join segments +:+ "/")).
Proof.
  assert (Hrun : normalizeTransferPath " \docs\..\a//b.txt" = Ok "a/b.txt")
    by (vm_compute; reflexivity).
  split; [exact Hrun|].
  exact (PathFacts.normalizeTransferPath_shape _ _ Hrun).
Defined.
(** ** The reader over a stream cut into chunks *)

Lemma splitAtNewline_Some (b line after : list byte) :
  splitAtNewline b = Some (line, after) →
  b = line ++ newline :: after ∧ splitAtNewline line = None.
Proof.
  revert line. induction b as [|x b IH]; intros line; simpl; [done|].
  destruct (Byte.eqb x newline) eqn:Hx.
  - intros [= <- <-]. apply Byte.byte_dec_bl in Hx as ->. done.
  - destruct (splitAtNewline b) as [[l a]|]; [|done].
    intros [= <- <-]. destruct (IH l eq_refl) as [-> Hl].
    split; [done|]. simpl. by rewrite Hx, Hl.
Qed.

Lemma splitAtNewline_app_l (a b : list byte) :
  splitAtNewline a = None →
  splitAtNewline (a ++ b)
  = match splitAtNewline b with
    | Some (line, after) => Some (a ++ line, after)
    | None => None
    end.
Proof.
  intros Ha. induction a as [|x a IH]; simpl in *.
  - by destruct (splitAtNewline b) as [[? ?]|].
  - destruct (Byte.eqb x newline); [done|].
    destruct (splitAtNewline a) as [[? ?]|]; [done|].
    rewrite IH by done. by destruct (splitAtNewline b) as [[? ?]|].
Qed.
Lemma deliver_Data (c : list byte) (r : SocketReader) :
  deliver (Data c) r
  = {| buffer := buffer r ++ c; ended := ended r; error := error r |}.
Proof.
  unfold deliver. case_bool_decide as Hb; [|done]. by rewrite Hb.
Qed.

(** A line that arrives in pieces: however the stream is cut into chunks,
    the reader returns the line up to the first newline, as long as the line
    is within the bound, and keeps what follows it. *)
Lemma readLineMessage_chunks {T} `{JsonCodec T} (label : string)
    (chunks : list (list byte)) (rest : list SocketEvent) (r : SocketReader)
    (line after : list byte) :
  error r = None → ended r = false →
  splitAtNewline line = None →
  bufferLength line ≤ HEADER_MAX_BYTES →
  buffer r ++ concat chunks = line ++ newline :: after →
  ∃ kept chunks',
    readLineMessage label ((Data <$> chunks) ++ rest) r
    = (match decodeJsonLine (Str.trim (string_of_list_byte line)) with
       | Ok v => Got v
       | Throw m => Failed ("invalid " +:+ label +:+ ": " +:+ m)
       end,
       {| buffer := kept; ended := false; error := None |},
       (Data <$> chunks') ++ rest)
    ∧ kept ++ concat chunks' = after
    ∧ (length chunks' ≤ length chunks)%nat.
Proof.
  intros Herr Hend Hline Hbound. revert r Herr Hend.
  induction chunks as [|c chunks IH]; intros r Herr Hend Hstream.
  - simpl in Hstream. rewrite app_nil_r in Hstream.
    exists after, []. split; [|by rewrite app_nil_r].
    erewrite readLineMessage_line; [|done|].
    + by rewrite Hend, Herr.
    + rewrite Hstream. by apply splitAtNewline_app.
  - destruct (splitAtNewline (buffer r)) as [[l a]|] eqn:Hbuf.
    + apply splitAtNewline_Some in Hbuf as Hsplit. destruct Hsplit as [Hb Hl].
      assert (Hsame : Some (l, a ++ concat (c :: chunks)) = Some (line, after)).
      { rewrite <- (splitAtNewline_app l (a ++ concat (c :: chunks)) Hl).
        rewrite <- (splitAtNewline_app line after Hline).
        f_equal. rewrite <- Hstream, Hb. by rewrite <- app_assoc. }
      injection Hsame as -> <-.
      exists a, (c :: chunks). split; [|done].
      erewrite readLineMessage_line; [|done|exact Hbuf].
      by rewrite Hend, Herr.
    + assert (Hshort : bufferLength (buffer r) ≤ HEADER_MAX_BYTES).
      { pose proof (splitAtNewline_app line after Hline) as Hwhole.
        rewrite <- Hstream, (splitAtNewline_app_l _ _ Hbuf) in Hwhole.
        destruct (splitAtNewline (concat (c :: chunks))) as [[l a]|]; [|done].
        injection Hwhole as <- _. unfold bufferLength in *.
        rewrite length_app in Hbound. lia. }
      change ((Data <$> (c :: chunks)) ++ rest)
        with (Data c :: ((Data <$> chunks) ++ rest)).
      assert (Hstep : readLineMessage label (Data c :: ((Data <$> chunks) ++ rest)) r
                      = readLineMessage label ((Data <$> chunks) ++ rest)
                          (deliver (Data c) r)).
      { unfold readLineMessage at 1. fold (@readLineMessage T _).
        unfold readLineOnce. rewrite Herr, Hbuf, Hend.
        destruct (Z.ltb_spec HEADER_MAX_BYTES (bufferLength (buffer r))); [lia|].
        done. }
      rewrite Hstep, deliver_Data.
      destruct (IH {| buffer := buffer r ++ c; ended := ended r; error := error r |})
        as (kept & chunks' & Hrun & Hkept & Hlen); [done|done| |].
      { simpl. rewrite <- Hstream. simpl. by rewrite <- app_assoc. }
      exists kept, chunks'. split; [done|]. split; [done|]. simpl. lia.
Qed.
(** ** Whole sessions, step by step *)

Lemma readChunk_buffered (inbox : list SocketEvent) (r : SocketReader) :
  error r = None → buffer r ≠ [] →
  readChunk inbox r
  = (Got (Some (buffer r)),
     {| buffer := []; ended := ended r; error := error r |}, inbox).
Proof.
  intros Herr Hbuf.
  assert (Hpos : (0 <? bufferLength (buffer r)) = true).
  { apply Z.ltb_lt. unfold bufferLength. destruct (buffer r); [done|]. simpl. lia. }
  destruct inbox; unfold readChunk; by rewrite Herr, Hpos.
Qed.

Lemma readChunk_Data (c : list byte) (inbox : list SocketEvent) :
  readChunk (Data c :: inbox) newSocketReader
  = readChunk inbox {| buffer := c; ended := false; error := None |}.
Proof. reflexivity. Qed.

Lemma readChunk_closed (ev : SocketEvent) (inbox : list SocketEvent) :
  ev = End ∨ ev = Close →
  readChunk (ev :: inbox) newSocketReader
  = (Got None, {| buffer := []; ended := true; error := None |}, inbox).
Proof. intros [-> | ->]; by destruct inbox. Qed.

Lemma readChunk_nil (inbox : list SocketEvent) :
  readChunk inbox {| buffer := []; ended := false; error := None |}
  = readChunk inbox newSocketReader.
Proof. reflexivity. Qed.

Section Runs.
Context `{Sha256, PathOps, JsonCodec TransferHeader}.
Variable listenOptions : ListenOptions.
Variable env : SessionEnv.

Lemma admitHeader_run (s : Session) (h : TransferHeader)
    (r' : SocketReader) (inbox' : list SocketEvent) :
  readLineMessage "header" (inbox s) (reader s) = (Got h, r', inbox') →
  wellFormedHeader h →
  admitHeader env s
  = let s1 := set_requiredPairCodeForThisTransfer (currentCode (state (pairing s)))
                (set_header (Some h) (set_inbox inbox' (set_reader r' s))) in
    if isPairCodeAccepted (state (pairing s)) (h_pairCode h) (now env)
    then (Next h, s1)
    else (Return, fail env "pair code mismatch" false s1).
Proof.
  intros Hread (Htype & Hversion & Hsize & Hsha).
  unfold admitHeader, mbind, Step_bind, awaitSocket, modify, gets, returnNow,
    mret, Step_ret.
  rewrite Hread. simpl.
  rewrite bool_decide_eq_true_2 by done. simpl.
  destruct (Z.eqb_spec (h_version h) 1); [|done].
  destruct (Z.ltb_spec (h_fileSize h) 0); [lia|].
  unfold Str.falsy. rewrite bool_decide_eq_false_2 by done. simpl.
  by destruct (isPairCodeAccepted _ _ _).
Qed.

Lemma confirm_run (h : TransferHeader) (s : Session) :
  confirmAccepts listenOptions env h = true →
  confirm listenOptions env h s = (Next tt, s).
Proof.
  unfold confirmAccepts, confirm.
  destruct (confirmTransfer listenOptions) as [hook|]; [|done].
  by destruct (hook _) as [[]|[] ?].
Qed.

Lemma prepare_run (s : Session) (h : TransferHeader)
    (sel : ReceivePathSelection) (fs1 : gmap string Node) (off : Z)
    (hs : list byte) :
  selectReceivePaths (files s) (outputDir listenOptions)
    (h_relativePath h) (h_sha256 h) = Ok sel →
  mkdirRecursive (files s) (pathDirname (sel_finalPath sel)) = Ok fs1 →
  confirmAccepts listenOptions env h = true →
  decideResumeOffset fs1 (sel_tempPath sel) (h_fileSize h) (h_sha256 h)
    (hasher s) = Ok (off, hs) →
  ∃ s2,
    prepare listenOptions env h s = (Next tt, s2)
    ∧ pairing s2 = pairing s ∧ reader s2 = reader s ∧ inbox s2 = inbox s
    ∧ header s2 = header s
    ∧ requiredPairCodeForThisTransfer s2 = requiredPairCodeForThisTransfer s
    ∧ digest s2 = digest s ∧ failed s2 = failed s
    ∧ targetPath s2 = sel_finalPath sel ∧ tempPath s2 = sel_tempPath sel
    ∧ phase s2 = PhaseReceiving
    ∧ hasher s2 = hs ∧ resumedFrom s2 = off ∧ received s2 = off
    ∧ outbox s2 = outbox s ++ [readyAt off (sel_finalPath sel)]
    ∧ files s2
      = (if off <? h_fileSize h
         then if 0 <? off then fs1 else <[sel_tempPath sel := File []]> fs1
         else fs1)
    ∧ fileStream s2
      = if off <? h_fileSize h
        then Some {| ws_path := sel_tempPath sel; ws_pos := off;
                     ws_destroyed := false |}
        else fileStream s.
Proof.
  intros Hsel Hmkdir Hconfirm Hdecide.
  unfold prepare, mbind, Step_bind, modify, gets, liftRes, mret, Step_ret.
  rewrite Hsel, Hmkdir. simpl.
  rewrite (confirm_run h _ Hconfirm). simpl. rewrite Hdecide. simpl.
  unfold createWriteStream.
  destruct (off <? h_fileSize h); simpl;
    eexists; (split; [reflexivity|]); simpl; split_and!; reflexivity.
Qed.

Lemma writePayload_run (h : TransferHeader) (payload : list byte)
    (s : Session) :
  payload ≠ [] →
  received s + bufferLength payload ≤ h_fileSize h →
  Receiving s payload →
  ∃ s',
    writePayload h payload s = (Next tt, s')
    ∧ Undisturbed s s' ∧ reader s' = reader s ∧ inbox s' = inbox s
    ∧ hasher s' = hasher s ++ payload
    ∧ files s' = <[tempPath s := File (hasher s ++ payload)]> (files s)
    ∧ ∀ pending, Receiving s' pending.
Proof.
  intros Hpayload Hfits (Hfile & Hlen & Hstream).
  destruct (Hstream Hpayload) as (ws & Hws & Hpath & Hpos).
  unfold writePayload, mbind, Step_bind, modify, gets, raise, mret, Step_ret.
  assert (Hsome : (bufferLength payload =? 0) = false).
  { apply Z.eqb_neq. unfold bufferLength. destruct payload; [done|]. simpl. lia. }
  rewrite Hsome.
  destruct (Z.ltb_spec (h_fileSize h) (received s + bufferLength payload));
    [lia|].
  rewrite Hws. simpl. unfold streamWrite. rewrite Hpath, Hfile. simpl.
  assert (Hat : Z.to_nat (ws_pos ws) = length (hasher s)).
  { rewrite Hpos, Hlen. unfold bufferLength. lia. }
  rewrite Hat, take_ge, drop_ge, app_nil_r by lia.
  eexists. split; [reflexivity|]. simpl.
  split; [by unfold Undisturbed|].
  split; [done|]. split; [done|]. split; [done|]. split; [done|].
  intros pending. unfold Receiving. simpl.
  rewrite lookup_insert_eq. unfold hasherUpdate, bufferLength in *.
  rewrite length_app. split; [done|]. split; [lia|].
  intros _. eexists. split; [reflexivity|]. simpl. split; [done|]. lia.
Qed.

Lemma receiveLoop_step (fuel : nat) (h : TransferHeader) (s : Session) :
  received s < h_fileSize h →
  receiveLoop (S fuel) h s
  = match readChunk (inbox s) (reader s) with
    | (Got (Some payload), r, rest) =>
        match writePayload h payload (set_inbox rest (set_reader r s)) with
        | (Next _, s') => receiveLoop fuel h s'
        | (Return, s') => (Return, s')
        | (Raise m, s') => (Raise m, s')
        | (Suspended, s') => (Suspended, s')
        | (OutOfFuel, s') => (OutOfFuel, s')
        end
    | (Got None, r, rest) => (Next tt, set_inbox rest (set_reader r s))
    | (Failed m, r, rest) => (Raise m, set_inbox rest (set_reader r s))
    | (Waiting, r, rest) => (Suspended, set_inbox rest (set_reader r s))
    end.
Proof.
  intros Hless. simpl.
  unfold mbind, Step_bind, gets, mret, Step_ret, awaitSocket.
  destruct (Z.ltb_spec (received s) (h_fileSize h)); [|lia].
  destruct (readChunk (inbox s) (reader s)) as [[[[payload|]|m|] r] rest];
    simpl; done.
Qed.

Lemma receiveLoop_done (fuel : nat) (h : TransferHeader) (s : Session) :
  h_fileSize h ≤ received s → receiveLoop fuel h s = (Next tt, s).
Proof.
  intros Hdone.
  destruct fuel; simpl; unfold mbind, Step_bind, gets, mret, Step_ret;
    destruct (Z.ltb_spec (received s) (h_fileSize h)); (done || lia).
Qed.

Lemma Undisturbed_frame (s : Session) (r : SocketReader)
    (inbox' : list SocketEvent) :
  Undisturbed s (set_inbox inbox' (set_reader r s)).
Proof. by unfold Undisturbed. Qed.

(** The payload loop on a stream cut into chunks, the buffer being empty:
    it writes and hashes the bytes of the chunks, and ends when the declared
    size is reached or, short of it, when the peer has closed. *)
Lemma receiveLoop_chunks (h : TransferHeader) (chunks : list (list byte)) :
  ∀ (fuel : nat) (s : Session) (rest : list SocketEvent),
    reader s = newSocketReader →
    inbox s = (Data <$> chunks) ++ rest →
    Receiving s (concat chunks) →
    received s + bufferLength (concat chunks) ≤ h_fileSize h →
    received s + bufferLength (concat chunks) = h_fileSize h ∨ closing rest →
    (length chunks + length rest < fuel)%nat →
    ∃ s',
      receiveLoop fuel h s = (Next tt, s')
      ∧ Undisturbed s s'
      ∧ hasher s' = hasher s ++ concat chunks
      ∧ received s' = received s + bufferLength (concat chunks)
      ∧ files s' = <[tempPath s := File (hasher s ++ concat chunks)]> (files s)
      ∧ Receiving s' [].
Proof.
  induction chunks as [|c chunks IH]; intros fuel s rest Hreader Hinbox Hinv
    Hfits Hend Hfuel.
  - (* nothing left to read *)
    simpl in *. rewrite app_nil_r.
    assert (Hsame : <[tempPath s := File (hasher s)]> (files s) = files s).
    { apply insert_id. apply Hinv. }
    rewrite Hsame.
    assert (Hkeep : Receiving s []).
    { destruct Hinv as (? & ? & _). by split_and!. }
    destruct (Z.lt_ge_cases (received s) (h_fileSize h)) as [Hless|Hdone].
    + destruct Hend as [Hexact|(ev & rest' & -> & Hev)];
        [unfold bufferLength in Hexact; simpl in Hexact; lia|].
      destruct fuel as [|fuel]; [lia|].
      rewrite receiveLoop_step by done.
      rewrite Hinbox, Hreader, (readChunk_closed ev rest' Hev).
      eexists. split; [reflexivity|]. simpl.
      split; [by unfold Undisturbed|].
      split; [done|]. split; [unfold bufferLength; simpl; lia|].
      split; [done|]. done.
    + rewrite receiveLoop_done by lia.
      exists s. split; [done|]. split; [apply Undisturbed_refl|].
      split; [done|]. split; [unfold bufferLength; simpl; lia|]. done.
  - change (concat (c :: chunks)) with (c ++ concat chunks) in *.
    change ((Data <$> (c :: chunks)) ++ rest)
      with (Data c :: ((Data <$> chunks) ++ rest)) in Hinbox.
    change (length (c :: chunks)) with (S (length chunks)) in Hfuel.
    destruct (decide (c = [])) as [->|Hc].
    + (* an empty chunk is passed over *)
      simpl in *.
      destruct (Z.lt_ge_cases (received s) (h_fileSize h)) as [Hless|Hdone].
      * destruct (IH fuel (set_inbox ((Data <$> chunks) ++ rest) s) rest)
          as (s' & Hrun & Hu & Hhash & Hrecv & Hfiles & Hinv');
          [done|done|done|done|done|simpl; lia|].
        exists s'. split; [|done].
        rewrite <- Hrun. destruct fuel as [|fuel]; [lia|].
        rewrite !receiveLoop_step by done.
        simpl. rewrite Hinbox, Hreader. reflexivity.
      * assert (Hnil : concat chunks = []).
        { unfold bufferLength in Hfits. apply length_zero_iff_nil. lia. }
        rewrite receiveLoop_done by lia. rewrite Hnil in *.
        exists s. rewrite app_nil_r.
        split; [done|]. split; [apply Undisturbed_refl|].
        split; [done|]. split; [unfold bufferLength; simpl; lia|].
        split; [symmetry; apply insert_id, Hinv|].
        destruct Hinv as (? & ? & _). by split_and!.
    + (* a chunk of payload *)
      assert (Hless : received s < h_fileSize h).
      { unfold bufferLength in Hfits. rewrite length_app in Hfits.
        destruct c; [done|]. simpl in Hfits. lia. }
      destruct fuel as [|fuel]; [lia|].
      rewrite receiveLoop_step by done.
      rewrite Hinbox, Hreader, readChunk_Data.
      rewrite readChunk_buffered by done. simpl.
      set (s1 := set_inbox _ (set_reader _ s)).
      destruct (writePayload_run h c s1) as
        (s2 & Hw & Hu2 & Hr2 & Hi2 & Hh2 & Hf2 & Hinv2); [done| |
          |].
      { unfold bufferLength in *. rewrite length_app in Hfits. simpl. lia. }
      { destruct Hinv as (Hfile & Hlen & Hstream). split_and!; [done|done|].
        intros _. apply Hstream. by destruct c. }
      rewrite Hw.
      destruct Hu2 as (Hp2 & Hhd2 & Hq2 & Hd2 & Ho2 & Hph2 & Htmp2 & Htgt2 & Hfl2 & Hres2).
      assert (Hrecv2 : received s2 = received s + bufferLength c).
      { destruct (Hinv2 []) as (_ & Hlen2 & _). destruct Hinv as (_ & Hlen & _).
        rewrite Hlen2, Hh2, Hlen. unfold bufferLength. rewrite length_app. simpl. lia. }
      destruct (IH fuel s2 rest)
        as (s' & Hrun & Hu & Hhash & Hrecv & Hfiles & Hinv');
        [by rewrite Hr2|by rewrite Hi2|apply Hinv2| | |lia|].
      { rewrite Hrecv2. unfold bufferLength in *. rewrite length_app in Hfits. lia. }
      { destruct Hend as [Hexact|Hclose]; [left|by right].
        rewrite Hrecv2. unfold bufferLength in *. rewrite length_app in Hexact. lia. }
      exists s'. split; [done|].
      split.
      { eapply Undisturbed_trans; [|exact Hu]. unfold Undisturbed.
        simpl in *. by split_and!. }
      split; [by rewrite Hhash, Hh2, <- app_assoc|].
      split.
      { rewrite Hrecv, Hrecv2. unfold bufferLength. rewrite length_app. lia. }
      split; [|done].
      rewrite Hfiles, Hf2, Htmp2, Hh2. simpl.
      rewrite insert_insert_eq. by rewrite <- app_assoc.
Qed.

(** The same with bytes already in the reader's buffer, as the header's
    chunk leaves them. *)
Lemma receiveLoop_stream (h : TransferHeader) (b : list byte)
    (chunks : list (list byte)) (fuel : nat) (s : Session)
    (rest : list SocketEvent) :
  reader s = {| buffer := b; ended := false; error := None |} →
  inbox s = (Data <$> chunks) ++ rest →
  Receiving s (b ++ concat chunks) →
  received s + bufferLength (b ++ concat chunks) ≤ h_fileSize h →
  received s + bufferLength (b ++ concat chunks) = h_fileSize h ∨ closing rest →
  (length chunks + length rest + 1 < fuel)%nat →
  ∃ s',
    receiveLoop fuel h s = (Next tt, s')
    ∧ Undisturbed s s'
    ∧ hasher s' = hasher s ++ b ++ concat chunks
    ∧ received s' = received s + bufferLength (b ++ concat chunks)
    ∧ files s' = <[tempPath s := File (hasher s ++ b ++ concat chunks)]> (files s)
    ∧ Receiving s' [].
Proof.
  intros Hreader Hinbox Hinv Hfits Hend Hfuel.
  set (s0 := set_inbox (Data b :: inbox s) (set_reader newSocketReader s)).
  destruct (receiveLoop_chunks h (b :: chunks) fuel s0 rest)
    as (s' & Hrun & Hu & Hhash & Hrecv & Hfiles & Hinv');
    [done|by (simpl; rewrite Hinbox)|done|done|done|simpl; lia|].
  change (concat (b :: chunks)) with (b ++ concat chunks) in *.
  destruct (Z.lt_ge_cases (received s) (h_fileSize h)) as [Hless|Hdone].
  - exists s'. split; [|split; [|done]].
    + rewrite <- Hrun. destruct fuel as [|fuel]; [lia|].
      rewrite !receiveLoop_step by done.
      simpl. rewrite Hreader. reflexivity.
    + eapply Undisturbed_trans; [|exact Hu]. by unfold Undisturbed.
  - assert (Hnil : b ++ concat chunks = []).
    { unfold bufferLength in Hfits. apply length_zero_iff_nil. lia. }
    rewrite receiveLoop_done by lia. rewrite Hnil in *.
    exists s. rewrite app_nil_r.
    split; [done|]. split; [apply Undisturbed_refl|].
    split; [done|]. split; [unfold bufferLength; simpl; lia|].
    split; [symmetry; apply insert_id, Hinv|].
    destruct Hinv as (? & ? & _). by split_and!.
Qed.

Lemma promoteReceivedFile_run (fs : gmap string Node) (temp target : string)
    (node : Node) :
  fs !! temp = Some node → renameFault env target = None →
  promoteReceivedFile (renameFault env) fs temp target
  = Ok (target, <[target := node]> (delete temp fs)).
Proof.
  intros Htemp Hfault. unfold promoteReceivedFile.
  assert (Hpos : MAX_DUPLICATE_SUFFIX_ATTEMPTS ≠ O).
  { unfold MAX_DUPLICATE_SUFFIX_ATTEMPTS. lia. }
  destruct MAX_DUPLICATE_SUFFIX_ATTEMPTS as [|attempts]; [done|].
  simpl. unfold rename. by rewrite Htemp, Hfault.
Qed.

Lemma complete_run (h : TransferHeader) (s : Session) (saved : string)
    (fs' : gmap string Node) :
  received s = h_fileSize h →
  sha256Hex (hasher s) = h_sha256 h →
  promoteReceivedFile (renameFault env) (files s) (tempPath s) (targetPath s)
  = Ok (saved, fs') →
  ∃ s',
    complete listenOptions env h s = (Next tt, s')
    ∧ files s' = fs'
    ∧ pairing s'
      = (ackPairCode listenOptions (requiredPairCodeForThisTransfer s)
           (pairing s)).2
    ∧ outbox s'
      = outbox s
        ++ [ackSuccess h saved (resumedFrom s)
              (ackPairCode listenOptions (requiredPairCodeForThisTransfer s)
                 (pairing s)).1].
Proof.
  intros Hsize Hsha Hpromote.
  unfold complete, nextPairCodeForAck, mbind, Step_bind, modify, gets,
    liftRes, returnNow, mret, Step_ret.
  simpl. rewrite Hsize, Z.eqb_refl. simpl.
  unfold hasherDigest. rewrite Hsha, bool_decide_eq_true_2 by done. simpl.
  rewrite Hpromote. simpl.
  eexists. split; [reflexivity|]. simpl. unfold ackSuccess. done.
Qed.


Lemma isPairCodeAccepted_countTransfer (p : Pairing) (code : option string)
    (t : Z) :
  isPairCodeAccepted (state (countTransfer p)) code t
  = isPairCodeAccepted (state p) code t.
Proof. reflexivity. Qed.

Lemma buildReceiveTempPath_ne (finalPath sha : string) :
  buildReceiveTempPath finalPath sha ≠ finalPath.
Proof.
  unfold buildReceiveTempPath. intros Heq.
  rewrite <- (append_empty_r finalPath) in Heq at 2.
  apply (inj (String.app finalPath)) in Heq. discriminate Heq.
Qed.

Lemma decideResumeOffset_prefix (fs1 : gmap string Node) (temp : string)
    (existing payload : list byte) :
  fs1 !! temp = None ∧ existing = [] ∨ fs1 !! temp = Some (File existing) →
  decideResumeOffset fs1 temp (bufferLength (existing ++ payload))
    (sha256Hex (existing ++ payload)) []
  = Ok (bufferLength existing, existing).
Proof.
  intros Htemp. unfold decideResumeOffset.
  destruct Htemp as [[-> ->]| ->]; [done|].
  unfold updateHashFromFilePrefix, hasherUpdate, sha256File.
  assert (Hall : take (Z.to_nat (bufferLength existing)) existing = existing).
  { apply take_ge. unfold bufferLength. lia. }
  rewrite Hall.
  destruct (Z.leb_spec (bufferLength existing) 0) as [Hzero|Hpos].
  { assert (existing = []) as ->; [|done].
    unfold bufferLength in Hzero. apply length_zero_iff_nil. lia. }
  destruct (Z.ltb_spec (bufferLength (existing ++ payload))
              (bufferLength existing)) as [Hlong|_].
  { unfold bufferLength in Hlong. rewrite length_app in Hlong. lia. }
  destruct (Z.eqb_spec (bufferLength existing)
              (bufferLength (existing ++ payload))) as [Hwhole|_]; [|done].
  assert (payload = []) as ->.
  { unfold bufferLength in Hwhole. rewrite length_app in Hwhole.
    apply length_zero_iff_nil. lia. }
  rewrite app_nil_r. by rewrite bool_decide_eq_true_2.
Qed.

(** The session up to [ready], for a header that arrives whole and is let
    through, the temp file holding [existing]. *)
Lemma session_ready (p : Pairing) (fs : gmap string Node)
    (h : TransferHeader) (line existing payload : list byte)
    (chunks : list (list byte)) (rest : list SocketEvent)
    (sel : ReceivePathSelection) (fs1 : gmap string Node) :
  decodeJsonLine (Str.trim (string_of_list_byte line)) = Ok h →
  splitAtNewline line = None → bufferLength line ≤ HEADER_MAX_BYTES →
  wellFormedHeader h →
  isPairCodeAccepted (state p) (h_pairCode h) (now env) = true →
  selectReceivePaths fs (outputDir listenOptions) (h_relativePath h)
    (h_sha256 h) = Ok sel →
  mkdirRecursive fs (pathDirname (sel_finalPath sel)) = Ok fs1 →
  confirmAccepts listenOptions env h = true →
  decideResumeOffset fs1 (sel_tempPath sel) (h_fileSize h) (h_sha256 h) []
  = Ok (bufferLength existing, existing) →
  concat chunks = line ++ newline :: payload →
  ∃ s1 s2 kept chunks',
    admitHeader env (newSession (countTransfer p) fs ((Data <$> chunks) ++ rest))
    = (Next h, s1)
    ∧ prepare listenOptions env h s1 = (Next tt, s2)
    ∧ reader s2 = {| buffer := kept; ended := false; error := None |}
    ∧ inbox s2 = (Data <$> chunks') ++ rest
    ∧ kept ++ concat chunks' = payload
    ∧ pairing s2 = countTransfer p ∧ header s2 = Some h
    ∧ requiredPairCodeForThisTransfer s2 = currentCode (state p)
    ∧ digest s2 = None ∧ failed s2 = false
    ∧ targetPath s2 = sel_finalPath sel ∧ tempPath s2 = sel_tempPath sel
    ∧ phase s2 = PhaseReceiving
    ∧ hasher s2 = existing ∧ resumedFrom s2 = bufferLength existing
    ∧ received s2 = bufferLength existing
    ∧ outbox s2 = [readyAt (bufferLength existing) (sel_finalPath sel)]
    ∧ (0 < h_fileSize h →
       fs1 !! sel_tempPath sel = None ∧ existing = []
       ∨ fs1 !! sel_tempPath sel = Some (File existing) →
       (payload ≠ [] → bufferLength existing < h_fileSize h) →
       Receiving s2 payload)
    ∧ (∀ q, q ≠ sel_tempPath sel → files s2 !! q = fs1 !! q)
    ∧ (h_fileSize h ≤ bufferLength existing →
       files s2 = fs1 ∧ fileStream s2 = None).
Proof.
  intros Hdecode Hline Hbound Hwf Hcode Hsel Hmkdir Hconfirm Hdecide Hstream.
  destruct (readLineMessage_chunks "header" chunks rest newSocketReader
              line payload) as (kept & chunks' & Hread & Hkept & _);
    [done|done|done|done|done|].
  rewrite Hdecode in Hread.
  set (s0 := newSession (countTransfer p) fs ((Data <$> chunks) ++ rest)).
  pose proof (admitHeader_run s0 h _ _ Hread Hwf) as Hadmit.
  assert (Hacc : isPairCodeAccepted (state (pairing s0)) (h_pairCode h)
                   (now env) = true) by exact Hcode.
  cbv zeta in Hadmit. rewrite Hacc in Hadmit.
  match type of Hadmit with _ = (_, ?s) => set (s1 := s) in * end.
  destruct (prepare_run s1 h sel fs1 (bufferLength existing) existing)
    as (s2 & Hprep & Hp & Hr & Hi & Hh & Hq & Hd & Hf & Htgt & Htmp & Hph
        & Hhs & Hres & Hrecv & Hout & Hfiles & Hws); [done..|].
  exists s1, s2, kept, chunks'.
  split; [done|]. split; [done|]. split; [by rewrite Hr|].
  split; [by rewrite Hi|]. split; [done|]. split; [by rewrite Hp|].
  split; [by rewrite Hh|]. split; [by rewrite Hq|]. split; [by rewrite Hd|].
  split; [by rewrite Hf|]. split; [done|]. split; [done|]. split; [done|].
  split; [done|]. split; [done|]. split; [done|]. split; [by rewrite Hout|].
  split; [|split].
  - intros Hsome Htemp Hroom.
    unfold Receiving. rewrite Htmp, Hhs, Hrecv, Hfiles, Hws.
    split_and!; [|done|].
    + destruct (Z.ltb_spec (bufferLength existing) (h_fileSize h)).
      * destruct (Z.ltb_spec 0 (bufferLength existing)) as [Hpos|Hzero].
        -- destruct Htemp as [[_ ->]|Hfile]; [done|done].
        -- assert (existing = []) as ->.
           { unfold bufferLength in Hzero. apply length_zero_iff_nil. lia. }
           by rewrite lookup_insert_eq.
      * destruct Htemp as [[_ ->]|Hfile]; [|done].
        unfold bufferLength in *. simpl in *. lia.
    + intros Hpayload. specialize (Hroom Hpayload).
      destruct (Z.ltb_spec (bufferLength existing) (h_fileSize h)); [|lia].
      eexists. split; [reflexivity|]. done.
  - intros q Hq'. rewrite Hfiles. repeat case_match; try done.
    by rewrite lookup_insert_ne.
  - intros Hfull. rewrite Hfiles, Hws.
    destruct (Z.ltb_spec (bufferLength existing) (h_fileSize h)); [lia|done].
Qed.

(** The run of a session whose transfer is in order. *)
Lemma session_delivers (p : Pairing) (fs : gmap string Node)
    (h : TransferHeader) (line existing payload : list byte)
    (chunks : list (list byte)) (rest : list SocketEvent)
    (sel : ReceivePathSelection) (fs1 : gmap string Node) :
  decodeJsonLine (Str.trim (string_of_list_byte line)) = Ok h →
  splitAtNewline line = None → bufferLength line ≤ HEADER_MAX_BYTES →
  wellFormedHeader h →
  h_fileSize h = bufferLength (existing ++ payload) → 0 < h_fileSize h →
  h_sha256 h = sha256Hex (existing ++ payload) →
  isPairCodeAccepted (state p) (h_pairCode h) (now env) = true →
  selectReceivePaths fs (outputDir listenOptions) (h_relativePath h)
    (h_sha256 h) = Ok sel →
  mkdirRecursive fs (pathDirname (sel_finalPath sel)) = Ok fs1 →
  confirmAccepts listenOptions env h = true →
  fs1 !! sel_tempPath sel = None ∧ existing = []
  ∨ fs1 !! sel_tempPath sel = Some (File existing) →
  renameFault env (sel_finalPath sel) = None →
  concat chunks = line ++ newline :: payload →
  ∃ s',
    handleIncomingSocket listenOptions env p fs ((Data <$> chunks) ++ rest)
    = (Settled, s')
    ∧ outbox s'
      = [readyAt (bufferLength existing) (sel_finalPath sel);
         ackSuccess h (sel_finalPath sel) (bufferLength existing)
           (ackPairCode listenOptions (currentCode (state p)) p).1]
    ∧ files s' !! sel_finalPath sel = Some (File (existing ++ payload))
    ∧ files s' !! sel_tempPath sel = None
    ∧ (∀ q, q ≠ sel_finalPath sel → q ≠ sel_tempPath sel →
         files s' !! q = fs1 !! q)
    ∧ pairing s'
      = uncountTransfer
          (countTransfer (ackPairCode listenOptions (currentCode (state p)) p).2).
Proof.
  intros Hdecode Hline Hbound Hwf Hsize Hsome Hsha Hcode Hsel Hmkdir Hconfirm
    Htemp Hfault Hstream.
  assert (Hlen : bufferLength (existing ++ payload)
                 = bufferLength existing + bufferLength payload).
  { unfold bufferLength. rewrite length_app. lia. }
  destruct (session_ready p fs h line existing payload chunks rest sel fs1)
    as (s1 & s2 & kept & chunks' & Hadmit & Hprep & Hreader & Hinbox & Hkept
        & Hp & Hh & Hreq & Hdig & Hfail & Htgt & Htmp & Hph & Hhs & Hres
        & Hrecv & Hout & Hinv & Hframe & _); try done.
  { rewrite Hsize, Hsha. by apply decideResumeOffset_prefix. }
  assert (Hinv' : Receiving s2 payload).
  { apply Hinv; [done|done|]. intros Hpayload. rewrite Hsize, Hlen.
    destruct payload; [done|]. unfold bufferLength. simpl. lia. }
  clear Hinv. rename Hinv' into Hinv.
  destruct (receiveLoop_stream h kept chunks' (loopBound s2) s2 rest)
    as (s3 & Hloop & Hu & Hhs3 & Hrecv3 & Hfiles3 & Hinv3);
    [done|done|by rewrite Hkept| | |unfold loopBound; rewrite Hinbox, length_app, length_fmap; lia|].
  { rewrite Hkept, Hrecv, Hsize, Hlen. lia. }
  { left. rewrite Hkept, Hrecv, Hsize, Hlen. lia. }
  rewrite Hkept in *.
  destruct Hu as (Hp3 & Hh3 & Hq3 & Hd3 & Ho3 & Hph3 & Htmp3 & Htgt3 & Hf3 & Hres3).
  assert (Hne : sel_finalPath sel ≠ sel_tempPath sel).
  { unfold selectReceivePaths, mbind, Res_bind in Hsel.
    destruct (resolveOutputPath _ _); [|done].
    apply selectFrom_temp in Hsel. rewrite Hsel.
    intros Heq. symmetry in Heq. by apply buildReceiveTempPath_ne in Heq. }
  destruct (complete_run h s3 (sel_finalPath sel)
              (<[sel_finalPath sel := File (existing ++ payload)]>
                 (delete (sel_tempPath sel) (files s3))))
    as (s4 & Hdone & Hfiles4 & Hp4 & Hout4).
  { rewrite Hrecv3, Hrecv, Hsize, Hlen. lia. }
  { by rewrite Hhs3, Hhs, Hsha. }
  { rewrite Htmp3, Htgt3, Htmp, Htgt. apply promoteReceivedFile_run; [|done].
    rewrite Hfiles3, Htmp, Hhs. by rewrite lookup_insert_eq. }
  exists (releaseSession s4). split.
  { unfold handleIncomingSocket, acceptSession, runSession, sessionBody.
    unfold mbind at 1, Step_bind at 1. rewrite Hadmit.
    unfold mbind at 1, Step_bind at 1. rewrite Hprep.
    unfold mbind at 1 2, Step_bind at 1 2, gets at 1. rewrite Hloop, Hdone.
    done. }
  unfold releaseSession. simpl.
  rewrite Hout4, Hp4, Ho3, Hout, Hres3, Hres, Hq3, Hreq, Hp3, Hp, Hfiles4,
    Hfiles3, Htmp, Hhs.
  rewrite ackPairCode_countTransfer. simpl.
  split; [done|]. split; [by rewrite lookup_insert_eq|].
  split; [by rewrite lookup_insert_ne, lookup_delete_eq|].
  split; [|done].
  intros q Hq1 Hq2.
  rewrite lookup_insert_ne, lookup_delete_ne, lookup_insert_ne by done.
  by apply Hframe.
Qed.

(** X4: a transfer that is in order is stored. Let the stream hold a
    header line within the bound and then the bytes the receiver asks for:
    those of the file from the offset of [ready], which is 0 on a fresh
    target and the length of the temp file where one holds a beginning of
    the file. If the header passes admission, declares the size and the
    digest of the file, the target could be chosen, its directory made and
    the transfer confirmed, and the rename is not refused, then however the
    stream is cut into chunks the session settles with [ready] and an [ack]
    with [ok: true], the file stands complete under the chosen name, the
    temp file is gone, and no other path has changed. *)
Theorem handleIncomingSocket_delivers (p : Pairing) (fs : gmap string Node)
    (h : TransferHeader) (line existing payload : list byte)
    (chunks : list (list byte)) (rest : list SocketEvent)
    (sel : ReceivePathSelection) (fs1 : gmap string Node) :
  decodeJsonLine (Str.trim (string_of_list_byte line)) = Ok h →
  splitAtNewline line = None → bufferLength line ≤ HEADER_MAX_BYTES →
  wellFormedHeader h →
  h_fileSize h = bufferLength (existing ++ payload) → 0 < h_fileSize h →
  h_sha256 h = sha256Hex (existing ++ payload) →
  isPairCodeAccepted (state p) (h_pairCode h) (now env) = true →
  selectReceivePaths fs (outputDir listenOptions) (h_relativePath h)
    (h_sha256 h) = Ok sel →
  mkdirRecursive fs (pathDirname (sel_finalPath sel)) = Ok fs1 →
  confirmAccepts listenOptions env h = true →
  fs1 !! sel_tempPath sel = None ∧ existing = []
  ∨ fs1 !! sel_tempPath sel = Some (File existing) →
  renameFault env (sel_finalPath sel) = None →
  concat chunks = line ++ newline :: payload →
  ∃ s',
    handleIncomingSocket listenOptions env p fs ((Data <$> chunks) ++ rest)
    = (Settled, s')
    ∧ outbox s'
      = [readyAt (bufferLength existing) (sel_finalPath sel);
         ackSuccess h (sel_finalPath sel) (bufferLength existing)
           (ackPairCode listenOptions (currentCode (state p)) p).1]
    ∧ files s' !! sel_finalPath sel = Some (File (existing ++ payload))
    ∧ files s' !! sel_tempPath sel = None
    ∧ (∀ q, q ≠ sel_finalPath sel → q ≠ sel_tempPath sel →
         files s' !! q = fs1 !! q)
    ∧ pairing s'
      = uncountTransfer
          (countTransfer (ackPairCode listenOptions (currentCode (state p)) p).2).
Proof. apply session_delivers. Qed.





Lemma complete_raise (h : TransferHeader) (s : Session) (m : string) :
  received s = h_fileSize h →
  sha256Hex (hasher s) = h_sha256 h →
  promoteReceivedFile (renameFault env) (files s) (tempPath s) (targetPath s)
  = Throw m →
  complete listenOptions env h s
  = (Raise m, set_digest (Some (h_sha256 h)) s).
Proof.
  intros Hsize Hsha Hpromote.
  unfold complete, nextPairCodeForAck, mbind, Step_bind, modify, gets,
    liftRes, returnNow, mret, Step_ret.
  simpl. rewrite Hsize, Z.eqb_refl. simpl.
  unfold hasherDigest. rewrite Hsha, bool_decide_eq_true_2 by done. simpl.
  by rewrite Hpromote.
Qed.

Lemma promoteReceivedFile_missing (fs : gmap string Node)
    (temp target : string) :
  fs !! temp = None →
  promoteReceivedFile (renameFault env) fs temp target
  = Throw "temporary receive file is missing".
Proof.
  intros Hnone. unfold promoteReceivedFile.
  assert (Hpos : MAX_DUPLICATE_SUFFIX_ATTEMPTS ≠ O).
  { unfold MAX_DUPLICATE_SUFFIX_ATTEMPTS. lia. }
  destruct MAX_DUPLICATE_SUFFIX_ATTEMPTS as [|attempts]; [done|].
  simpl. unfold rename. rewrite Hnone. by rewrite bool_decide_eq_true_2.
Qed.

(** The run of a session for a file of no bytes on a fresh target. *)
Lemma session_empty_file (p : Pairing) (fs : gmap string Node)
    (h : TransferHeader) (line after : list byte)
    (chunks : list (list byte)) (rest : list SocketEvent)
    (sel : ReceivePathSelection) (fs1 : gmap string Node) :
  decodeJsonLine (Str.trim (string_of_list_byte line)) = Ok h →
  splitAtNewline line = None → bufferLength line ≤ HEADER_MAX_BYTES →
  wellFormedHeader h →
  h_fileSize h = 0 → h_sha256 h = sha256Hex [] →
  isPairCodeAccepted (state p) (h_pairCode h) (now env) = true →
  selectReceivePaths fs (outputDir listenOptions) (h_relativePath h)
    (h_sha256 h) = Ok sel →
  mkdirRecursive fs (pathDirname (sel_finalPath sel)) = Ok fs1 →
  confirmAccepts listenOptions env h = true →
  fs1 !! sel_tempPath sel = None →
  concat chunks = line ++ newline :: after →
  ∃ s',
    handleIncomingSocket listenOptions env p fs ((Data <$> chunks) ++ rest)
    = (Settled, s')
    ∧ outbox s'
      = readyAt 0 (sel_finalPath sel)
        :: optFrame (socketWritable env)
             (ackFailure "temporary receive file is missing")
    ∧ files s' = fs1
    ∧ pairing s' = uncountTransfer (countTransfer p).
Proof.
  intros Hdecode Hline Hbound Hwf Hsize Hsha Hcode Hsel Hmkdir Hconfirm
    Htemp Hstream.
  destruct (session_ready p fs h line [] after chunks rest sel fs1)
    as (s1 & s2 & kept & chunks' & Hadmit & Hprep & Hreader & Hinbox & Hkept
        & Hp & Hh & Hreq & Hdig & Hfail & Htgt & Htmp & Hph & Hhs & Hres
        & Hrecv & Hout & _ & Hframe & Hfull); try done.
  { unfold decideResumeOffset. by rewrite Htemp. }
  destruct Hfull as [Hfiles Hws].
  { rewrite Hsize. unfold bufferLength. simpl. lia. }
  change (bufferLength []) with 0 in *.
  eexists. split.
  { unfold handleIncomingSocket, acceptSession, runSession, sessionBody.
    unfold mbind at 1, Step_bind at 1. rewrite Hadmit.
    unfold mbind at 1, Step_bind at 1. rewrite Hprep.
    unfold mbind at 1 2, Step_bind at 1 2, gets at 1.
    rewrite receiveLoop_done by (rewrite Hrecv, Hsize; lia).
    rewrite (complete_raise h s2 "temporary receive file is missing");
      [reflexivity|by rewrite Hrecv, Hsize|by rewrite Hhs, Hsha|].
    rewrite Hfiles, Htmp. by apply promoteReceivedFile_missing. }
  unfold releaseSession. simpl.
  rewrite fail_pairing, fail_files_keep, fail_outbox by done.
  simpl. rewrite Hout, Hph, Hp, Hfiles. done.
Qed.

(** X6: an empty file is not received. For a header that declares the
    size 0 and the digest of the empty sequence, and passes admission, on a
    target with no temp file: the session sends [ready] with offset 0, opens
    no write stream, since there is nothing to write, and so creates no temp
    file; the promotion then finds none, and the session ends with an [ack]
    that is not [ok] and carries [temporary receive file is missing]. No
    file is stored, whatever follows the header on the stream. *)
Theorem handleIncomingSocket_empty_file (p : Pairing) (fs : gmap string Node)
    (h : TransferHeader) (line after : list byte)
    (chunks : list (list byte)) (rest : list SocketEvent)
    (sel : ReceivePathSelection) (fs1 : gmap string Node) :
  decodeJsonLine (Str.trim (string_of_list_byte line)) = Ok h →
  splitAtNewline line = None → bufferLength line ≤ HEADER_MAX_BYTES →
  wellFormedHeader h →
  h_fileSize h = 0 → h_sha256 h = sha256Hex [] →
  isPairCodeAccepted (state p) (h_pairCode h) (now env) = true →
  selectReceivePaths fs (outputDir listenOptions) (h_relativePath h)
    (h_sha256 h) = Ok sel →
  mkdirRecursive fs (pathDirname (sel_finalPath sel)) = Ok fs1 →
  confirmAccepts listenOptions env h = true →
  fs1 !! sel_tempPath sel = None →
  concat chunks = line ++ newline :: after →
  ∃ s',
    handleIncomingSocket listenOptions env p fs ((Data <$> chunks) ++ rest)
    = (Settled, s')
    ∧ outbox s'
      = readyAt 0 (sel_finalPath sel)
        :: optFrame (socketWritable env)
             (ackFailure "temporary receive file is missing")
    ∧ files s' = fs1
    ∧ pairing s' = uncountTransfer (countTransfer p).
Proof. apply session_empty_file. Qed.

End Runs.
Lemma handleIncomingSocket_delivers_witness :
  ∃ s',
    Examples.receive Examples.fixedCode (Examples.environment true)
      (Examples.idle (Some "123456")) ∅ (Examples.good "H")
    = (Settled, s')
    ∧ files s' !! "/out/a.txt" = Some (File (Examples.bytes "hello"))
    ∧ files s' !! "/out/a.txt.519784.local-sent.part" = None.
Proof.
  destruct (handleIncomingSocket_delivers (H := Examples.checksum)
              (H0 := Examples.posixPaths) (H1 := Examples.codec)
              Examples.fixedCode (Examples.environment true)
              (Examples.idle (Some "123456")) ∅
              (Examples.helloHeader "a.txt" (Some "123456"))
              (Examples.bytes "H") [] (Examples.bytes "hello")
              [Examples.wire "H" ++ Examples.bytes "he"; Examples.bytes "llo"]
              [End]
              {| sel_finalPath := "/out/a.txt";
                 sel_tempPath := "/out/a.txt.519784.local-sent.part" |}
              {["/out" := Directory]})
    as (s' & Hrun & _ & Hfile & Htemp & _).
  - reflexivity.
  - reflexivity.
  - vm_compute. discriminate.
  - unfold wellFormedHeader. simpl. split_and!; (reflexivity || lia || discriminate).
  - reflexivity.
  - reflexivity.
  - reflexivity.
  - reflexivity.
  - vm_compute. reflexivity.
  - vm_compute. reflexivity.
  - reflexivity.
  - left. split; [|reflexivity]. vm_compute. reflexivity.
  - reflexivity.
  - reflexivity.
  - exists s'. split; [exact Hrun|]. split; [exact Hfile|exact Htemp].
Defined.



Lemma handleIncomingSocket_empty_file_witness :
  ∃ s',
    Examples.receive Examples.noCode (Examples.environment true)
      (Examples.idle None) ∅ [Data (Examples.wire "Z"); End]
    = (Settled, s')
    ∧ outbox s'
      = [readyAt 0 "/out/z.txt";
         ackFailure "temporary receive file is missing"]
    ∧ files s' !! "/out/z.txt" = None.
Proof.
  destruct (handleIncomingSocket_empty_file (H := Examples.checksum)
              (H0 := Examples.posixPaths) (H1 := Examples.codec)
              Examples.noCode (Examples.environment true)
              (Examples.idle None) ∅
              {| h_type := "header"; h_version := 1;
                 h_relativePath := "z.txt"; h_fileSize := 0;
                 h_sha256 := Examples.checksum []; h_pairCode := None |}
              (Examples.bytes "Z") [] [Examples.wire "Z"] [End]
              {| sel_finalPath := "/out/z.txt";
                 sel_tempPath := "/out/z.txt.7.local-sent.part" |}
              {["/out" := Directory]})
    as (s' & Hrun & Hout & Hfiles & _).
  - reflexivity.
  - reflexivity.
  - vm_compute. discriminate.
  - unfold wellFormedHeader. simpl. split_and!; (reflexivity || lia || discriminate).
  - reflexivity.
  - reflexivity.
  - reflexivity.
  - vm_compute. reflexivity.
  - vm_compute. reflexivity.
  - reflexivity.
  - vm_compute. reflexivity.
  - reflexivity.
  - exists s'. split; [exact Hrun|]. split; [exact Hout|].
    rewrite Hfiles. vm_compute. reflexivity.
Defined.
(** * The sender *)

Ltac send_in Hrun :=
  unfold mbind, Sending_bind, mret, Sending_ret, awaitLine, update, throw,
    waitConnected, verifyTlsPeerIfNeeded, streamFileRange in Hrun;
  repeat first
    [ progress simpl in Hrun
    | match type of Hrun with
      | context [match ?x with _ => _ end] =>
          lazymatch x with
          | context [match _ with _ => _ end] => fail
          | _ => destruct x eqn:?
          end
      end ].

Lemma createClientSocket_written (options : SendFileOptions) (s s0 : Sender) :
  createClientSocket options s = Ok s0 →
  snd_written s0 = snd_written s ∧ snd_texts s0 = snd_texts s
  ∧ snd_files s0 = snd_files s
  ∧ snd_inbox s0 = default [] (head (snd_connections s))
  ∧ snd_reader s0 = newSocketReader
  ∧ snd_ended s0 = false ∧ snd_destroyed s0 = false.
Proof.
  unfold createClientSocket, mbind, Res_bind.
  repeat case_match; intros; simplify_eq/=; done.
Qed.

Section SenderFacts.
Context `{Sha256, PathOps, JsonText TransferHeader,
          JsonCodec (Reply ReadyMessage), JsonCodec (Reply AckMessage),
          JsonCodec Tls.JsonDoc, Collation}.
Variable env : SenderEnv.
Variable options : SendFileOptions.


(** X19: what a call of [sendFile] leaves on the socket. When it returns an
    [ack], that [ack] is [ok], its socket has been ended and not destroyed,
    and what was written is the header line, with the size and digest of
    the file and the path in normal form, followed by the chunks of the
    file from the offset of [ready], which lies between 0 and the size, and
    by nothing when the offset is the size. When it throws, it has either
    done nothing or destroyed the socket. *)
Theorem sendFile_protocol (s s' : Sender) (result : Sends AckMessage) :
  sendFile env options s = (result, s') →
  match result with
  | Done ack =>
      ack_ok ack = true
      ∧ ∃ content relativePath offset,
          snd_files s !! pathResolve (sf_filePath options) = Some (File content)
          ∧ normalizeTransferPath (sf_relativePath options) = Ok relativePath
          ∧ 0 ≤ offset ≤ bufferLength content
          ∧ snd_written s'
            = snd_written s
              ++ encodeJsonLine
                   {| h_type := "header"; h_version := 1;
                      h_relativePath := relativePath;
                      h_fileSize := bufferLength content;
                      h_sha256 := sha256Hex content;
                      h_pairCode := sf_pairCode options |}
                 :: (if offset <? bufferLength content
                     then streamChunks env (drop (Z.to_nat offset) content)
                     else [])
          ∧ snd_ended s' = true
          ∧ snd_destroyed s' = false
  | Thrown _ => s' = s ∨ snd_destroyed s' = true
  | Stalled => True
  end.
Proof.
  intros Hrun. unfold sendFile, statFile in Hrun.
  destruct (snd_files s !! _) as [[content|]|] eqn:Hfile;
    [|injection Hrun as <- <-; by left..].
  destruct (normalizeTransferPath _) as [relativePath|] eqn:Hpath;
    [|injection Hrun as <- <-; by left].
  destruct (createClientSocket options s) as [s0|] eqn:Hsocket;
    [|injection Hrun as <- <-; by left].
  apply createClientSocket_written in Hsocket
    as (Hw0 & _ & _ & _ & _ & _ & Hd0).
  destruct (sendBody env options _ content s0) as [[ack|m|] s1] eqn:Hbody;
    injection Hrun as <- <-; [| |done].
  - unfold sendBody in Hbody. send_in Hbody; simplify_eq/=.
    all: repeat match goal with
      | Hb : negb _ = false |- _ => apply negb_false_iff in Hb
      | Hb : _ || _ = false |- _ => apply orb_false_iff in Hb as [? ?]
      | Hb : (_ <? _) = false |- _ => apply Z.ltb_ge in Hb
      | Hb : (_ <? _) = true |- _ => apply Z.ltb_lt in Hb
      end.
    all: split; [done|].
    all: match goal with
      | Hr : readLineMessage "ready" _ _ = (Got ?a, _, _) |- _ =>
          exists content, relativePath, (ready_offset (reply_body a))
      end.
    all: split; [done|]; split; [done|]; split; [lia|].
    all: rewrite ?Hw0, ?Hd0; unfold sha256File.
    all: match goal with
      | |- context [?a <? ?b] =>
          first [ rewrite (proj2 (Z.ltb_lt a b)) by lia
                | rewrite (proj2 (Z.ltb_ge a b)) by lia ]
      end.
    all: split_and!; try done.
    all: rewrite <- ?app_assoc; reflexivity.
  - right. by destruct (snd_destroyed s1) eqn:Hdestroyed.
Qed.

End SenderFacts.


Lemma sendFile_protocol_witness :
  ∃ s',
    SenderExamples.send (SenderExamples.plain (Some "123456"))
      (SenderExamples.holding
         [Data (encodeMessage (H := SenderExamples.readyText)
                  (H0 := SenderExamples.ackText)
                  (MReady SenderExamples.ready));
          Data (encodeMessage (H := SenderExamples.readyText)
                  (H0 := SenderExamples.ackText) (MAck SenderExamples.ack));
          End])
    = (Done SenderExamples.ack, s')
    ∧ snd_written s'
      = [encodeJsonLine (H := SenderExamples.headerText) SenderExamples.header;
         Examples.bytes "he"; Examples.bytes "llo"]
    ∧ snd_ended s' = true.
Proof.
  set (s := SenderExamples.holding _).
  pose (run := SenderExamples.send (SenderExamples.plain (Some "123456")) s).
  assert (Hrun : SenderExamples.send (SenderExamples.plain (Some "123456")) s
            = (Done SenderExamples.ack, run.2)).
  { vm_compute. reflexivity. }
  exists run.2. split; [exact Hrun|].
  unfold SenderExamples.send in Hrun.
  pose proof (@sendFile_protocol _ _ _ _ _ _ _ _ _ _ _ _ Hrun)
    as (_ & content & relativePath & offset & Hfile & Hpath & _ & Hwritten
        & Hended & _).
  split; [|exact Hended].
  vm_compute. reflexivity.
Defined.

(** * Sender and receiver together *)

Lemma list_byte_of_string_app (a b : string) :
  list_byte_of_string (a +:+ b)
  = list_byte_of_string a ++ list_byte_of_string b.
Proof.
  induction a as [|c a IH]; [done|].
  change (String c a +:+ b) with (String c (a +:+ b)).
  unfold list_byte_of_string in *. simpl. by rewrite IH.
Qed.

Lemma encodeJsonLine_line {T} `{JsonText T} (v : T) :
  encodeJsonLine v = list_byte_of_string (jsonStringify v) ++ [newline].
Proof. unfold encodeJsonLine. by rewrite list_byte_of_string_app. Qed.

Section SenderRuns.
Context `{Sha256, PathOps, JsonText TransferHeader,
          JsonText (Reply ReadyMessage), JsonText (Reply AckMessage),
          JsonCodec (Reply ReadyMessage), JsonCodec (Reply AckMessage),
          JsonCodec Tls.JsonDoc, Collation}.
Variable env : SenderEnv.
Variable options : SendFileOptions.

(** [sendFile] over a plain connection to a peer that answers [ready] with
    [ok: true] and then [ack]. *)
Lemma sendFile_run (s : Sender) (content : list byte) (relativePath : string)
    (ready : ReadyMessage) (ack : AckMessage)
    (replies : list (list byte)) (heard : list SocketEvent)
    (more : list (list SocketEvent)) :
  sf_tls options = None → connectError env = None →
  (ready_offset ready < bufferLength content → streamFault env = None) →
  snd_files s !! pathResolve (sf_filePath options) = Some (File content) →
  normalizeTransferPath (sf_relativePath options) = Ok relativePath →
  carried (readyReply ready) → carried (ackReply ack) →
  ready_ok ready = true → 0 ≤ ready_offset ready ≤ bufferLength content →
  concat replies = encodeMessage (MReady ready) ++ encodeMessage (MAck ack) →
  snd_connections s = ((Data <$> replies) ++ heard) :: more →
  ∃ s',
    sendFile env options s
    = (if ack_ok ack then Done ack
       else Thrown (default "receiver rejected transfer" (ack_message ack)),
       s')
    ∧ snd_written s'
      = snd_written s
        ++ encodeJsonLine
             {| h_type := "header"; h_version := 1;
                h_relativePath := relativePath;
                h_fileSize := bufferLength content;
                h_sha256 := sha256Hex content;
                h_pairCode := sf_pairCode options |}
           :: (if ready_offset ready <? bufferLength content
               then streamChunks env
                      (drop (Z.to_nat (ready_offset ready)) content)
               else [])
    ∧ snd_ended s' = true ∧ snd_destroyed s' = negb (ack_ok ack)
    ∧ snd_files s' = snd_files s ∧ snd_texts s' = snd_texts s
    ∧ snd_connections s' = more.
Proof.
  intros Htls Hconnect Hfault Hfile Hpath (Hr1 & Hr2 & Hr3) (Ha1 & Ha2 & Ha3)
    Hok Hoffset Hreplies Hinbox.
  unfold sendFile, statFile. rewrite Hfile, Hpath.
  unfold createClientSocket. rewrite Htls.
  unfold sendBody.
  unfold mbind at 1, Sending_bind at 1, waitConnected. rewrite Hconnect.
  unfold mret at 1, Sending_ret at 1.
  unfold mbind at 1, Sending_bind at 1, verifyTlsPeerIfNeeded. rewrite Htls.
  unfold mbind at 1, Sending_bind at 1, update at 1.
  unfold mbind at 1, Sending_bind at 1, awaitLine at 1.
  cbn [snd_inbox snd_reader snd_set_written snd_set_rejectUnauthorized
       snd_set_socket snd_open].
  assert (Hemits : default [] (head (snd_connections s))
                   = (Data <$> replies) ++ heard) by (by rewrite Hinbox).
  rewrite Hemits.
  destruct (readLineMessage_chunks (T := Reply ReadyMessage) "ready" replies
              heard newSocketReader
              (list_byte_of_string (jsonStringify (readyReply ready)))
              (encodeMessage (MAck ack)))
    as (kept & replies' & Hread & Hkept & _); [done|done|done|done| |].
  { simpl. rewrite Hreplies. unfold encodeMessage.
    rewrite encodeJsonLine_line. by rewrite <- app_assoc. }
  rewrite Hread, string_of_list_byte_of_string, Hr3.
  cbn [readyReply reply_type reply_body]. rewrite Hok.
  rewrite bool_decide_eq_true_2 by done. cbn [negb].
  rewrite (proj2 (Z.ltb_ge (ready_offset ready) 0)) by lia.
  rewrite (proj2 (Z.ltb_ge (bufferLength content) (ready_offset ready))) by lia.
  cbn [orb].
  destruct (readLineMessage_chunks (T := Reply AckMessage) "ack" replies'
              heard {| buffer := kept; ended := false; error := None |}
              (list_byte_of_string (jsonStringify (ackReply ack))) [])
    as (kept' & replies'' & Hread' & _ & _); [done|done|done|done| |].
  { simpl. rewrite Hkept. unfold encodeMessage. by rewrite encodeJsonLine_line. }
  rewrite string_of_list_byte_of_string, Ha3 in Hread'.
  destruct (Z.ltb_spec (ready_offset ready) (bufferLength content)) as [Hless|Hless].
  all: unfold mbind, Sending_bind, streamFileRange, update, awaitLine, mret,
         Sending_ret; rewrite ?Hfault by done.
  all: cbn [snd_inbox snd_reader snd_set_written snd_set_rejectUnauthorized
            snd_set_socket snd_set_ended snd_open].
  all: rewrite Hread'.
  all: cbn [ackReply reply_type reply_body].
  all: rewrite bool_decide_eq_true_2 by done; cbn [negb].
  all: destruct (ack_ok ack); cbn [negb throw].
  all: eexists; split; [reflexivity|]; simpl.
  all: rewrite ?Hinbox; split_and!; try done.
  all: rewrite <- ?app_assoc; reflexivity.
Qed.

End SenderRuns.

Section EndToEnd.
Context `{Sha256, PathOps, JsonText TransferHeader,
          JsonText (Reply ReadyMessage), JsonText (Reply AckMessage),
          JsonCodec TransferHeader,
          JsonCodec (Reply ReadyMessage), JsonCodec (Reply AckMessage),
          JsonCodec Tls.JsonDoc, Collation}.
Variable listenOptions : ListenOptions.
Variable env : SessionEnv.
Variable network : SenderEnv.
Variable options : SendFileOptions.

(** X20: [sendFile] and the receiver's handler fit together. Let a sender
    hold a file that is not empty, of which the receiver's temp file holds a
    beginning (or nothing, when there is no temp file), and let it call
    [sendFile] over a plain connection that is established. Let the file
    stream hand out the bytes it is asked for; let the header, the [ready]
    and the [ack] cross the wire unchanged; and let the receiver admit the
    header: the pair code is accepted, the target could be chosen, its
    directory made, the transfer confirmed, and the rename is not refused.
    Then, however the receiver's two lines are cut into chunks on their way,
    [sendFile] returns the receiver's [ack]; what it has written is the
    header and the rest of the file from the length of the temp file on; on
    this stream the handler settles having written exactly the two lines the
    sender has read; and the file stands complete on the receiver, with the
    temp file gone. *)
Theorem sendFile_handleIncomingSocket (s : Sender) (p : Pairing)
    (fs fs1 : gmap string Node) (relativePath : string)
    (existing payload : list byte) (sel : ReceivePathSelection)
    (replies : list (list byte)) (heard rest : list SocketEvent) :
  let content := existing ++ payload in
  let header :=
    {| h_type := "header"; h_version := 1; h_relativePath := relativePath;
       h_fileSize := bufferLength content; h_sha256 := sha256Hex content;
       h_pairCode := sf_pairCode options |} in
  let ready :=
    {| ready_ok := true; ready_offset := bufferLength existing;
       ready_message := None; ready_savedPath := Some (sel_finalPath sel) |} in
  let ack :=
    {| ack_ok := true; ack_message := None;
       ack_sha256 := Some (sha256Hex content);
       ack_receivedBytes := Some (bufferLength content);
       ack_savedPath := Some (sel_finalPath sel);
       ack_resumedFrom := Some (bufferLength existing);
       ack_nextPairCode :=
         (ackPairCode listenOptions (currentCode (state p)) p).1 |} in
  (* the sender *)
  sf_tls options = None → connectError network = None →
  streamFault network = None → (∀ b, concat (streamChunks network b) = b) →
  snd_files s !! pathResolve (sf_filePath options) = Some (File content) →
  normalizeTransferPath (sf_relativePath options) = Ok relativePath →
  content ≠ [] → sha256Hex content ≠ "" → snd_written s = [] →
  (* the wire *)
  carried header → carried (readyReply ready) → carried (ackReply ack) →
  concat replies = encodeMessage (MReady ready) ++ encodeMessage (MAck ack) →
  head (snd_connections s) = Some ((Data <$> replies) ++ heard) →
  (* the receiver *)
  isPairCodeAccepted (state p) (sf_pairCode options) (now env) = true →
  selectReceivePaths fs (outputDir listenOptions) relativePath
    (sha256Hex content) = Ok sel →
  mkdirRecursive fs (pathDirname (sel_finalPath sel)) = Ok fs1 →
  confirmAccepts listenOptions env header = true →
  fs1 !! sel_tempPath sel = None ∧ existing = []
  ∨ fs1 !! sel_tempPath sel = Some (File existing) →
  renameFault env (sel_finalPath sel) = None →
  ∃ s' r',
    sendFile network options s = (Done ack, s')
    ∧ snd_written s'
      = encodeJsonLine header
        :: (if bool_decide (payload = []) then [] else streamChunks network payload)
    ∧ snd_ended s' = true
    ∧ handleIncomingSocket listenOptions env p fs
        ((Data <$> snd_written s') ++ rest)
      = (Settled, r')
    ∧ outbox r' = [MReady ready; MAck ack]
    ∧ files r' !! sel_finalPath sel = Some (File content)
    ∧ files r' !! sel_tempPath sel = None.
Proof.
  intros content header ready ack Htls Hconnect Hsteady Hstream Hfile Hpath Hsome
    Hdigest Hfresh (Hh1 & Hh2 & Hh3) Hready Hack Hreplies Hinbox Hcode Hsel
    Hmkdir Hconfirm Htemp Hfault.
  assert (Hlen : bufferLength content
                 = bufferLength existing + bufferLength payload).
  { unfold content, bufferLength. rewrite length_app. lia. }
  assert (Hpos : 0 < bufferLength content).
  { unfold bufferLength. destruct content; [done|]. simpl. lia. }
  destruct (snd_connections s) as [|inbox more] eqn:Hconnections; [done|].
  injection Hinbox as ->.
  destruct (sendFile_run network options s content relativePath ready ack
              replies heard more)
    as (s' & Hsend & Hwritten & Hended & _); try done.
  { simpl. unfold bufferLength in *. lia. }
  rewrite Hfresh in Hwritten. cbn [ready_offset ready app] in Hwritten.
  fold header in Hwritten.
  assert (Hdrop : drop (Z.to_nat (bufferLength existing)) content = payload).
  { unfold bufferLength. rewrite Nat2Z.id. unfold content.
    by rewrite drop_app_length. }
  rewrite Hdrop in Hwritten.
  assert (Hchunks : (if bufferLength existing <? bufferLength content
                     then streamChunks network payload else [])
                    = if bool_decide (payload = []) then []
                      else streamChunks network payload).
  { case_bool_decide as Hpayload.
    - rewrite Hpayload in Hlen. unfold bufferLength at 3 in Hlen.
      simpl in Hlen. by rewrite (proj2 (Z.ltb_ge _ _)) by lia.
    - rewrite (proj2 (Z.ltb_lt _ _)); [done|]. rewrite Hlen.
      unfold bufferLength at 3. destruct payload; [done|]. simpl. lia. }
  rewrite Hchunks in Hwritten.
  destruct (session_delivers listenOptions env p fs header
              (list_byte_of_string (jsonStringify header)) existing payload
              (snd_written s') rest sel fs1)
    as (r' & Hrun & Hout & Hfinal & Hgone & _); try done.
  { by rewrite string_of_list_byte_of_string. }
  { unfold wellFormedHeader. simpl. split_and!; try done. lia. }
  { rewrite Hwritten. simpl. rewrite encodeJsonLine_line, <- app_assoc.
    simpl. do 2 f_equal. case_bool_decide as Hpayload.
    - by rewrite Hpayload.
    - apply Hstream. }
  exists s', r'. split_and!; try done.
Qed.

(** X21: an empty file cannot be sent to a fresh target. Let a sender call
    [sendFile] on a file of no bytes over a plain connection that is
    established, to a receiver that admits the header and has no temp file
    for it, and let the header, the [ready] and the failing [ack] cross the
    wire unchanged. Then [sendFile] writes the header and nothing else and
    throws [temporary receive file is missing], its socket destroyed, and
    the receiver stores no file. *)
Theorem sendFile_empty_file (s : Sender) (p : Pairing)
    (fs fs1 : gmap string Node) (relativePath : string)
    (sel : ReceivePathSelection)
    (replies : list (list byte)) (heard rest : list SocketEvent) :
  let header :=
    {| h_type := "header"; h_version := 1; h_relativePath := relativePath;
       h_fileSize := 0; h_sha256 := sha256Hex [];
       h_pairCode := sf_pairCode options |} in
  let ready :=
    {| ready_ok := true; ready_offset := 0;
       ready_message := None; ready_savedPath := Some (sel_finalPath sel) |} in
  let ack :=
    {| ack_ok := false;
       ack_message := Some "temporary receive file is missing";
       ack_sha256 := None; ack_receivedBytes := None; ack_savedPath := None;
       ack_resumedFrom := None; ack_nextPairCode := None |} in
  (* the sender *)
  sf_tls options = None → connectError network = None →
  snd_files s !! pathResolve (sf_filePath options) = Some (File []) →
  normalizeTransferPath (sf_relativePath options) = Ok relativePath →
  sha256Hex [] ≠ "" → snd_written s = [] →
  (* the wire *)
  carried header → carried (readyReply ready) → carried (ackReply ack) →
  concat replies = encodeMessage (MReady ready) ++ encodeMessage (MAck ack) →
  head (snd_connections s) = Some ((Data <$> replies) ++ heard) →
  (* the receiver *)
  socketWritable env = true →
  isPairCodeAccepted (state p) (sf_pairCode options) (now env) = true →
  selectReceivePaths fs (outputDir listenOptions) relativePath
    (sha256Hex []) = Ok sel →
  mkdirRecursive fs (pathDirname (sel_finalPath sel)) = Ok fs1 →
  confirmAccepts listenOptions env header = true →
  fs1 !! sel_tempPath sel = None →
  ∃ s' r',
    sendFile network options s
    = (Thrown "temporary receive file is missing", s')
    ∧ snd_written s' = [encodeJsonLine header]
    ∧ snd_destroyed s' = true
    ∧ handleIncomingSocket listenOptions env p fs
        ((Data <$> snd_written s') ++ rest)
      = (Settled, r')
    ∧ outbox r' = [MReady ready; MAck ack]
    ∧ files r' = fs1.
Proof.
  intros header ready ack Htls Hconnect Hfile Hpath Hdigest Hfresh
    (Hh1 & Hh2 & Hh3) Hready Hack Hreplies Hinbox Hwritable Hcode Hsel
    Hmkdir Hconfirm Htemp.
  destruct (snd_connections s) as [|inbox more] eqn:Hconnections; [done|].
  injection Hinbox as ->.
  assert (Hrun : ∃ s',
    sendFile network options s
    = (Thrown "temporary receive file is missing", s')
    ∧ snd_written s' = [encodeJsonLine header]
    ∧ snd_destroyed s' = true).
  { destruct (sendFile_run network options s [] relativePath ready ack
                replies heard more)
      as (s' & Hsend & Hwritten & _ & Hdestroyed & _); try done.
    rewrite Hfresh in Hwritten. exists s'. done. }
  destruct Hrun as (s' & Hsend & Hwritten & Hdestroyed).
  destruct (session_empty_file listenOptions env p fs header
              (list_byte_of_string (jsonStringify header)) []
              (snd_written s') rest sel fs1)
    as (r' & Hrun & Hout & Hfiles & _); try done.
  { by rewrite string_of_list_byte_of_string. }
  { by rewrite Hwritten; simpl; rewrite encodeJsonLine_line, app_nil_r. }
  exists s', r'. rewrite Hwritable in Hout. split_and!; done.
Qed.

End EndToEnd.

Lemma sendFile_handleIncomingSocket_witness :
  ∃ s' r',
    SenderExamples.send (SenderExamples.plain (Some "123456"))
      (SenderExamples.holding ((Data <$> SenderExamples.answer) ++ [End]))
    = (Done SenderExamples.ack, s')
    ∧ SenderExamples.receive ((Data <$> snd_written s') ++ [End])
      = (Settled, r')
    ∧ files r' !! "/out/a.txt" = Some (File (Examples.bytes "hello")).
Proof.
  destruct (sendFile_handleIncomingSocket
              (H := Examples.checksum) (H0 := Examples.posixPaths)
              (H1 := SenderExamples.headerText)
              (H2 := SenderExamples.readyText) (H3 := SenderExamples.ackText)
              (H4 := SenderExamples.headerCodec)
              (H5 := SenderExamples.readyCodec) (H6 := SenderExamples.ackCodec)
              (H7 := TlsExamples.hostsCodec) (H8 := Examples.codeUnitOrder)
              Examples.fixedCode (Examples.environment true)
              SenderExamples.network (SenderExamples.plain (Some "123456"))
              (SenderExamples.holding
                 ((Data <$> SenderExamples.answer) ++ [End]))
              (Examples.idle (Some "123456")) ∅ {["/out" := Directory]}
              "a.txt" [] (Examples.bytes "hello")
              {| sel_finalPath := "/out/a.txt";
                 sel_tempPath := "/out/a.txt.519784.local-sent.part" |}
              SenderExamples.answer [End] [End])
    as (s' & r' & Hsend & _ & _ & Hrun & _ & Hfile & _).
  - reflexivity.
  - reflexivity.
  - reflexivity.
  - intros b. simpl. by rewrite app_nil_r, take_drop.
  - reflexivity.
  - reflexivity.
  - discriminate.
  - vm_compute. discriminate.
  - reflexivity.
  - vm_compute. split_and!; (reflexivity || discriminate).
  - vm_compute. split_and!; (reflexivity || discriminate).
  - vm_compute. split_and!; (reflexivity || discriminate).
  - vm_compute. reflexivity.
  - reflexivity.
  - reflexivity.
  - vm_compute. reflexivity.
  - vm_compute. reflexivity.
  - reflexivity.
  - left. split; [|reflexivity]. vm_compute. reflexivity.
  - reflexivity.
  - exists s', r'. split; [exact Hsend|]. split; [exact Hrun|exact Hfile].
Defined.

Lemma sendFile_empty_file_witness :
  ∃ s' r',
    SenderExamples.send (SenderExamples.plainFor "z.txt" (Some "123456"))
      (SenderExamples.holding ((Data <$> SenderExamples.refusal) ++ [End]))
    = (Thrown "temporary receive file is missing", s')
    ∧ SenderExamples.receive ((Data <$> snd_written s') ++ [End])
      = (Settled, r')
    ∧ files r' = {["/out" := Directory]}.
Proof.
  destruct (sendFile_empty_file
              (H := Examples.checksum) (H0 := Examples.posixPaths)
              (H1 := SenderExamples.headerText)
              (H2 := SenderExamples.readyText) (H3 := SenderExamples.ackText)
              (H4 := SenderExamples.headerCodec)
              (H5 := SenderExamples.readyCodec) (H6 := SenderExamples.ackCodec)
              (H7 := TlsExamples.hostsCodec) (H8 := Examples.codeUnitOrder)
              Examples.fixedCode (Examples.environment true)
              SenderExamples.network
              (SenderExamples.plainFor "z.txt" (Some "123456"))
              (SenderExamples.holding
                 ((Data <$> SenderExamples.refusal) ++ [End]))
              (Examples.idle (Some "123456")) ∅ {["/out" := Directory]}
              "z.txt"
              {| sel_finalPath := "/out/z.txt";
                 sel_tempPath := "/out/z.txt.7.local-sent.part" |}
              SenderExamples.refusal [End] [End])
    as (s' & r' & Hsend & _ & _ & Hrun & _ & Hfiles).
  - reflexivity.
  - reflexivity.
  - reflexivity.
  - reflexivity.
  - vm_compute. discriminate.
  - reflexivity.
  - vm_compute. split_and!; (reflexivity || discriminate).
  - vm_compute. split_and!; (reflexivity || discriminate).
  - vm_compute. split_and!; (reflexivity || discriminate).
  - vm_compute. reflexivity.
  - reflexivity.
  - reflexivity.
  - reflexivity.
  - vm_compute. reflexivity.
  - vm_compute. reflexivity.
  - reflexivity.
  - vm_compute. reflexivity.
  - exists s', r'. split; [exact Hsend|]. split; [exact Hrun|exact Hfiles].
Defined.
